(** * namespace-isolation: a shallow embedding of the quota controller
      (package [agent]) and of the container routing plugin (package
      [plugin]), with the properties of their specification.

    Go strings are byte sequences and are modelled as [string] (a list of
    8-bit [ascii]); [int64] values are modelled as [Z] with the wrap-around
    written out where the code can reach it; [float64] values are modelled
    by the IEEE 754 binary64 instance of [SpecFloat]. *)

From Stdlib Require Import ZArith String Ascii List Bool Lia DecimalString.
From Stdlib Require Import Floats.SpecFloat.
From stdpp Require Import gmap strings.

Local Open Scope string_scope.
Local Open Scope Z_scope.

(* ===================================================================== *)
(** * Go library primitives used by the two packages                      *)
(* ===================================================================== *)

Module GoStrings.

(** A byte given by its code. *)
Definition byte (n : Z) : ascii := ascii_of_N (Z.to_N n).

Fixpoint of_bytes (l : list Z) : string :=
  match l with
  | nil => EmptyString
  | (n :: l')%list => String (byte n) (of_bytes l')
  end.

Fixpoint rev_append (s acc : string) : string :=
  match s with
  | EmptyString => acc
  | String c s' => rev_append s' (String c acc)
  end.

Definition rev (s : string) : string := rev_append s EmptyString.

(** [strip_prefix p s] is [Some rest] when [s = p ++ rest]. *)
Fixpoint strip_prefix (p s : string) : option string :=
  match p with
  | EmptyString => Some s
  | String a p' =>
      match s with
      | EmptyString => None
      | String b s' => if Ascii.eqb a b then strip_prefix p' s' else None
      end
  end.

(** The UTF-8 encodings of the runes for which [unicode.IsSpace] holds
    (the Unicode White_Space property): U+0009..U+000D, U+0020, U+0085,
    U+00A0, U+1680, U+2000..U+200A, U+2028, U+2029, U+202F, U+205F and
    U+3000. *)
Definition space_runes : list string :=
  (of_bytes (9 :: nil) :: of_bytes (10 :: nil) :: of_bytes (11 :: nil)
   :: of_bytes (12 :: nil) :: of_bytes (13 :: nil) :: of_bytes (32 :: nil)
   :: of_bytes (194 :: 133 :: nil) :: of_bytes (194 :: 160 :: nil)
   :: of_bytes (225 :: 154 :: 128 :: nil)
   :: of_bytes (226 :: 128 :: 128 :: nil) :: of_bytes (226 :: 128 :: 129 :: nil)
   :: of_bytes (226 :: 128 :: 130 :: nil) :: of_bytes (226 :: 128 :: 131 :: nil)
   :: of_bytes (226 :: 128 :: 132 :: nil) :: of_bytes (226 :: 128 :: 133 :: nil)
   :: of_bytes (226 :: 128 :: 134 :: nil) :: of_bytes (226 :: 128 :: 135 :: nil)
   :: of_bytes (226 :: 128 :: 136 :: nil) :: of_bytes (226 :: 128 :: 137 :: nil)
   :: of_bytes (226 :: 128 :: 138 :: nil)
   :: of_bytes (226 :: 128 :: 168 :: nil) :: of_bytes (226 :: 128 :: 169 :: nil)
   :: of_bytes (226 :: 128 :: 175 :: nil)
   :: of_bytes (226 :: 129 :: 159 :: nil)
   :: of_bytes (227 :: 128 :: 128 :: nil) :: nil)%list.

(** The first rune of [s] is a space: what is left after it. *)
Fixpoint strip_first (ps : list string) (s : string) : option string :=
  match ps with
  | nil => None
  | (p :: ps')%list =>
      match strip_prefix p s with
      | Some rest => Some rest
      | None => strip_first ps' s
      end
  end.

(** [strings.TrimLeftFunc(s, unicode.IsSpace)]; the fuel is the length of
    the string, every round removes at least one byte. *)
Fixpoint trim_left_fuel (fuel : nat) (runes : list string) (s : string) : string :=
  match fuel with
  | O => s
  | S fuel' =>
      match strip_first runes s with
      | Some rest => trim_left_fuel fuel' runes rest
      | None => s
      end
  end.

Definition TrimLeftSpace (s : string) : string :=
  trim_left_fuel (String.length s) space_runes s.

(** Trimming on the right decodes the last rune; on the reversed bytes
    that is a prefix test against the reversed encodings. *)
Definition TrimRightSpace (s : string) : string :=
  rev (trim_left_fuel (String.length s) (List.map rev space_runes) (rev s)).

(** [strings.TrimSpace]. *)
Definition TrimSpace (s : string) : string :=
  TrimRightSpace (TrimLeftSpace s).

Definition is_lower (c : ascii) : bool :=
  let n := nat_of_ascii c in (Nat.leb 97 n && Nat.leb n 122)%bool.

Definition is_digit (c : ascii) : bool :=
  let n := nat_of_ascii c in (Nat.leb 48 n && Nat.leb n 57)%bool.

(** The value of a decimal digit byte. *)
Definition digit_val (c : ascii) : Z := Z.of_nat (nat_of_ascii c) - 48.

Definition upper_byte (c : ascii) : ascii :=
  if is_lower c then ascii_of_nat (nat_of_ascii c - 32) else c.

Definition lower_byte (c : ascii) : ascii :=
  let n := nat_of_ascii c in
  if (Nat.leb 65 n && Nat.leb n 90)%bool then ascii_of_nat (n + 32) else c.

(** [strings.ToUpper] on ASCII text (the only text the agent passes to it:
    a suffix captured by the memory pattern, or the empty string). *)
Fixpoint ToUpper (s : string) : string :=
  match s with
  | EmptyString => EmptyString
  | String c s' => String (upper_byte c) (ToUpper s')
  end.

(** [strings.TrimSuffix]. *)
Definition TrimSuffix (s suffix : string) : string :=
  match strip_prefix (rev suffix) (rev s) with
  | Some r => rev r
  | None => s
  end.

(** The verb [%d] of [fmt.Sprintf] on an integer. *)
Definition itoa (z : Z) : string := NilZero.string_of_int (Z.to_int z).

End GoStrings.

Import GoStrings.


(** ** [float64]: IEEE 754 binary64 *)

Module Float64.

Definition prec : Z := 53.
Definition emax : Z := 1024.

Abbreviation float64 := spec_float.

Definition Inf (neg : bool) : float64 := S754_infinity neg.
Definition NaN : float64 := S754_nan.

(** The float nearest to [n / d] (ties to even), negated when [neg]. *)
Definition round_ratio (neg : bool) (n d : positive) : float64 :=
  let '(q, e, l) := SFdiv_core_binary prec emax (Zpos n) 0 (Zpos d) 0 in
  binary_round_aux prec emax neg q e l.

(** The float nearest to [m * 2^e]. *)
Definition round_pow2 (neg : bool) (m : positive) (e : Z) : float64 :=
  binary_round prec emax neg m e.

(** The conversion [float64(k)] of an integer constant. *)
Definition of_Z (z : Z) : float64 := binary_normalize prec emax z 0 false.

Definition mul : float64 -> float64 -> float64 := SFmul prec emax.

(** The comparisons [x <= y] and [x < y]; both are false on a NaN. *)
Definition leb : float64 -> float64 -> bool := SFleb.
Definition ltb : float64 -> float64 -> bool := SFltb.

Definition is_finite (f : float64) : bool :=
  match f with
  | S754_zero _ | S754_finite _ _ _ => true
  | _ => false
  end.

Definition is_inf (f : float64) : bool :=
  match f with
  | S754_infinity _ => true
  | _ => false
  end.

(** The integer part of a finite float (truncation toward zero). *)
Definition trunc (f : float64) : option Z :=
  match f with
  | S754_zero _ => Some 0
  | S754_finite s m e =>
      let a := if 0 <=? e then Zpos m * 2 ^ e else Zpos m / 2 ^ (- e) in
      Some (if s then - a else a)
  | _ => None
  end.

Definition int64_min : Z := - 2 ^ 63.
Definition int64_max : Z := 2 ^ 63 - 1.

(** The two's complement wrap-around of [int64] arithmetic. *)
Definition wrap64 (z : Z) : Z := (z + 2 ^ 63) mod 2 ^ 64 - 2 ^ 63.

(** The conversion [int64(f)]: the fraction is discarded.  When the value
    does not fit (or is a NaN) Go leaves the result to the implementation;
    the value here is the one of amd64 (the "integer indefinite" of
    CVTTSD2SI). *)
Definition to_int64 (f : float64) : Z :=
  match trunc f with
  | Some z => if (int64_min <=? z) && (z <=? int64_max) then z else int64_min
  | None => int64_min
  end.

End Float64.

Import Float64.

(** ** [strconv.ParseFloat(s, 64)] *)

Module Strconv.

Inductive NumError := ErrSyntax | ErrRange.

Definition is_hex_letter (c : ascii) : bool :=
  let n := nat_of_ascii (lower_byte c) in (Nat.leb 97 n && Nat.leb n 102)%bool.

Definition hex_letter_val (c : ascii) : Z :=
  Z.of_nat (nat_of_ascii (lower_byte c)) - 97 + 10.

(** [commonPrefixLenIgnoreCase]; [prefix] is in lower case. *)
Fixpoint commonPrefixLenIgnoreCase (s prefix : string) : nat :=
  match s, prefix with
  | String c s', String p prefix' =>
      if Ascii.eqb (lower_byte c) p
      then S (commonPrefixLenIgnoreCase s' prefix') else O
  | _, _ => O
  end.

Definition special_inf (neg : bool) (nsign : nat) (s : string)
  : option (float64 * nat) :=
  let n := commonPrefixLenIgnoreCase s "infinity" in
  let n := if (Nat.ltb 3 n && Nat.ltb n 8)%bool then 3%nat else n in
  if (Nat.eqb n 3 || Nat.eqb n 8)%bool then Some (Inf neg, (nsign + n)%nat)
  else None.

(** [special]: the infinities and NaN, with the number of bytes read. *)
Definition special (s : string) : option (float64 * nat) :=
  match s with
  | EmptyString => None
  | String c s' =>
      if Ascii.eqb c "+" then special_inf false 1 s'
      else if Ascii.eqb c "-" then special_inf true 1 s'
      else if Ascii.eqb (lower_byte c) "i" then special_inf false 0 s
      else if Ascii.eqb (lower_byte c) "n" then
        if Nat.eqb (commonPrefixLenIgnoreCase s "nan") 3
        then Some (NaN, 3%nat) else None
      else None
  end.

(** The state of the digit loop of [readFloat].  Instead of the 19 digits
    and the [trunc] flag that Go keeps for its fast paths, [mant] holds
    every mantissa digit and [nfrac] counts the digits after the point:
    the digits denote [mant * base ^ (- nfrac)]. *)
Record digits := {
  sawdot : bool;
  sawdigits : bool;
  underscores : bool;
  mant : Z;
  nfrac : Z
}.

Definition digits0 : digits :=
  {| sawdot := false; sawdigits := false; underscores := false;
     mant := 0; nfrac := 0 |}.

Definition push_digit (base v : Z) (d : digits) : digits :=
  {| sawdot := sawdot d; sawdigits := true; underscores := underscores d;
     mant := mant d * base + v;
     nfrac := if sawdot d then nfrac d + 1 else nfrac d |}.

(** The mantissa loop: stops at the first byte that is neither a digit of
    the base, an underscore, nor the first point. *)
Fixpoint read_mantissa (hex : bool) (s : string) (d : digits) : digits * string :=
  match s with
  | EmptyString => (d, s)
  | String c s' =>
      if Ascii.eqb c "_" then
        read_mantissa hex s'
          {| sawdot := sawdot d; sawdigits := sawdigits d; underscores := true;
             mant := mant d; nfrac := nfrac d |}
      else if Ascii.eqb c "." then
        if sawdot d then (d, s)
        else read_mantissa hex s'
               {| sawdot := true; sawdigits := sawdigits d;
                  underscores := underscores d;
                  mant := mant d; nfrac := nfrac d |}
      else if is_digit c then
        read_mantissa hex s' (push_digit (if hex then 16 else 10) (digit_val c) d)
      else if (hex && is_hex_letter c)%bool then
        read_mantissa hex s' (push_digit 16 (hex_letter_val c) d)
      else (d, s)
  end.

(** The exponent digits; the accumulator stops growing at 10000. *)
Fixpoint read_exp_digits (s : string) (e : Z) (us : bool) : Z * bool * string :=
  match s with
  | EmptyString => (e, us, s)
  | String c s' =>
      if Ascii.eqb c "_" then read_exp_digits s' e true
      else if is_digit c then
        read_exp_digits s' (if e <? 10000 then e * 10 + digit_val c else e) us
      else (e, us, s)
  end.

(** The optional exponent part: [None] when it is malformed (or missing
    in a hexadecimal literal), else the exponent, the underscore flag and
    the unread bytes. *)
Definition read_exponent (hex : bool) (s : string) (us : bool)
  : option (Z * bool * string) :=
  match s with
  | String c s' =>
      if Ascii.eqb (lower_byte c) (if hex then "p" else "e")%char then
        match s' with
        | EmptyString => None
        | String c1 s1 =>
            let '(esign, s2) :=
              if Ascii.eqb c1 "+" then (1, s1)
              else if Ascii.eqb c1 "-" then (-1, s1)
              else (1, s') in
            match s2 with
            | EmptyString => None
            | String c2 _ =>
                if is_digit c2 then
                  let '(e, us', rest) := read_exp_digits s2 0 us in
                  Some (e * esign, us', rest)
                else None
            end
        end
      else if hex then None else Some (0, us, s)
  | EmptyString => if hex then None else Some (0, us, s)
  end.

(** [underscoreOK]: underscores only between digits, or between a base
    prefix and a digit.  [saw] is the kind of the last byte. *)
Inductive saw_kind := SawStart | SawDigit | SawUnderscore | SawOther.

Fixpoint underscore_loop (hex : bool) (s : string) (saw : saw_kind) : bool :=
  match s with
  | EmptyString => match saw with SawUnderscore => false | _ => true end
  | String c s' =>
      if (is_digit c || (hex && is_hex_letter c))%bool
      then underscore_loop hex s' SawDigit
      else if Ascii.eqb c "_" then
        match saw with
        | SawDigit => underscore_loop hex s' SawUnderscore
        | _ => false
        end
      else
        match saw with
        | SawUnderscore => false
        | _ => underscore_loop hex s' SawOther
        end
  end.

Definition underscoreOK (s : string) : bool :=
  let s :=
    match s with
    | String c s' => if (Ascii.eqb c "-" || Ascii.eqb c "+")%bool then s' else s
    | EmptyString => s
    end in
  match s with
  | String c0 (String c1 s2) =>
      let l := lower_byte c1 in
      if (Ascii.eqb c0 "0"
          && (Ascii.eqb l "b" || Ascii.eqb l "o" || Ascii.eqb l "x"))%bool
      then underscore_loop (Ascii.eqb l "x") s2 SawDigit
      else underscore_loop false s SawStart
  | _ => underscore_loop false s SawStart
  end.

(** What [readFloat] returns: the sign, the base, the exact mantissa and
    the exponent of the base ([mant * 10^exp] or [mant * 2^exp]), and the
    bytes it did not read. *)
Record scanned := {
  sc_neg : bool;
  sc_hex : bool;
  sc_mant : Z;
  sc_exp : Z;
  sc_rest : string
}.

Definition readFloat (s : string) : option scanned :=
  match s with
  | EmptyString => None
  | String c s' =>
      let '(neg, s1) :=
        if Ascii.eqb c "+" then (false, s')
        else if Ascii.eqb c "-" then (true, s')
        else (false, s) in
      let '(hex, s2) :=
        match s1 with
        | String c0 (String c1 (String c2 s3)) =>
            if (Ascii.eqb c0 "0" && Ascii.eqb (lower_byte c1) "x")%bool
            then (true, String c2 s3) else (false, s1)
        | _ => (false, s1)
        end in
      let '(d, s3) := read_mantissa hex s2 digits0 in
      if negb (sawdigits d) then None
      else
        match read_exponent hex s3 (underscores d) with
        | None => None
        | Some (e, us, rest) =>
            let consumed :=
              String.substring 0 (String.length s - String.length rest) s in
            if (us && negb (underscoreOK consumed))%bool then None
            else
              Some {| sc_neg := neg; sc_hex := hex; sc_mant := mant d;
                      sc_exp := if hex then e - 4 * nfrac d else e - nfrac d;
                      sc_rest := rest |}
        end
  end.

(** The correctly rounded value of what was read. *)
Definition scanned_value (r : scanned) : float64 :=
  match sc_mant r with
  | Zpos m =>
      if sc_hex r then round_pow2 (sc_neg r) m (sc_exp r)
      else if 0 <=? sc_exp r
           then round_ratio (sc_neg r) (m * Z.to_pos (10 ^ sc_exp r)) 1
           else round_ratio (sc_neg r) m (Z.to_pos (10 ^ (- sc_exp r)))
  | _ => S754_zero (sc_neg r)
  end.

(** [ParseFloat(s, 64)]: the nearest [float64] and no error; zero and a
    syntax error when [s] is not a floating-point literal read to its end;
    an infinity and a range error when the value is too large. *)
Definition ParseFloat (s : string) : float64 * option NumError :=
  match special s with
  | Some (f, n) =>
      if Nat.eqb n (String.length s) then (f, None)
      else (S754_zero false, Some ErrSyntax)
  | None =>
      match readFloat s with
      | None => (S754_zero false, Some ErrSyntax)
      | Some r =>
          match sc_rest r with
          | EmptyString =>
              let f := scanned_value r in
              (f, if is_inf f then Some ErrRange else None)
          | _ => (S754_zero false, Some ErrSyntax)
          end
      end
  end.

End Strconv.

Import Strconv.


(** ** [unstructured.Unstructured]: the declarations as the informers
       deliver them *)

Module Unstructured.

(** A field of a JSON object read with a typed accessor ([NestedString],
    [NestedBool], [NestedMap]): missing, present with another type, or
    present with the expected type. *)
Inductive Field (T : Type) : Type :=
| Absent
| WrongType
| Present (v : T).
Arguments Absent {T}.
Arguments WrongType {T}.
Arguments Present {T} v.

(** The result [(value, found, err)] of an accessor; [err] is reduced to
    its being non-nil. *)
Definition Nested {T : Type} (zero : T) (f : Field T) : T * bool * bool :=
  match f with
  | Absent => (zero, false, false)
  | WrongType => (zero, false, true)
  | Present v => (v, true, false)
  end.

(** The fields of [spec] that the two daemons read. *)
Record SpecMap := {
  spec_namespace : Field string;
  spec_cpu : Field string;
  spec_memory : Field string;
  spec_enabled : Field bool
}.

Record Unstructured := {
  GetAPIVersion : string;
  GetKind : string;
  GetName : string;
  GetNamespace : string;
  GetUID : string;
  Object_spec : Field SpecMap
}.

Definition NestedString := @Nested string "".

(** [NestedMap(u.Object, "spec")]; the map is nil unless found. *)
Definition NestedMap (f : Field SpecMap) : option SpecMap * bool * bool :=
  match f with
  | Absent => (None, false, false)
  | WrongType => (None, false, true)
  | Present m => (Some m, true, false)
  end.
Definition NestedBool := @Nested bool false.

End Unstructured.

Import Unstructured.

(** ** [workqueue]: the rate limited work queue of client-go, with the
       controller's default rate limiter *)

Module Workqueue.

(** [queue] holds the keys to hand out, in order; [dirty] the keys that
    need processing; [processing] the keys handed out and not yet [Done];
    [failures] the requeue count the rate limiter keeps for each key;
    [waiting] the keys of [AddRateLimited] whose delay has not elapsed. *)
Record WorkQueue := {
  queue : list string;
  dirty : gset string;
  processing : gset string;
  failures : gmap string nat;
  waiting : list string;
  shuttingDown : bool
}.

Definition empty : WorkQueue :=
  {| queue := nil; dirty := ∅; processing := ∅; failures := ∅;
     waiting := nil; shuttingDown := false |}.

Definition Add (item : string) (q : WorkQueue) : WorkQueue :=
  if shuttingDown q then q
  else if decide (item ∈ dirty q) then q
  else
    {| queue := if decide (item ∈ processing q) then queue q
                else (queue q ++ item :: nil)%list;
       dirty := {[item]} ∪ dirty q;
       processing := processing q;
       failures := failures q;
       waiting := waiting q;
       shuttingDown := shuttingDown q |}.

(** What [Get] does once it returns. *)
Inductive GetResult :=
| GetBlocks
| GetShutdown
| GetItem (item : string) (q : WorkQueue).

Definition Get (q : WorkQueue) : GetResult :=
  match queue q with
  | nil => if shuttingDown q then GetShutdown else GetBlocks
  | (item :: rest)%list =>
      GetItem item
        {| queue := rest;
           dirty := dirty q ∖ {[item]};
           processing := {[item]} ∪ processing q;
           failures := failures q;
           waiting := waiting q;
           shuttingDown := shuttingDown q |}
  end.

Definition Done (item : string) (q : WorkQueue) : WorkQueue :=
  {| queue := if decide (item ∈ dirty q) then (queue q ++ item :: nil)%list
              else queue q;
     dirty := dirty q;
     processing := processing q ∖ {[item]};
     failures := failures q;
     waiting := waiting q;
     shuttingDown := shuttingDown q |}.

Definition NumRequeues (item : string) (q : WorkQueue) : nat :=
  default O (failures q !! item).

Definition Forget (item : string) (q : WorkQueue) : WorkQueue :=
  {| queue := queue q;
     dirty := dirty q;
     processing := processing q;
     failures := delete item (failures q);
     waiting := waiting q;
     shuttingDown := shuttingDown q |}.

(** [AddRateLimited]: the rate limiter counts one more requeue for the
    key and gives a positive delay, after which the key is added. *)
Definition AddRateLimited (item : string) (q : WorkQueue) : WorkQueue :=
  {| queue := queue q;
     dirty := dirty q;
     processing := processing q;
     failures := <[item := S (NumRequeues item q)]> (failures q);
     waiting := if shuttingDown q then waiting q
                else (waiting q ++ item :: nil)%list;
     shuttingDown := shuttingDown q |}.

(** The delay of the oldest waiting key elapses. *)
Definition timer (q : WorkQueue) : WorkQueue :=
  match waiting q with
  | nil => q
  | (item :: rest)%list =>
      Add item
        {| queue := queue q;
           dirty := dirty q;
           processing := processing q;
           failures := failures q;
           waiting := rest;
           shuttingDown := shuttingDown q |}
  end.

End Workqueue.

(* ===================================================================== *)
(** * Package [agent]: the quota controller                               *)
(* ===================================================================== *)

Module Agent.

Definition DefaultCPUPeriod : Z := 100000.
Definition RequiredControllers : string := "+cpu +memory +pids".

(** Errors: those of the libraries, and [fmt.Errorf] with its message
    (the text before the wrapped error) and, with [%w], the error it
    wraps. *)
Inductive Errno := ENOENT | EOTHER.

Inductive error :=
| NumErr (e : NumError)
| PathError (e : Errno)
| ExitError
| APIError
| StoreError
| Errorf (msg : string)
| ErrorfW (msg : string) (cause : error).

Inductive result (A : Type) : Type :=
| Ok (a : A)
| Err (e : error).
Arguments Ok {A} a.
Arguments Err {A} e.

Definition is_ok {A : Type} (r : result A) : bool :=
  match r with Ok _ => true | Err _ => false end.

Definition is_err {A : Type} (r : result A) : bool := negb (is_ok r).

(** ** cgroup.go: parsing the limits *)

(** [ParseCPU] converts CPU cores to a quota in microseconds. *)
Definition ParseCPU (cpu : string) : result Z :=
  let cpu := TrimSpace cpu in
  if String.eqb cpu "" then Err (Errorf "empty CPU value")
  else
    match ParseFloat cpu with
    | (_, Some err) => Err (ErrorfW ("invalid CPU value '" ++ cpu ++ "'") (NumErr err))
    | (cores, None) =>
        if Float64.leb cores (of_Z 0)
        then Err (Errorf ("CPU value must be positive: " ++ cpu))
        else Ok (to_int64 (Float64.mul cores (of_Z DefaultCPUPeriod)))
    end.

(** The white space of the pattern syntax: [\s] is [[\t\n\f\r ]]. *)
Definition is_re_space (c : ascii) : bool :=
  let n := nat_of_ascii c in
  (Nat.eqb n 9 || Nat.eqb n 10 || Nat.eqb n 12 || Nat.eqb n 13 || Nat.eqb n 32)%bool.

Fixpoint span (p : ascii -> bool) (s : string) : string * string :=
  match s with
  | EmptyString => (EmptyString, EmptyString)
  | String c s' =>
      if p c then let '(a, b) := span p s' in (String c a, b)
      else (EmptyString, s)
  end.

Definition memory_suffixes : list string :=
  ("Ki" :: "Mi" :: "Gi" :: "Ti" :: "K" :: "M" :: "G" :: "T"
   :: "k" :: "m" :: "g" :: "t" :: nil)%list.

Definition optional_suffix (s : string) : bool :=
  (String.eqb s "" || existsb (String.eqb s) memory_suffixes)%bool.

(** [FindStringSubmatch] for the pattern of [ParseMemory],
    [^(\d+(?:\.\d+)?)\s*(Ki|Mi|Gi|Ti|K|M|G|T|k|m|g|t)?$]: the two groups
    of the match, [None] when the text does not match. *)
Definition memoryRe_FindStringSubmatch (s : string) : option (string * string) :=
  let '(int_part, rest) := span is_digit s in
  if String.eqb int_part "" then None
  else
    let '(number, rest) :=
      match rest with
      | String c rest' =>
          if Ascii.eqb c "." then
            let '(frac, rest'') := span is_digit rest' in
            if String.eqb frac "" then (int_part, rest)
            else (int_part ++ "." ++ frac, rest'')
          else (int_part, rest)
      | EmptyString => (int_part, rest)
      end in
    let '(_, suffix) := span is_re_space rest in
    if optional_suffix suffix then Some (number, suffix) else None.

Definition KiB : Z := 1024.
Definition MiB : Z := 1024 * 1024.
Definition GiB : Z := 1024 * 1024 * 1024.
Definition TiB : Z := 1024 * 1024 * 1024 * 1024.

(** The [switch] on the upper-cased suffix. *)
Definition suffix_multiplier (suffix : string) : option Z :=
  if String.eqb suffix "" then Some 1
  else if (String.eqb suffix "K" || String.eqb suffix "KI")%bool then Some KiB
  else if (String.eqb suffix "M" || String.eqb suffix "MI")%bool then Some MiB
  else if (String.eqb suffix "G" || String.eqb suffix "GI")%bool then Some GiB
  else if (String.eqb suffix "T" || String.eqb suffix "TI")%bool then Some TiB
  else None.

(** [ParseMemory] converts a memory string to bytes. *)
Definition ParseMemory (memory : string) : result Z :=
  let memory := TrimSpace memory in
  if String.eqb memory "" then Err (Errorf "empty memory value")
  else
    match memoryRe_FindStringSubmatch memory with
    | None => Err (Errorf ("invalid memory format: " ++ memory))
    | Some (number, sfx) =>
        match ParseFloat number with
        | (_, Some err) => Err (ErrorfW "invalid memory value" (NumErr err))
        | (value, None) =>
            if Float64.ltb value (of_Z 0)
            then Err (Errorf ("memory value must be non-negative: " ++ memory))
            else
              let suffix := ToUpper sfx in
              match suffix_multiplier suffix with
              | None => Err (Errorf ("unknown memory suffix: " ++ suffix))
              | Some multiplier =>
                  Ok (to_int64 (Float64.mul value (of_Z multiplier)))
              end
        end
    end.

(** [formatMemoryForSystemd]; [%] and [/] of Go are [Z.rem] and [Z.quot]. *)
Definition formatMemoryForSystemd (bytes : Z) : string :=
  if (GiB <=? bytes) && (Z.rem bytes GiB =? 0) then itoa (Z.quot bytes GiB) ++ "G"
  else if (MiB <=? bytes) && (Z.rem bytes MiB =? 0) then itoa (Z.quot bytes MiB) ++ "M"
  else if (KiB <=? bytes) && (Z.rem bytes KiB =? 0) then itoa (Z.quot bytes KiB) ++ "K"
  else itoa bytes.


(** ** The node and the cluster as the controller sees them *)

Inductive Level := DebugLevel | InfoLevel | WarnLevel | ErrorLevel.

Record LogEntry := { log_level : Level; log_message : string }.

Record ObjectReference := {
  ref_APIVersion : string;
  ref_Kind : string;
  ref_Name : string;
  ref_Namespace : string;
  ref_UID : string
}.

Record Event := {
  ev_object : ObjectReference;
  ev_type : string;
  ev_reason : string;
  ev_message : string
}.

Record Status := {
  st_ready : bool;
  st_message : string;
  st_lastUpdated : string
}.

Record CgroupStats := {
  CPUUsageUsec : Z;
  CPUThrottled : Z;
  MemoryUsageBytes : Z;
  OOMKills : Z
}.

(** The six gauges of one namespace. *)
Record Gauges := {
  g_cpuUsage : float64;
  g_cpuLimit : float64;
  g_cpuThrottledPeriods : float64;
  g_memoryUsage : float64;
  g_memoryLimit : float64;
  g_oomKills : float64
}.

(** An item of the informer's store, and the outcome of [GetByKey]. *)
Inductive StoreItem :=
| ItemUnstructured (u : Unstructured)
| ItemOther.

Inductive Lookup :=
| LookupError
| NotFound
| Found (item : StoreItem).

(** What the controller does not decide: the informer's store, the
    failures of the host and of the API server, the clock and the
    counters the kernel keeps.  [inaccessible] paths fail every system
    call with an error other than "does not exist"; [busy] directories
    cannot be removed. *)
Record Environment := {
  store : string -> Lookup;
  inaccessible : string -> bool;
  busy : string -> bool;
  mkdir_fails : string -> bool;
  write_fails : string -> bool;
  command_fails : list string -> bool;
  api_get_fails : string -> bool;
  api_update_fails : string -> bool;
  now : string;
  counters : string -> CgroupStats
}.

(** What the controller changes: the directories of the cgroup file
    system, the files written, the commands run on the host, the status
    of each declaration, the events recorded, the log, the gauges and the
    work queue. *)
Record World := {
  env : Environment;
  dirs : gset string;
  files : gmap string string;
  commands : list (list string);
  statuses : gmap string Status;
  events : list Event;
  logs : list LogEntry;
  gauges : gmap string Gauges;
  workqueue : Workqueue.WorkQueue
}.

Definition set_dirs (d : gset string) (w : World) : World :=
  {| env := env w; dirs := d; files := files w; commands := commands w;
     statuses := statuses w; events := events w; logs := logs w;
     gauges := gauges w; workqueue := workqueue w |}.

Definition set_files (f : gmap string string) (w : World) : World :=
  {| env := env w; dirs := dirs w; files := f; commands := commands w;
     statuses := statuses w; events := events w; logs := logs w;
     gauges := gauges w; workqueue := workqueue w |}.

Definition set_commands (c : list (list string)) (w : World) : World :=
  {| env := env w; dirs := dirs w; files := files w; commands := c;
     statuses := statuses w; events := events w; logs := logs w;
     gauges := gauges w; workqueue := workqueue w |}.

Definition set_statuses (s : gmap string Status) (w : World) : World :=
  {| env := env w; dirs := dirs w; files := files w; commands := commands w;
     statuses := s; events := events w; logs := logs w;
     gauges := gauges w; workqueue := workqueue w |}.

Definition set_events (e : list Event) (w : World) : World :=
  {| env := env w; dirs := dirs w; files := files w; commands := commands w;
     statuses := statuses w; events := e; logs := logs w;
     gauges := gauges w; workqueue := workqueue w |}.

Definition set_logs (l : list LogEntry) (w : World) : World :=
  {| env := env w; dirs := dirs w; files := files w; commands := commands w;
     statuses := statuses w; events := events w; logs := l;
     gauges := gauges w; workqueue := workqueue w |}.

Definition set_gauges (g : gmap string Gauges) (w : World) : World :=
  {| env := env w; dirs := dirs w; files := files w; commands := commands w;
     statuses := statuses w; events := events w; logs := logs w;
     gauges := g; workqueue := workqueue w |}.

Definition set_workqueue (q : Workqueue.WorkQueue) (w : World) : World :=
  {| env := env w; dirs := dirs w; files := files w; commands := commands w;
     statuses := statuses w; events := events w; logs := logs w;
     gauges := gauges w; workqueue := q |}.

(** Stateful code threads the world. *)
Definition M (A : Type) : Type := World -> A * World.

Definition ret {A : Type} (a : A) : M A := fun w => (a, w).

Definition bind {A B : Type} (m : M A) (k : A -> M B) : M B :=
  fun w => let '(a, w') := m w in k a w'.

Notation "'let*' x ':=' m 'in' k" := (bind m (fun x => k))
  (at level 10, x name, m at level 100, k at level 200).

Definition get : M World := fun w => (w, w).
Definition modify (f : World -> World) : M unit := fun w => (tt, f w).

Definition log (l : Level) (msg : string) : M unit :=
  modify (fun w => set_logs (logs w ++ {| log_level := l; log_message := msg |} :: nil)%list w).

(** ** The host: [os] and [os/exec] *)

(** [os.Stat], reduced to its error. *)
Definition os_Stat (path : string) : M (option Errno) :=
  let* w := get in
  if inaccessible (env w) path then ret (Some EOTHER)
  else if decide (path ∈ dirs w) then ret None
  else ret (Some ENOENT).

Definition os_IsNotExist (err : option Errno) : bool :=
  match err with Some ENOENT => true | _ => false end.

(** [os.Remove] of a directory. *)
Definition os_Remove (path : string) : M (option Errno) :=
  let* w := get in
  if inaccessible (env w) path then ret (Some EOTHER)
  else if decide (path ∈ dirs w) then
    if busy (env w) path then ret (Some EOTHER)
    else let* _ := modify (set_dirs (dirs w ∖ {[path]})) in ret None
  else ret (Some ENOENT).

(** The directories on the way to a cleaned path: the root when the path
    starts there, and what stands before each of its other separators. *)
Fixpoint ancestors_from (before rest : string) : list string :=
  match rest with
  | EmptyString => nil
  | String c rest' =>
      let above := ancestors_from (before ++ String c "") rest' in
      if Ascii.eqb c "/"
      then ((if String.eqb before "" then "/" else before) :: above)%list
      else above
  end.

Definition ancestors (path : string) : list string := ancestors_from "" path.

(** [os.MkdirAll] of a cleaned path (the manager passes what
    [filepath.Join] returns): the directory is there afterwards, and so
    is every directory on the way to it.  Whether the host refuses the
    call is decided by the path. *)
Definition os_MkdirAll (path : string) : M (option Errno) :=
  let* w := get in
  if (inaccessible (env w) path || mkdir_fails (env w) path)%bool
  then ret (Some EOTHER)
  else
    let* _ := modify (set_dirs ({[path]} ∪ (list_to_set (ancestors path) ∪ dirs w))) in
    ret None.

Definition os_WriteFile (path data : string) : M (option Errno) :=
  let* w := get in
  if (inaccessible (env w) path || write_fails (env w) path)%bool
  then ret (Some EOTHER)
  else let* _ := modify (set_files (<[path := data]> (files w))) in ret None.

(** [exec.Command(...).CombinedOutput()], reduced to its error. *)
Definition exec_CombinedOutput (argv : list string) : M (option error) :=
  let* w := get in
  let* _ := modify (set_commands (commands w ++ argv :: nil)%list) in
  if command_fails (env w) argv then ret (Some ExitError) else ret None.

(** ** The host: [path/filepath] *)

(** [strings.Join]. *)
Fixpoint strings_Join (elems : list string) (sep : string) : string :=
  match elems with
  | nil => ""
  | (e :: nil)%list => e
  | (e :: rest)%list => e ++ sep ++ strings_Join rest sep
  end.

(** The elements of a path: what stands between its separators. *)
Fixpoint path_elements (path : string) : list string :=
  match path with
  | EmptyString => ("" :: nil)%list
  | String c rest =>
      if Ascii.eqb c "/" then ("" :: path_elements rest)%list
      else
        match path_elements rest with
        | (e :: l)%list => (String c e :: l)%list
        | nil => (String c "" :: nil)%list
        end
  end.

(** One element read by [filepath.Clean]; [out] holds the elements kept
    so far, the last one first.  An empty element and [.] are dropped;
    [..] removes the element kept before it, is dropped at the root, and
    is kept at the head of a path that does not start at the root. *)
Definition clean_element (rooted : bool) (out : list string) (e : string)
  : list string :=
  if (String.eqb e "" || String.eqb e ".")%bool then out
  else if String.eqb e ".." then
    match out with
    | (top :: below)%list => if String.eqb top ".." then (e :: out)%list else below
    | nil => if rooted then nil else (e :: nil)%list
    end
  else (e :: out)%list.

Definition is_rooted (path : string) : bool :=
  match path with
  | String c _ => Ascii.eqb c "/"
  | EmptyString => false
  end.

(** [filepath.Clean] on Unix: the shortest path that names the same
    place, without empty elements, [.] elements, inner [..] elements or
    a separator at the end; [.] for the empty path. *)
Definition Clean (path : string) : string :=
  if String.eqb path "" then "."
  else
    let rooted := is_rooted path in
    let out := fold_left (clean_element rooted) (path_elements path) nil in
    if rooted then "/" ++ strings_Join (List.rev out) "/"
    else
      match out with
      | nil => "."
      | _ => strings_Join (List.rev out) "/"
      end.

(** [filepath.Join]: the elements from the first non-empty one on, joined
    with separators and cleaned; the empty path when all are empty. *)
Fixpoint filepath_Join (elems : list string) : string :=
  match elems with
  | nil => ""
  | (e :: rest)%list =>
      if String.eqb e "" then filepath_Join rest
      else Clean (strings_Join elems "/")
  end.

(** The text of an error as [%v] prints it; the texts of the library
    errors are abridged. *)
Fixpoint error_text (e : error) : string :=
  match e with
  | NumErr ErrSyntax => "invalid syntax"
  | NumErr ErrRange => "value out of range"
  | PathError ENOENT => "no such file or directory"
  | PathError EOTHER => "operation failed"
  | ExitError => "exit status 1"
  | APIError => "request failed"
  | StoreError => "store error"
  | Errorf msg => msg
  | ErrorfW msg cause => msg ++ ": " ++ error_text cause
  end.

(** ** cgroup.go: the slice manager *)

Record CgroupManager := {
  cgroupRoot : string;
  slicePrefix : string
}.

Definition getSliceName (m : CgroupManager) (namespace : string) : string :=
  let prefix := TrimSuffix (slicePrefix m) ".slice" in
  prefix ++ "-" ++ namespace ++ ".slice".

Definition GetSlicePath (m : CgroupManager) (namespace : string) : string :=
  let prefix := TrimSuffix (slicePrefix m) ".slice" in
  let sliceName := prefix ++ "-" ++ namespace ++ ".slice" in
  filepath_Join (cgroupRoot m :: slicePrefix m :: sliceName :: nil).

Definition GetParentSlicePath (m : CgroupManager) : string :=
  filepath_Join (cgroupRoot m :: slicePrefix m :: nil).

Definition enableControllers (path : string) : M (option error) :=
  let subtreeControl := filepath_Join (path :: "cgroup.subtree_control" :: nil) in
  let* err := os_WriteFile subtreeControl RequiredControllers in
  match err with
  | Some e => ret (Some (ErrorfW ("failed to enable controllers in " ++ path) (PathError e)))
  | None => ret None
  end.

Definition ensureParentSlice (parentPath : string) : M (option error) :=
  let* err := os_MkdirAll parentPath in
  match err with
  | Some e => ret (Some (ErrorfW ("failed to create parent slice " ++ parentPath) (PathError e)))
  | None => enableControllers parentPath
  end.

(** The percentage of [setCPULimitViaSystemd], in [int64] arithmetic. *)
Definition cpuPercent (cpuQuota : Z) : Z :=
  Z.quot (wrap64 (cpuQuota * 100)) DefaultCPUPeriod.

Definition systemctl_set_property (sliceName property : string) : list string :=
  ("nsenter" :: "-t" :: "1" :: "-m" :: "-u" :: "-n" :: "--"
   :: "systemctl" :: "set-property" :: sliceName :: property
   :: "--runtime" :: nil)%list.

Definition setCPULimitViaSystemd (m : CgroupManager) (namespace : string)
    (cpuQuota : Z) : M (option error) :=
  let sliceName := getSliceName m namespace in
  let cpuPercent := cpuPercent cpuQuota in
  let* _ := log DebugLevel "Setting CPU limit via systemd" in
  let* err := exec_CombinedOutput
                (systemctl_set_property sliceName
                   ("CPUQuota=" ++ itoa cpuPercent ++ "%")) in
  match err with
  | Some e => ret (Some (ErrorfW ("failed to set CPU via systemd for " ++ namespace) e))
  | None =>
      let* _ := log InfoLevel "CPU limit set via systemd" in
      ret None
  end.

Definition setMemoryLimitViaSystemd (m : CgroupManager) (namespace : string)
    (memoryBytes : Z) : M (option error) :=
  let sliceName := getSliceName m namespace in
  let memoryStr := formatMemoryForSystemd memoryBytes in
  let* _ := log DebugLevel "Setting memory limit via systemd" in
  let* err := exec_CombinedOutput
                (systemctl_set_property sliceName ("MemoryMax=" ++ memoryStr)) in
  match err with
  | Some e => ret (Some (ErrorfW ("failed to set memory via systemd for " ++ namespace) e))
  | None =>
      let* _ := log InfoLevel "Memory limit set via systemd" in
      ret None
  end.

Definition EnsureSlice (m : CgroupManager) (namespace cpuLimit memoryLimit : string)
  : M (option error) :=
  let slicePath := GetSlicePath m namespace in
  let parentPath := GetParentSlicePath m in
  let* _ := log DebugLevel "Ensuring cgroup slice" in
  let* err := ensureParentSlice parentPath in
  match err with
  | Some e => ret (Some (ErrorfW ("failed to ensure parent slice for " ++ namespace) e))
  | None =>
  let* err := os_MkdirAll slicePath in
  match err with
  | Some e => ret (Some (ErrorfW ("failed to create slice directory for " ++ namespace) (PathError e)))
  | None =>
  let* err := enableControllers slicePath in
  let* _ := match err with
            | Some _ => log WarnLevel "Failed to enable controllers in namespace slice (may not have children)"
            | None => ret tt
            end in
  let* err :=
    if String.eqb cpuLimit "" then ret None
    else
      match ParseCPU cpuLimit with
      | Err e => ret (Some (ErrorfW ("failed to parse CPU limit for " ++ namespace) e))
      | Ok cpuQuota =>
          let* err := setCPULimitViaSystemd m namespace cpuQuota in
          match err with
          | Some e => ret (Some (ErrorfW ("failed to set CPU limit for " ++ namespace) e))
          | None => ret None
          end
      end in
  match err with
  | Some e => ret (Some e)
  | None =>
  let* err :=
    if String.eqb memoryLimit "" then ret None
    else
      match ParseMemory memoryLimit with
      | Err e => ret (Some (ErrorfW ("failed to parse memory limit for " ++ namespace) e))
      | Ok memoryBytes =>
          let* err := setMemoryLimitViaSystemd m namespace memoryBytes in
          match err with
          | Some e => ret (Some (ErrorfW ("failed to set memory limit for " ++ namespace) e))
          | None => ret None
          end
      end in
  match err with
  | Some e => ret (Some e)
  | None =>
      let* _ := log InfoLevel "Cgroup slice configured successfully" in
      ret None
  end end end end.

Definition RemoveSlice (m : CgroupManager) (namespace : string) : M (option error) :=
  let slicePath := GetSlicePath m namespace in
  let* _ := log DebugLevel "Removing cgroup slice" in
  let* err := os_Stat slicePath in
  if os_IsNotExist err then
    let* _ := log DebugLevel "Slice does not exist, nothing to remove" in
    ret None
  else
    let* err := os_Remove slicePath in
    match err with
    | Some e => ret (Some (ErrorfW ("failed to remove slice for " ++ namespace) (PathError e)))
    | None =>
        let* _ := log InfoLevel "Cgroup slice removed" in
        ret None
    end.

(** ** k8s.go: events and status *)

Definition EventTypeNormal : string := "Normal".
Definition EventTypeWarning : string := "Warning".

Definition recorder_Event (ref : ObjectReference) (eventType reason message : string)
  : M unit :=
  modify (fun w =>
    set_events (events w ++ {| ev_object := ref; ev_type := eventType;
                               ev_reason := reason; ev_message := message |} :: nil)%list w).

Definition EmitEvent (namespace eventType reason message : string) : M unit :=
  let ref := {| ref_APIVersion := ""; ref_Kind := "Namespace";
                ref_Name := namespace; ref_Namespace := namespace;
                ref_UID := "" |} in
  recorder_Event ref eventType reason message.

Definition EmitEventForObject (obj : Unstructured) (eventType reason message : string)
  : M unit :=
  let ref := {| ref_APIVersion := GetAPIVersion obj; ref_Kind := GetKind obj;
                ref_Name := GetName obj; ref_Namespace := GetNamespace obj;
                ref_UID := GetUID obj |} in
  recorder_Event ref eventType reason message.

Definition UpdateStatus (name : string) (ready : bool) (message : string)
  : M (option error) :=
  let* w := get in
  if api_get_fails (env w) name
  then ret (Some (ErrorfW ("failed to get NamespaceQuota " ++ name) APIError))
  else
    let status := {| st_ready := ready; st_message := message;
                     st_lastUpdated := now (env w) |} in
    if api_update_fails (env w) name
    then ret (Some (ErrorfW ("failed to update status for " ++ name) APIError))
    else
      let* _ := modify (set_statuses (<[name := status]> (statuses w))) in
      ret None.

(** ** The declaration as the controller reads it *)

Record NamespaceQuotaSpec := {
  Namespace : string;
  CPU : string;
  Memory : string;
  Enabled : bool
}.

Definition ParseNamespaceQuota (obj : Unstructured) : result NamespaceQuotaSpec :=
  let '(spec, found, err) := NestedMap (Object_spec obj) in
  match spec with
  | Some spec =>
      if (err || negb found)%bool then Err (Errorf "spec not found in NamespaceQuota")
      else
        let '(namespace, _, _) := NestedString (spec_namespace spec) in
        if String.eqb namespace "" then Err (Errorf "namespace field is required")
        else
          let '(cpu, _, _) := NestedString (spec_cpu spec) in
          let '(memory, _, _) := NestedString (spec_memory spec) in
          let enabled :=
            let '(enabledVal, found, _) := NestedBool (spec_enabled spec) in
            if found then enabledVal else true in
          Ok {| Namespace := namespace; CPU := cpu; Memory := memory;
                Enabled := enabled |}
  | None => Err (Errorf "spec not found in NamespaceQuota")
  end.

(** ** metrics.go *)

Record MetricsServer := {
  ms_cgroupManager : CgroupManager;
  ms_port : string
}.

(** [ReadCgroupStats]: the counters read from the slice; never an error. *)
Definition ReadCgroupStats (m : MetricsServer) (namespace : string)
  : M (CgroupStats * option error) :=
  let* w := get in
  ret (counters (env w) (GetSlicePath (ms_cgroupManager m) namespace), None).

Definition UpdateMetrics (namespace : string) (stats : CgroupStats)
    (cpuLimitUsec memoryLimitBytes : Z) : M unit :=
  modify (fun w =>
    set_gauges
      (<[namespace :=
           {| g_cpuUsage := of_Z (CPUUsageUsec stats);
              g_cpuLimit := of_Z cpuLimitUsec;
              g_cpuThrottledPeriods := of_Z (CPUThrottled stats);
              g_memoryUsage := of_Z (MemoryUsageBytes stats);
              g_memoryLimit := of_Z memoryLimitBytes;
              g_oomKills := of_Z (OOMKills stats) |}]> (gauges w)) w).

(** ** controller.go *)

Definition maxRetries : nat := 5.

Definition reasonCgroupConfigured : string := "CgroupConfigured".
Definition reasonCgroupFailed : string := "CgroupFailed".
Definition reasonCgroupRemoved : string := "CgroupRemoved".
Definition reasonQuotaDisabled : string := "QuotaDisabled".

Record Controller := {
  cgroupManager : CgroupManager;
  metricsServer : option MetricsServer
}.

Definition updateStatus (name : string) (ready : bool) (message : string) : M unit :=
  let* err := UpdateStatus name ready message in
  match err with
  | Some _ => log WarnLevel "Failed to update status"
  | None => log DebugLevel "Status updated"
  end.

Definition updateMetrics (c : Controller) (spec : NamespaceQuotaSpec) : M unit :=
  match metricsServer c with
  | None => ret tt
  | Some ms =>
      let* r := ReadCgroupStats ms (Namespace spec) in
      match r with
      | (_, Some _) => log DebugLevel "Failed to read cgroup stats for metrics"
      | (stats, None) =>
          let cpuLimitUsec :=
            if String.eqb (CPU spec) "" then 0
            else match ParseCPU (CPU spec) with Ok q => q | Err _ => 0 end in
          let memoryLimitBytes :=
            if String.eqb (Memory spec) "" then 0
            else match ParseMemory (Memory spec) with Ok b => b | Err _ => 0 end in
          UpdateMetrics (Namespace spec) stats cpuLimitUsec memoryLimitBytes
      end
  end.

Definition handleQuota (c : Controller) (obj : Unstructured)
    (spec : NamespaceQuotaSpec) : M (option error) :=
  let name := GetName obj in
  if negb (Enabled spec) then
    let* _ := log InfoLevel "Quota disabled, removing cgroup if exists" in
    let* err := RemoveSlice (cgroupManager c) (Namespace spec) in
    let* _ := match err with
              | Some _ => log WarnLevel "Failed to remove cgroup slice"
              | None => ret tt
              end in
    let* _ := updateStatus name true "Quota disabled" in
    let* _ := EmitEventForObject obj EventTypeNormal reasonQuotaDisabled
                "Quota disabled, cgroup removed" in
    ret None
  else
    let* _ := log InfoLevel "Ensuring cgroup slice" in
    let* err := EnsureSlice (cgroupManager c) (Namespace spec) (CPU spec) (Memory spec) in
    match err with
    | Some e =>
        let* _ := log ErrorLevel "Failed to ensure cgroup slice" in
        let* _ := updateStatus name false ("Cgroup error: " ++ error_text e) in
        let* _ := EmitEventForObject obj EventTypeWarning reasonCgroupFailed
                    ("Failed to configure cgroup: " ++ error_text e) in
        ret (Some e)
    | None =>
        let* _ := updateStatus name true "Cgroup configured successfully" in
        let* _ := EmitEventForObject obj EventTypeNormal reasonCgroupConfigured
                    ("Cgroup configured with CPU=" ++ CPU spec ++ ", Memory=" ++ Memory spec) in
        let* _ := updateMetrics c spec in
        ret None
    end.

Definition handleDelete (c : Controller) (name : string) : M (option error) :=
  let* _ := log InfoLevel "Attempting to remove cgroup for deleted quota" in
  let* err := RemoveSlice (cgroupManager c) name in
  let* _ := match err with
            | Some _ => log WarnLevel "Failed to remove cgroup slice on delete"
            | None =>
                EmitEvent name EventTypeNormal reasonCgroupRemoved
                  ("Cgroup removed for deleted NamespaceQuota " ++ name)
            end in
  ret None.

Definition reconcile (c : Controller) (key : string) : M (option error) :=
  let* _ := log DebugLevel "Reconciling NamespaceQuota" in
  let* w := get in
  match store (env w) key with
  | LookupError => ret (Some (ErrorfW "failed to get object from cache" StoreError))
  | NotFound =>
      let* _ := log InfoLevel "NamespaceQuota deleted, removing cgroup" in
      handleDelete c key
  | Found ItemOther => ret (Some (Errorf "unexpected object type"))
  | Found (ItemUnstructured u) =>
      match ParseNamespaceQuota u with
      | Err err =>
          let* _ := log ErrorLevel "Failed to parse NamespaceQuota" in
          let* _ := updateStatus (GetName u) false ("Parse error: " ++ error_text err) in
          let* _ := EmitEventForObject u EventTypeWarning reasonCgroupFailed
                      ("Failed to parse NamespaceQuota: " ++ error_text err) in
          ret (Some err)
      | Ok spec => handleQuota c u spec
      end
  end.

Definition on_workqueue (f : Workqueue.WorkQueue -> Workqueue.WorkQueue) : M unit :=
  modify (fun w => set_workqueue (f (workqueue w)) w).

(** [processNextItem]: [None] while [Get] blocks on an empty queue, else
    the boolean returned.  The deferred [Done] runs last. *)
Definition processNextItem (c : Controller) : M (option bool) :=
  let* w := get in
  match Workqueue.Get (workqueue w) with
  | Workqueue.GetBlocks => ret None
  | Workqueue.GetShutdown => ret (Some false)
  | Workqueue.GetItem key q =>
      let* _ := modify (set_workqueue q) in
      let* err := reconcile c key in
      match err with
      | None =>
          let* _ := on_workqueue (Workqueue.Forget key) in
          let* _ := on_workqueue (Workqueue.Done key) in
          ret (Some true)
      | Some _ =>
          let* w := get in
          if Nat.ltb (Workqueue.NumRequeues key (workqueue w)) maxRetries then
            let* _ := log WarnLevel "Error processing item, retrying" in
            let* _ := on_workqueue (Workqueue.AddRateLimited key) in
            let* _ := on_workqueue (Workqueue.Done key) in
            ret (Some true)
          else
            let* _ := log ErrorLevel "Max retries exceeded, dropping item" in
            let* _ := on_workqueue (Workqueue.Forget key) in
            let* _ := on_workqueue (Workqueue.Done key) in
            ret (Some true)
      end
  end.

End Agent.

Import Agent.

(* ===================================================================== *)
(** * Package [plugin]: the container routing plugin                      *)
(* ===================================================================== *)

Module Plugin.

(** ** cache.go *)

(** The cache of namespaces with an active quota; of [QuotaCache] only
    the map is modelled (the lock serialises the accesses, and the log
    has no part in what the cache answers). *)
Record QuotaCache := {
  quotas : gmap string bool
}.

(** [NewQuotaCache] starts from an empty map. *)
Definition NewQuotaCache : QuotaCache := {| quotas := ∅ |}.

(** [qc.quotas[namespace]]: a missing key reads as [false]. *)
Definition HasQuota (qc : QuotaCache) (namespace : string) : bool :=
  default false (quotas qc !! namespace).

Definition extractNamespace (u : Unstructured) : string :=
  let '(spec, found, err) := NestedMap (Object_spec u) in
  match spec with
  | Some spec =>
      if (err || negb found)%bool then ""
      else
        let '(ns, found, err) := NestedString (spec_namespace spec) in
        if (err || negb found)%bool then "" else ns
  | None => ""
  end.

Definition isEnabled (u : Unstructured) : bool :=
  let '(spec, found, err) := NestedMap (Object_spec u) in
  match spec with
  | Some spec =>
      if (err || negb found)%bool then true
      else
        let '(enabled, found, err) := NestedBool (spec_enabled spec) in
        if (err || negb found)%bool then true else enabled
  | None => true
  end.

(** What an event handler receives as [interface{}]: a declaration, the
    tombstone [cache.DeletedFinalStateUnknown] of a missed delete (whose
    [Obj] is a declaration or not), or anything else. *)
Inductive Obj :=
| IsUnstructured (u : Unstructured)
| IsTombstone (inner : option Unstructured)
| IsOther.

Definition initialSync (items : list Unstructured) (qc : QuotaCache) : QuotaCache :=
  fold_left
    (fun qc item =>
       let ns := extractNamespace item in
       if (negb (String.eqb ns "") && isEnabled item)%bool
       then {| quotas := <[ns := true]> (quotas qc) |}
       else qc)
    items qc.

Definition onAdd (obj : Obj) (qc : QuotaCache) : QuotaCache :=
  match obj with
  | IsUnstructured u =>
      let ns := extractNamespace u in
      if (String.eqb ns "" || negb (isEnabled u))%bool then qc
      else {| quotas := <[ns := true]> (quotas qc) |}
  | _ => qc
  end.

Definition onUpdate (oldObj newObj : Obj) (qc : QuotaCache) : QuotaCache :=
  match newObj with
  | IsUnstructured u =>
      let ns := extractNamespace u in
      if String.eqb ns "" then qc
      else
        let enabled := isEnabled u in
        if enabled then {| quotas := <[ns := true]> (quotas qc) |}
        else {| quotas := delete ns (quotas qc) |}
  | _ => qc
  end.

Definition onDelete (obj : Obj) (qc : QuotaCache) : QuotaCache :=
  let u :=
    match obj with
    | IsUnstructured u => Some u
    | IsTombstone inner => inner
    | IsOther => None
    end in
  match u with
  | Some u =>
      let ns := extractNamespace u in
      if String.eqb ns "" then qc
      else {| quotas := delete ns (quotas qc) |}
  | None => qc
  end.

(** The notifications of the informer, and the cache after a sequence of
    them. *)
Inductive Notification :=
| Added (obj : Obj)
| Updated (oldObj newObj : Obj)
| Deleted (obj : Obj).

Definition notify (qc : QuotaCache) (n : Notification) : QuotaCache :=
  match n with
  | Added obj => onAdd obj qc
  | Updated oldObj newObj => onUpdate oldObj newObj qc
  | Deleted obj => onDelete obj qc
  end.

Definition observe (ns : list Notification) (qc : QuotaCache) : QuotaCache :=
  fold_left notify ns qc.

(** ** plugin.go *)

Definition DefaultPluginName : string := "namespace-isolator".
Definition DefaultPluginIdx : string := "10".

Record Plugin := {
  cache : QuotaCache;
  name : string;
  idx : string
}.

Record Config := {
  Name : string;
  Idx : string;
  Kubeconfig : string
}.

(** [New], without the connection to the runtime. *)
Definition New (cfg : Config) : Plugin :=
  {| cache := NewQuotaCache;
     name := if String.eqb (Name cfg) "" then DefaultPluginName else Name cfg;
     idx := if String.eqb (Idx cfg) "" then DefaultPluginIdx else Idx cfg |}.

Record PodSandbox := {
  pod_Name : string;
  pod_Namespace : string
}.

Record Container := {
  container_Id : string;
  container_Name : string
}.

(** The getters of the runtime's API accept a nil pointer. *)
Definition PodSandbox_GetNamespace (pod : option PodSandbox) : string :=
  match pod with Some p => pod_Namespace p | None => "" end.

Definition Container_GetId (container : option Container) : string :=
  match container with Some c => container_Id c | None => "" end.

(** Of [api.ContainerAdjustment] the plugin sets one field. *)
Record ContainerAdjustment := {
  Linux_CgroupsPath : option string
}.

Definition SetLinuxCgroupsPath (value : string) (a : ContainerAdjustment)
  : ContainerAdjustment :=
  {| Linux_CgroupsPath := Some value |}.

Inductive ContainerUpdate := .

(** [CreateContainer]: the adjustment (or nil), the updates (nil) and the
    error. *)
Definition CreateContainer (p : Plugin) (pod : option PodSandbox)
    (container : option Container)
  : option ContainerAdjustment * list ContainerUpdate * option error :=
  let ns := PodSandbox_GetNamespace pod in
  if negb (HasQuota (cache p) ns) then (None, nil, None)
  else
    let sliceName := "brasa-" ++ ns ++ ".slice" in
    let cgroupPath := sliceName ++ ":cri-containerd:" ++ Container_GetId container in
    let adjust := {| Linux_CgroupsPath := None |} in
    let adjust := SetLinuxCgroupsPath cgroupPath adjust in
    (Some adjust, nil, None).

End Plugin.

(* ===================================================================== *)
(** * Sample states                                                        *)
(* ===================================================================== *)

Module Samples.

(** An environment in which nothing fails and the store is empty. *)
Definition quiet : Environment :=
  {| store := fun _ => NotFound;
     inaccessible := fun _ => false;
     busy := fun _ => false;
     mkdir_fails := fun _ => false;
     write_fails := fun _ => false;
     command_fails := fun _ => false;
     api_get_fails := fun _ => false;
     api_update_fails := fun _ => false;
     now := "2026-01-01T00:00:00Z";
     counters := fun _ => {| CPUUsageUsec := 0; CPUThrottled := 0;
                             MemoryUsageBytes := 0; OOMKills := 0 |} |}.

Definition world_of (e : Environment) (d : gset string) (q : Workqueue.WorkQueue)
  : World :=
  {| env := e; dirs := d; files := ∅; commands := nil; statuses := ∅;
     events := nil; logs := nil; gauges := ∅; workqueue := q |}.

Definition manager : CgroupManager :=
  {| cgroupRoot := "/sys/fs/cgroup"; slicePrefix := "brasa.slice" |}.

Definition controller : Controller :=
  {| cgroupManager := manager; metricsServer := None |}.

Definition tenant_a_slice : string :=
  "/sys/fs/cgroup/brasa.slice/brasa-tenant-a.slice".

End Samples.

(* ===================================================================== *)
(** * Reading the cgroup files: counters and current limits               *)
(* ===================================================================== *)

(** ** [strings.Fields] and [strings.Split] *)

Module Words.

(** The bytes before the next space rune, and the text from that rune
    on.  A space rune starts at a byte exactly when one of the encodings
    of [space_runes] is a prefix of the text there: no encoding starts
    with a continuation byte, so none is found inside another rune. *)
Fixpoint word (s : string) : string * string :=
  match s with
  | EmptyString => (EmptyString, EmptyString)
  | String c s' =>
      match strip_first space_runes s with
      | Some _ => (EmptyString, s)
      | None => let '(w, rest) := word s' in (String c w, rest)
      end
  end.

(** [strings.Fields]: the maximal runs of runes that are not spaces; every
    round takes a word of at least one byte, the fuel is the length of the
    text and one. *)
Fixpoint fields_fuel (fuel : nat) (s : string) : list string :=
  match fuel with
  | O => nil
  | S fuel' =>
      match TrimLeftSpace s with
      | EmptyString => nil
      | t => let '(w, rest) := word t in (w :: fields_fuel fuel' rest)%list
      end
  end.

Definition Fields (s : string) : list string :=
  fields_fuel (S (String.length s)) s.

(** [strings.Split(s, sep)] for a separator of one byte: the pieces
    between the separators, one more than there are separators. *)
Fixpoint Split (s : string) (sep : ascii) : list string :=
  match s with
  | EmptyString => (EmptyString :: nil)%list
  | String c s' =>
      if Ascii.eqb c sep then (EmptyString :: Split s' sep)%list
      else
        match Split s' sep with
        | (piece :: pieces)%list => (String c piece :: pieces)%list
        | nil => (String c EmptyString :: nil)%list
        end
  end.

Definition newline : ascii := byte 10.

End Words.

(** ** [bufio.Scanner] with the default split function [ScanLines] *)

Module Bufio.

Definition MaxScanTokenSize : Z := 64 * 1024.

Definition ErrTooLong : error := Errorf "bufio.Scanner: token too long".

(** [dropCR]: one carriage return at the end of the line is dropped. *)
Fixpoint dropCR (data : string) : string :=
  match data with
  | EmptyString => EmptyString
  | String c EmptyString =>
      if Ascii.eqb c (byte 13) then EmptyString else data
  | String c rest => String c (dropCR rest)
  end.

(** The lines of the data: each ends at its newline, the last one may end
    with the data; after the last newline, no data is no line. *)
Fixpoint lines (data : string) : list string :=
  match data with
  | EmptyString => nil
  | String c rest =>
      if Ascii.eqb c Words.newline then (EmptyString :: lines rest)%list
      else
        match lines rest with
        | (line :: more)%list => (String c line :: more)%list
        | nil => (String c EmptyString :: nil)%list
        end
  end.

(** The tokens [Scan] hands out, in order, and the error [Err] reports
    once [Scan] has returned false: a line of [MaxScanTokenSize] bytes or
    more fills the buffer before its end is seen, and stops the scanner
    with [ErrTooLong]. *)
Fixpoint tokens (ls : list string) : list string * option error :=
  match ls with
  | nil => (nil, None)
  | (line :: more)%list =>
      if MaxScanTokenSize <=? Z.of_nat (String.length line)
      then (nil, Some ErrTooLong)
      else let '(ts, err) := tokens more in ((dropCR line :: ts)%list, err)
  end.

Definition Scan (data : string) : list string * option error :=
  tokens (lines data).

End Bufio.

(** ** [strconv.ParseInt(s, 10, 64)] *)

Module ParseInts.

Definition maxUint64 : Z := 2 ^ 64 - 1.

(** The smallest number whose product by ten exceeds [maxUint64]. *)
Definition cutoff : Z := maxUint64 / 10 + 1.

(** The loop of [ParseUint] in base ten; [n] is a [uint64], the sum wraps
    around.  A range error ends the loop where it is met, before the bytes
    that follow are looked at. *)
Fixpoint parse_digits (s : string) (n : Z) : Z * option NumError :=
  match s with
  | EmptyString => (n, None)
  | String c s' =>
      if is_digit c then
        let d := digit_val c in
        if cutoff <=? n then (maxUint64, Some ErrRange)
        else
          let n := n * 10 in
          let n1 := (n + d) mod 2 ^ 64 in
          if ((n1 <? n) || (maxUint64 <? n1))%bool then (maxUint64, Some ErrRange)
          else parse_digits s' n1
      else (0, Some ErrSyntax)
  end.

Definition ParseUint (s : string) : Z * option NumError :=
  match s with
  | EmptyString => (0, Some ErrSyntax)
  | _ => parse_digits s 0
  end.

(** [ParseInt]: the value and the error.  On a range error the value is
    the nearest bound of [int64], on a syntax error it is 0. *)
Definition ParseInt (s : string) : Z * option NumError :=
  match s with
  | EmptyString => (0, Some ErrSyntax)
  | String c rest =>
      let neg := Ascii.eqb c "-" in
      let s1 := if (Ascii.eqb c "+" || neg)%bool then rest else s in
      let '(un, err) := ParseUint s1 in
      match err with
      | Some ErrSyntax => (0, Some ErrSyntax)
      | _ =>
          let cutoff := 2 ^ 63 in
          if (negb neg && (cutoff <=? un))%bool then (cutoff - 1, Some ErrRange)
          else if (neg && (cutoff <? un))%bool then (- cutoff, Some ErrRange)
          else (if neg then - un else un, None)
      end
  end.

End ParseInts.

(** ** cgroup.go and metrics.go: the readers *)

Module Readers.

Import Words Bufio ParseInts.

(** What the kernel shows in the files of the cgroup file system: the
    content read at a path, if the file is there.  A file the controller
    wrote reads as written. *)
Definition Kernel : Type := string -> option string.

(** [os.ReadFile], and [os.Open] followed by reads to the end of the
    file. *)
Definition os_ReadFile (k : Kernel) (path : string) : M (result string) :=
  let* w := get in
  if inaccessible (env w) path then ret (Err (PathError EOTHER))
  else
    match files w !! path with
    | Some data => ret (Ok data)
    | None =>
        match k path with
        | Some data => ret (Ok data)
        | None => ret (Err (PathError ENOENT))
        end
    end.

Definition no_stats : CgroupStats :=
  {| CPUUsageUsec := 0; CPUThrottled := 0; MemoryUsageBytes := 0; OOMKills := 0 |}.

(** The body of the loops over the lines of [cpu.stat] (the same in
    [readCPUStat] and in [ReadCgroupStats]): the two counters so far and
    the line. *)
Definition cpu_stat_line (acc : Z * Z) (text : string) : Z * Z :=
  match Fields text with
  | (key :: value :: nil)%list =>
      let val := fst (ParseInt value) in
      if String.eqb key "usage_usec" then (val, snd acc)
      else if String.eqb key "nr_throttled" then (fst acc, val)
      else acc
  | _ => acc
  end.

(** The loops over the lines of [memory.events], which end at the first
    line of [oom_kill]: the value it gives. *)
Fixpoint oom_kill_line (ls : list string) : option Z :=
  match ls with
  | nil => None
  | (text :: more)%list =>
      match Fields text with
      | (key :: value :: nil)%list =>
          if String.eqb key "oom_kill" then Some (fst (ParseInt value))
          else oom_kill_line more
      | _ => oom_kill_line more
      end
  end.

Definition readCPUStat (k : Kernel) (slicePath : string) : M (Z * Z * option error) :=
  let cpuStatPath := filepath_Join (slicePath :: "cpu.stat" :: nil) in
  let* file := os_ReadFile k cpuStatPath in
  match file with
  | Err e => ret (0, 0, Some (ErrorfW "failed to open cpu.stat" e))
  | Ok content =>
      let '(ts, err) := Scan content in
      let '(usageUsec, throttled) := fold_left cpu_stat_line ts (0, 0) in
      match err with
      | Some e => ret (0, 0, Some (ErrorfW "failed to read cpu.stat" e))
      | None => ret (usageUsec, throttled, None)
      end
  end.

Definition readMemoryCurrent (k : Kernel) (slicePath : string) : M (Z * option error) :=
  let memoryCurrentPath := filepath_Join (slicePath :: "memory.current" :: nil) in
  let* file := os_ReadFile k memoryCurrentPath in
  match file with
  | Err e => ret (0, Some (ErrorfW "failed to read memory.current" e))
  | Ok content =>
      let memStr := TrimSpace content in
      match ParseInt memStr with
      | (_, Some e) => ret (0, Some (ErrorfW "failed to parse memory.current" (NumErr e)))
      | (memBytes, None) => ret (memBytes, None)
      end
  end.

Definition readMemoryEvents (k : Kernel) (slicePath : string) : M (Z * option error) :=
  let memoryEventsPath := filepath_Join (slicePath :: "memory.events" :: nil) in
  let* file := os_ReadFile k memoryEventsPath in
  match file with
  | Err e => ret (0, Some (ErrorfW "failed to open memory.events" e))
  | Ok content =>
      let '(ts, err) := Scan content in
      match oom_kill_line ts with
      | Some oomKills => ret (oomKills, None)
      | None =>
          match err with
          | Some e => ret (0, Some (ErrorfW "failed to read memory.events" e))
          | None => ret (0, None)
          end
      end
  end.

Definition GetCgroupStats (k : Kernel) (m : CgroupManager) (namespace : string)
  : M (result CgroupStats) :=
  let slicePath := GetSlicePath m namespace in
  let* err := os_Stat slicePath in
  if os_IsNotExist err then
    ret (Err (ErrorfW ("slice does not exist for " ++ namespace) (PathError ENOENT)))
  else
    let* cpu := readCPUStat k slicePath in
    let '(cpuUsage, cpuThrottled, err) := cpu in
    let* _ := match err with
              | Some _ => log DebugLevel "Failed to read cpu.stat"
              | None => ret tt
              end in
    let* mem := readMemoryCurrent k slicePath in
    let '(memUsage, err) := mem in
    let* _ := match err with
              | Some _ => log DebugLevel "Failed to read memory.current"
              | None => ret tt
              end in
    let* oom := readMemoryEvents k slicePath in
    let '(oomKills, err) := oom in
    let* _ := match err with
              | Some _ => log DebugLevel "Failed to read memory.events"
              | None => ret tt
              end in
    ret (Ok {| CPUUsageUsec := cpuUsage; CPUThrottled := cpuThrottled;
               MemoryUsageBytes := memUsage; OOMKills := oomKills |}).

Definition SliceExists (m : CgroupManager) (namespace : string) : M bool :=
  let slicePath := GetSlicePath m namespace in
  let* err := os_Stat slicePath in
  ret (match err with None => true | Some _ => false end).

Definition GetCurrentLimits (k : Kernel) (m : CgroupManager) (namespace : string)
  : M (Z * Z * option error) :=
  let slicePath := GetSlicePath m namespace in
  let cpuMaxPath := filepath_Join (slicePath :: "cpu.max" :: nil) in
  let* cpuContent := os_ReadFile k cpuMaxPath in
  let cpuQuota :=
    match cpuContent with
    | Ok content =>
        match Fields content with
        | (part :: _)%list =>
            if negb (String.eqb part "max") then fst (ParseInt part) else 0
        | nil => 0
        end
    | Err _ => 0
    end in
  let memoryMaxPath := filepath_Join (slicePath :: "memory.max" :: nil) in
  let* memoryContent := os_ReadFile k memoryMaxPath in
  let memoryBytes :=
    match memoryContent with
    | Ok content =>
        let memStr := TrimSpace content in
        if negb (String.eqb memStr "max") then fst (ParseInt memStr) else 0
    | Err _ => 0
    end in
  ret (cpuQuota, memoryBytes, None).

(** metrics.go: [ReadCgroupStats] from the files.  (The controller's
    model takes the counters it returns from the environment.) *)
Definition ReadCgroupStats (k : Kernel) (m : MetricsServer) (namespace : string)
  : M (CgroupStats * option error) :=
  let slicePath := GetSlicePath (ms_cgroupManager m) namespace in
  let cpuStatPath := filepath_Join (slicePath :: "cpu.stat" :: nil) in
  let* file := os_ReadFile k cpuStatPath in
  let '(usage, throttled) :=
    match file with
    | Ok content => fold_left cpu_stat_line (Split content newline) (0, 0)
    | Err _ => (0, 0)
    end in
  let memoryCurrentPath := filepath_Join (slicePath :: "memory.current" :: nil) in
  let* file := os_ReadFile k memoryCurrentPath in
  let memoryUsage :=
    match file with
    | Ok content => fst (ParseInt (TrimSpace content))
    | Err _ => 0
    end in
  let memoryEventsPath := filepath_Join (slicePath :: "memory.events" :: nil) in
  let* file := os_ReadFile k memoryEventsPath in
  let oomKills :=
    match file with
    | Ok content =>
        match oom_kill_line (Split content newline) with
        | Some v => v
        | None => 0
        end
    | Err _ => 0
    end in
  ret ({| CPUUsageUsec := usage; CPUThrottled := throttled;
          MemoryUsageBytes := memoryUsage; OOMKills := oomKills |}, None).

End Readers.

(** ** controller.go: the event handlers of the informer *)

Module Handlers.

(** What the informer hands to a handler: a declaration, the tombstone of
    a delete it missed (with the key it had), or an object without
    metadata. *)
Inductive Delivered :=
| Declaration (u : Unstructured)
| Tombstone (key : string) (obj : option Unstructured)
| Foreign.

(** [cache.MetaNamespaceKeyFunc]: [namespace/name], or the name alone for
    an object outside any namespace. *)
Definition MetaNamespaceKeyFunc (obj : Delivered) : result string :=
  match obj with
  | Declaration u =>
      if String.eqb (GetNamespace u) "" then Ok (GetName u)
      else Ok (GetNamespace u ++ "/" ++ GetName u)
  | _ => Err (Errorf "object has no meta")
  end.

Definition DeletionHandlingMetaNamespaceKeyFunc (obj : Delivered) : result string :=
  match obj with
  | Tombstone key _ => Ok key
  | _ => MetaNamespaceKeyFunc obj
  end.

Definition onAdd (obj : Delivered) : M unit :=
  match MetaNamespaceKeyFunc obj with
  | Err _ => log ErrorLevel "Failed to get key for add event"
  | Ok key =>
      let* _ := log DebugLevel "Add event received" in
      on_workqueue (Workqueue.Add key)
  end.

Definition onUpdate (oldObj newObj : Delivered) : M unit :=
  match MetaNamespaceKeyFunc newObj with
  | Err _ => log ErrorLevel "Failed to get key for update event"
  | Ok key =>
      let* _ := log DebugLevel "Update event received" in
      on_workqueue (Workqueue.Add key)
  end.

Definition onDelete (obj : Delivered) : M unit :=
  match DeletionHandlingMetaNamespaceKeyFunc obj with
  | Err _ => log ErrorLevel "Failed to get key for delete event"
  | Ok key =>
      let* _ := log DebugLevel "Delete event received" in
      on_workqueue (Workqueue.Add key)
  end.

Inductive Notification :=
| Added (obj : Delivered)
| Updated (oldObj newObj : Delivered)
| Deleted (obj : Delivered).

Definition notify (n : Notification) : M unit :=
  match n with
  | Added obj => onAdd obj
  | Updated oldObj newObj => onUpdate oldObj newObj
  | Deleted obj => onDelete obj
  end.

Fixpoint deliver (ns : list Notification) : M unit :=
  match ns with
  | nil => ret tt
  | (n :: more)%list => let* _ := notify n in deliver more
  end.

End Handlers.

(** ** cache.go: the namespaces of the cache *)

Module Listing.

(** [GetNamespaces]: the keys of the map.  Go ranges over a map in an
    order it does not specify; the order here is that of [map_to_list],
    and only membership is meaningful. *)
Definition GetNamespaces (qc : Plugin.QuotaCache) : list string :=
  (map_to_list (Plugin.quotas qc)).*1.

End Listing.

(* ===================================================================== *)
(** * Properties                                                           *)
(* ===================================================================== *)

(** ** Rendering of memory limits *)

Section FormatMemory.

(** The units of [formatMemoryForSystemd] with their suffixes. *)
Definition memory_units : list (Z * string) :=
  ((GiB, "G") :: (MiB, "M") :: (KiB, "K") :: nil)%list.

(** [u] is a whole unit of [b]: it is at most [b] and divides it. *)
Definition whole_unit (u b : Z) : Prop := u <= b /\ (u | b).

Lemma whole_unit_test u b :
  0 < u -> ((u <=? b) && (Z.rem b u =? 0) = true <-> whole_unit u b).
Proof.
  intros Hu. unfold whole_unit.
  rewrite andb_true_iff, Z.leb_le, Z.eqb_eq. split.
  - intros [Hle Hr]. split; [exact Hle|].
    rewrite Z.rem_mod_nonneg in Hr by lia.
    apply Z.mod_divide; [lia | exact Hr].
  - intros [Hle Hd]. split; [exact Hle|].
    rewrite Z.rem_mod_nonneg by lia.
    apply Z.mod_divide; [lia | exact Hd].
Qed.

Lemma whole_unit_quot u b : 0 < u -> whole_unit u b -> Z.quot b u = b / u.
Proof. intros Hu [Hle _]. apply Z.quot_div_nonneg; lia. Qed.

Lemma GiB_whole_MiB b : whole_unit GiB b -> whole_unit MiB b.
Proof.
  intros [Hle Hd]. split; [unfold GiB, MiB in *; lia|].
  apply Z.divide_trans with GiB; [exists 1024; reflexivity | exact Hd].
Qed.

Lemma MiB_whole_KiB b : whole_unit MiB b -> whole_unit KiB b.
Proof.
  intros [Hle Hd]. split; [unfold MiB, KiB in *; lia|].
  apply Z.divide_trans with MiB; [exists 1024; reflexivity | exact Hd].
Qed.

(** The code as a cascade over the units. *)
Lemma formatMemoryForSystemd_cases b :
  (whole_unit GiB b /\ formatMemoryForSystemd b = itoa (b / GiB) ++ "G")
  \/ (~ whole_unit GiB b /\ whole_unit MiB b
      /\ formatMemoryForSystemd b = itoa (b / MiB) ++ "M")
  \/ (~ whole_unit MiB b /\ whole_unit KiB b
      /\ formatMemoryForSystemd b = itoa (b / KiB) ++ "K")
  \/ (~ whole_unit KiB b /\ formatMemoryForSystemd b = itoa b).
Proof.
  unfold formatMemoryForSystemd.
  destruct ((GiB <=? b) && (Z.rem b GiB =? 0)) eqn:HG.
  { apply whole_unit_test in HG; [|reflexivity]. left. split; [exact HG|].
    rewrite whole_unit_quot; [reflexivity | reflexivity | exact HG]. }
  assert (HnG : ~ whole_unit GiB b).
  { intros H. apply whole_unit_test in H; [congruence | reflexivity]. }
  destruct ((MiB <=? b) && (Z.rem b MiB =? 0)) eqn:HM.
  { apply whole_unit_test in HM; [|reflexivity]. right. left.
    split; [exact HnG|]. split; [exact HM|].
    rewrite whole_unit_quot; [reflexivity | reflexivity | exact HM]. }
  assert (HnM : ~ whole_unit MiB b).
  { intros H. apply whole_unit_test in H; [congruence | reflexivity]. }
  destruct ((KiB <=? b) && (Z.rem b KiB =? 0)) eqn:HK.
  { apply whole_unit_test in HK; [|reflexivity]. right. right. left.
    split; [exact HnM|]. split; [exact HK|].
    rewrite whole_unit_quot; [reflexivity | reflexivity | exact HK]. }
  right. right. right. split; [|reflexivity].
  intros H. apply whole_unit_test in H; [congruence | reflexivity].
Qed.

End FormatMemory.

(** C8. [formatMemoryForSystemd] renders a byte count [b] with the largest
    suffix among G, M and K whose unit is at most [b] and divides [b]
    exactly, and as decimal bytes when there is none; so 8 GiB is "8G" and
    1536 MiB is "1536M". *)
Theorem C8_formatMemoryForSystemd_largest_whole_suffix :
  forall b : Z,
    (forall u sfx,
        In (u, sfx) memory_units ->
        whole_unit u b ->
        (forall u' sfx', In (u', sfx') memory_units -> whole_unit u' b -> u' <= u) ->
        formatMemoryForSystemd b = itoa (b / u) ++ sfx)
    /\ ((forall u sfx, In (u, sfx) memory_units -> ~ whole_unit u b) ->
        formatMemoryForSystemd b = itoa b)
    /\ formatMemoryForSystemd (8 * 1024 ^ 3) = "8G"
    /\ formatMemoryForSystemd (1536 * 1024 ^ 2) = "1536M"
    /\ formatMemoryForSystemd (1536 * 1024 ^ 2) <> "1.5G".
Proof.
  intros b. split; [|split; [|split; [|split]]].
  - intros u sfx Hin Hw Hmax.
    assert (HG : whole_unit GiB b -> u = GiB /\ sfx = "G").
    { intros HGw. specialize (Hmax GiB "G" (or_introl eq_refl) HGw).
      simpl in Hin. destruct Hin as [E|[E|[E|[]]]]; inversion E; subst;
        try (split; reflexivity); unfold GiB, MiB, KiB in Hmax; lia. }
    assert (HM : whole_unit MiB b -> u = GiB \/ (u = MiB /\ sfx = "M")).
    { intros HMw. specialize (Hmax MiB "M" (or_intror (or_introl eq_refl)) HMw).
      simpl in Hin. destruct Hin as [E|[E|[E|[]]]]; inversion E; subst;
        [left; reflexivity | right; split; reflexivity |
         unfold MiB, KiB in Hmax; lia]. }
    destruct (formatMemoryForSystemd_cases b)
      as [[Hw' ->]|[[Hn [Hw' ->]]|[[Hn [Hw' ->]]|[Hn ->]]]].
    + destruct (HG Hw') as [-> ->]. reflexivity.
    + destruct (HM Hw') as [->|[-> ->]]; [contradiction | reflexivity].
    + simpl in Hin. destruct Hin as [E|[E|[E|[]]]]; inversion E; subst.
      * exfalso. apply Hn. apply GiB_whole_MiB. exact Hw.
      * contradiction.
      * reflexivity.
    + exfalso. apply Hn. simpl in Hin.
      destruct Hin as [E|[E|[E|[]]]]; inversion E; subst.
      * apply MiB_whole_KiB, GiB_whole_MiB. exact Hw.
      * apply MiB_whole_KiB. exact Hw.
      * exact Hw.
  - intros Hnone.
    destruct (formatMemoryForSystemd_cases b)
      as [[Hw' _]|[[_ [Hw' _]]|[[_ [Hw' _]]|[_ ->]]]]; [| | |reflexivity];
      exfalso.
    + apply (Hnone GiB "G"); [left; reflexivity | exact Hw'].
    + apply (Hnone MiB "M"); [right; left; reflexivity | exact Hw'].
    + apply (Hnone KiB "K"); [right; right; left; reflexivity | exact Hw'].
  - reflexivity.
  - reflexivity.
  - vm_compute. discriminate.
Qed.

(** An instance: 3 MiB has M as its largest whole unit and is "3M". *)
Lemma C8_witness :
  formatMemoryForSystemd (3 * 1024 ^ 2) = itoa (3 * 1024 ^ 2 / MiB) ++ "M".
Proof.
  apply (proj1 (C8_formatMemoryForSystemd_largest_whole_suffix (3 * 1024 ^ 2))).
  - right; left; reflexivity.
  - split; [vm_compute; discriminate | exists 3; reflexivity].
  - intros u' sfx' Hin [Hle Hd]. simpl in Hin.
    destruct Hin as [E|[E|[E|[]]]]; inversion E; subst.
    + vm_compute in Hle. exfalso. apply Hle. reflexivity.
    + apply Z.le_refl.
    + vm_compute. discriminate.
Defined.

(** ** Container routing *)






(** ** Removal of slices *)

Section RemoveSlice.

Variable m : CgroupManager.
Variable namespace : string.

Definition removing : LogEntry :=
  {| log_level := DebugLevel; log_message := "Removing cgroup slice" |}.

(** [RemoveSlice] by cases on the state of the slice directory. *)
Lemma RemoveSlice_run (w : World) :
  let path := GetSlicePath m namespace in
  let w1 := set_logs (logs w ++ removing :: nil) w in
  RemoveSlice m namespace w =
    if inaccessible (env w) path then
      (Some (ErrorfW ("failed to remove slice for " ++ namespace) (PathError EOTHER)), w1)
    else if decide (path ∈ dirs w) then
      if busy (env w) path then
        (Some (ErrorfW ("failed to remove slice for " ++ namespace) (PathError EOTHER)), w1)
      else
        (None,
         set_logs (logs w ++ removing
                     :: {| log_level := InfoLevel; log_message := "Cgroup slice removed" |}
                     :: nil)
           (set_dirs (dirs w ∖ {[path]}) w))
    else
      (None,
       set_logs (logs w ++ removing
                   :: {| log_level := DebugLevel;
                         log_message := "Slice does not exist, nothing to remove" |}
                   :: nil) w).
Proof.
  intros path w1. subst w1.
  unfold RemoveSlice, os_Stat, os_Remove, bind, ret, get, modify, log.
  fold path. clearbody path.
  cbn [env dirs logs set_logs set_dirs].
  destruct (inaccessible (env w) path) eqn:Hacc; cbn.
  - rewrite Hacc. cbn. rewrite Hacc. reflexivity.
  - rewrite Hacc.
    destruct (decide (path ∈ dirs w)) as [Hin|Hout]; cbn.
    + rewrite Hacc. destruct (decide (path ∈ dirs w)); [|contradiction].
      destruct (busy (env w) path); cbn; [reflexivity|].
      unfold set_logs, set_dirs; cbn. rewrite <- app_assoc. reflexivity.
    + unfold set_logs; cbn. rewrite <- app_assoc. reflexivity.
Qed.

Lemma RemoveSlice_env (w : World) : env (snd (RemoveSlice m namespace w)) = env w.
Proof.
  rewrite RemoveSlice_run.
  destruct (inaccessible _ _); [reflexivity|].
  destruct (decide _); [destruct (busy _ _)|]; reflexivity.
Qed.

(** The outcome depends on the environment and the directories only. *)
Lemma RemoveSlice_result (w w' : World) :
  env w' = env w -> dirs w' = dirs w ->
  fst (RemoveSlice m namespace w') = fst (RemoveSlice m namespace w).
Proof.
  intros He Hd. rewrite !RemoveSlice_run. rewrite He, Hd.
  destruct (inaccessible _ _); [reflexivity|].
  destruct (decide _); [destruct (busy _ _)|]; reflexivity.
Qed.

Lemma RemoveSlice_dirs (w w' : World) :
  env w' = env w -> dirs w' = dirs w ->
  dirs (snd (RemoveSlice m namespace w')) = dirs (snd (RemoveSlice m namespace w)).
Proof.
  intros He Hd. rewrite !RemoveSlice_run. rewrite He, Hd.
  destruct (inaccessible _ _); [exact Hd|].
  destruct (decide _); [destruct (busy _ _)|]; cbn; congruence.
Qed.


Lemma RemoveSlice_events (w : World) :
  events (snd (RemoveSlice m namespace w)) = events w
  /\ statuses (snd (RemoveSlice m namespace w)) = statuses w
  /\ workqueue (snd (RemoveSlice m namespace w)) = workqueue w.
Proof.
  rewrite RemoveSlice_run.
  destruct (inaccessible _ _); [repeat split|].
  destruct (decide _); [destruct (busy _ _)|]; repeat split.
Qed.

End RemoveSlice.

(** C9. [RemoveSlice] is idempotent: when [os.Stat] reports that the slice
    directory does not exist, the removal returns nil and leaves the
    directories as they are; hence a removal that succeeded is followed by a
    removal that succeeds, and removing twice a slice that can be removed
    returns nil both times. *)
Theorem C9_RemoveSlice_idempotent :
  forall (m : CgroupManager) (namespace : string) (w : World),
    let path := GetSlicePath m namespace in
    (os_IsNotExist (fst (os_Stat path w)) = true ->
     fst (RemoveSlice m namespace w) = None
     /\ dirs (snd (RemoveSlice m namespace w)) = dirs w)
    /\ (fst (RemoveSlice m namespace w) = None ->
        fst (RemoveSlice m namespace (snd (RemoveSlice m namespace w))) = None)
    /\ (inaccessible (env w) path = false -> busy (env w) path = false ->
        fst (RemoveSlice m namespace w) = None
        /\ fst (RemoveSlice m namespace (snd (RemoveSlice m namespace w))) = None
        /\ path ∉ dirs (snd (RemoveSlice m namespace w))).
Proof.
  intros m namespace w path.
  assert (Hsecond :
    fst (RemoveSlice m namespace w) = None ->
    fst (RemoveSlice m namespace (snd (RemoveSlice m namespace w))) = None
    /\ path ∉ dirs (snd (RemoveSlice m namespace w))).
  { rewrite (RemoveSlice_run m namespace w). fold path.
    destruct (inaccessible (env w) path) eqn:Hacc; [discriminate|].
    destruct (decide (path ∈ dirs w)) as [Hin|Hout].
    - destruct (busy (env w) path) eqn:Hbusy; [discriminate|].
      intros _. cbn [snd]. rewrite RemoveSlice_run. fold path.
      cbn [env dirs set_logs set_dirs]. rewrite Hacc.
      destruct (decide _) as [Hin'|Hout'];
        [exfalso; apply elem_of_difference in Hin' as [_ Hin']; apply Hin';
         apply elem_of_singleton; reflexivity|].
      split; [reflexivity | exact Hout'].
    - intros _. cbn [snd]. rewrite RemoveSlice_run. fold path.
      cbn [env dirs set_logs]. rewrite Hacc.
      destruct (decide _) as [Hin'|Hout']; [contradiction|].
      split; [reflexivity | exact Hout]. }
  split; [|split].
  - unfold os_Stat, bind, ret, get. rewrite RemoveSlice_run. fold path.
    destruct (inaccessible (env w) path); [cbn; discriminate|].
    destruct (decide (path ∈ dirs w)); [cbn; discriminate|].
    intros _. cbn. split; reflexivity.
  - intros H. apply Hsecond. exact H.
  - intros Hacc Hbusy.
    assert (Hfirst : fst (RemoveSlice m namespace w) = None).
    { rewrite RemoveSlice_run. fold path. rewrite Hacc.
      destruct (decide _); [rewrite Hbusy|]; reflexivity. }
    split; [exact Hfirst|]. apply Hsecond. exact Hfirst.
Qed.

(** On a quiet node the slice of [tenant-a], present, is removed twice. *)
Lemma C9_witness :
  let w := Samples.world_of Samples.quiet {[ Samples.tenant_a_slice ]} Workqueue.empty in
  fst (RemoveSlice Samples.manager "tenant-a" w) = None
  /\ fst (RemoveSlice Samples.manager "tenant-a"
            (snd (RemoveSlice Samples.manager "tenant-a" w))) = None
  /\ GetSlicePath Samples.manager "tenant-a"
       ∉ dirs (snd (RemoveSlice Samples.manager "tenant-a" w)).
Proof.
  intros w.
  apply (proj2 (proj2 (C9_RemoveSlice_idempotent Samples.manager "tenant-a" w)));
    reflexivity.
Defined.

(** ** Reconciling a deleted key *)

(** The event [handleDelete] records when the removal succeeded. *)
Definition CgroupRemoved_event (key : string) : Event :=
  {| ev_object := {| ref_APIVersion := ""; ref_Kind := "Namespace";
                     ref_Name := key; ref_Namespace := key; ref_UID := "" |};
     ev_type := "Normal";
     ev_reason := "CgroupRemoved";
     ev_message := "Cgroup removed for deleted NamespaceQuota " ++ key |}.

Lemma handleDelete_spec (c : Controller) (key : string) (w : World) :
  fst (handleDelete c key w) = None
  /\ events (snd (handleDelete c key w)) =
       (events w ++
        match fst (RemoveSlice (cgroupManager c) key w) with
        | None => CgroupRemoved_event key :: nil
        | Some _ => nil
        end)%list
  /\ workqueue (snd (handleDelete c key w)) = workqueue w
  /\ env (snd (handleDelete c key w)) = env w.
Proof.
  unfold handleDelete, bind, ret, log, modify.
  set (w0 := set_logs _ w).
  assert (He : env w0 = env w) by reflexivity.
  assert (Hd : dirs w0 = dirs w) by reflexivity.
  rewrite <- (RemoveSlice_result (cgroupManager c) key w w0 He Hd).
  pose proof (RemoveSlice_events (cgroupManager c) key w0) as (Hev & _ & Hwq).
  pose proof (RemoveSlice_env (cgroupManager c) key w0) as Henv.
  destruct (RemoveSlice (cgroupManager c) key w0) as [err w1].
  cbn [fst snd] in *.
  destruct err as [e|]; cbn.
  - rewrite Hev, Hwq, Henv. rewrite app_nil_r. repeat split.
  - unfold EmitEvent, recorder_Event, modify. cbn.
    rewrite Hev, Hwq, Henv. repeat split.
Qed.

(** C10. Reconciling a key that is absent from the informer's store returns
    nil whatever the removal of the slice does (also when it fails for
    another reason than the directory not existing); the [CgroupRemoved]
    event, of type Normal, is recorded exactly when the removal succeeded,
    and refers to an object of kind [Namespace] named by the key; the work
    queue is left alone, so that [processNextItem] forgets the key and
    neither counts a requeue nor schedules one. *)
Theorem C10_deleted_key_reconciles_to_nil :
  forall (c : Controller) (key : string) (w : World),
    store (env w) key = NotFound ->
    fst (reconcile c key w) = None
    /\ events (snd (reconcile c key w)) =
         (events w ++
          match fst (RemoveSlice (cgroupManager c) key w) with
          | None => CgroupRemoved_event key :: nil
          | Some _ => nil
          end)%list
    /\ ref_Kind (ev_object (CgroupRemoved_event key)) = "Namespace"
    /\ ref_Name (ev_object (CgroupRemoved_event key)) = key
    /\ workqueue (snd (reconcile c key w)) = workqueue w
    /\ (forall q,
           Workqueue.Get (workqueue w) = Workqueue.GetItem key q ->
           fst (processNextItem c w) = Some true
           /\ Workqueue.NumRequeues key (workqueue (snd (processNextItem c w))) = O
           /\ Workqueue.waiting (workqueue (snd (processNextItem c w)))
              = Workqueue.waiting (workqueue w)).
Proof.
  intros c key w Hstore.
  assert (Hrec : forall w', env w' = env w ->
            reconcile c key w' =
            handleDelete c key
              (set_logs ((logs w' ++ {| log_level := DebugLevel;
                                        log_message := "Reconciling NamespaceQuota" |} :: nil)
                         ++ {| log_level := InfoLevel;
                               log_message := "NamespaceQuota deleted, removing cgroup" |} :: nil)
                 w')).
  { intros w' He. unfold reconcile, bind, ret, get, log, modify.
    cbn [env set_logs]. rewrite He, Hstore. reflexivity. }
  assert (Hspec : forall w', env w' = env w -> dirs w' = dirs w ->
            fst (reconcile c key w') = None
            /\ events (snd (reconcile c key w')) =
                 (events w' ++
                  match fst (RemoveSlice (cgroupManager c) key w) with
                  | None => CgroupRemoved_event key :: nil
                  | Some _ => nil
                  end)%list
            /\ workqueue (snd (reconcile c key w')) = workqueue w').
  { intros w' He Hd. rewrite (Hrec w' He).
    match goal with |- context [handleDelete c key ?x] => set (w0 := x) end.
    destruct (handleDelete_spec c key w0) as (H1 & H2 & H3 & _).
    rewrite (RemoveSlice_result (cgroupManager c) key w w0) in H2
      by (subst w0; cbn; congruence).
    rewrite H1, H2, H3. repeat split. }
  destruct (Hspec w eq_refl eq_refl) as (H1 & H2 & H3).
  split; [exact H1|]. split; [exact H2|].
  split; [reflexivity|]. split; [reflexivity|]. split; [exact H3|].
  intros q Hget. unfold processNextItem, bind, ret, get, modify, on_workqueue.
  rewrite Hget.
  destruct (Hspec (set_workqueue q w) eq_refl eq_refl) as (G1 & _ & G3).
  destruct (reconcile c key (set_workqueue q w)) as [err w1].
  cbn [fst snd] in G1, G3. subst err. cbn.
  rewrite G3. cbn.
  unfold Workqueue.Get in Hget.
  destruct (Workqueue.queue (workqueue w)) as [|k rest];
    [destruct (Workqueue.shuttingDown (workqueue w)); discriminate|].
  inversion Hget; subst. cbn.
  split; [reflexivity|]. split; [|reflexivity].
  unfold Workqueue.NumRequeues. cbn. rewrite lookup_delete_eq. reflexivity.
Qed.

(** A deleted key whose slice is busy: the removal fails, the result is
    nil all the same. *)
Lemma C10_witness :
  let e := {| store := fun _ => NotFound;
              inaccessible := fun _ => false;
              busy := fun _ => true;
              mkdir_fails := fun _ => false;
              write_fails := fun _ => false;
              command_fails := fun _ => false;
              api_get_fails := fun _ => false;
              api_update_fails := fun _ => false;
              now := "2026-01-01T00:00:00Z";
              counters := counters Samples.quiet |} in
  let w := Samples.world_of e {[ Samples.tenant_a_slice ]} Workqueue.empty in
  fst (reconcile Samples.controller "tenant-a" w) = None
  /\ events (snd (reconcile Samples.controller "tenant-a" w)) = nil.
Proof.
  intros e w.
  destruct (C10_deleted_key_reconciles_to_nil Samples.controller "tenant-a" w eq_refl)
    as (H1 & H2 & _).
  split; [exact H1|]. rewrite H2. reflexivity.
Defined.

(** ** Reconciling a disabled quota *)

Definition status_failed : LogEntry :=
  {| log_level := WarnLevel; log_message := "Failed to update status" |}.

Definition status_updated : LogEntry :=
  {| log_level := DebugLevel; log_message := "Status updated" |}.

(** [updateStatus] writes the status when the API server accepts it and
    only logs otherwise. *)
Lemma updateStatus_run (name : string) (ready : bool) (message : string) (w : World) :
  updateStatus name ready message w =
    (tt,
     if (api_get_fails (env w) name || api_update_fails (env w) name)%bool
     then set_logs (logs w ++ status_failed :: nil) w
     else set_logs (logs w ++ status_updated :: nil)
            (set_statuses
               (<[name := {| st_ready := ready; st_message := message;
                             st_lastUpdated := now (env w) |}]> (statuses w)) w)).
Proof.
  unfold updateStatus, UpdateStatus, bind, ret, get, modify, log.
  destruct (api_get_fails (env w) name); cbn; [reflexivity|].
  destruct (api_update_fails (env w) name); cbn; reflexivity.
Qed.

(** The event of the disabled branch of [handleQuota]. *)
Definition QuotaDisabled_event (obj : Unstructured) : Event :=
  {| ev_object := {| ref_APIVersion := GetAPIVersion obj; ref_Kind := GetKind obj;
                     ref_Name := GetName obj; ref_Namespace := GetNamespace obj;
                     ref_UID := GetUID obj |};
     ev_type := "Normal";
     ev_reason := "QuotaDisabled";
     ev_message := "Quota disabled, cgroup removed" |}.

Definition removal_warned : LogEntry :=
  {| log_level := WarnLevel; log_message := "Failed to remove cgroup slice" |}.

Definition disabled_status (w : World) : Status :=
  {| st_ready := true; st_message := "Quota disabled";
     st_lastUpdated := now (env w) |}.

Lemma handleQuota_disabled (c : Controller) (obj : Unstructured)
    (spec : NamespaceQuotaSpec) (w : World) :
  Enabled spec = false ->
  let r := handleQuota c obj spec w in
  let removal := RemoveSlice (cgroupManager c) (Namespace spec) w in
  fst r = None
  /\ events (snd r) = (events w ++ QuotaDisabled_event obj :: nil)%list
  /\ dirs (snd r) = dirs (snd removal)
  /\ (api_get_fails (env w) (GetName obj) = false ->
      api_update_fails (env w) (GetName obj) = false ->
      statuses (snd r) !! GetName obj = Some (disabled_status w))
  /\ (fst removal <> None -> In removal_warned (logs (snd r)))
  /\ workqueue (snd r) = workqueue w
  /\ env (snd r) = env w.
Proof.
  intros Hen r removal. subst r removal.
  destruct (handleQuota c obj spec w) as [res wf] eqn:Hrun.
  unfold handleQuota in Hrun. rewrite Hen in Hrun. cbn [negb] in Hrun.
  unfold bind in Hrun. unfold log at 1 in Hrun. unfold modify at 1 in Hrun.
  set (w0 := set_logs _ w) in Hrun.
  assert (He : env w0 = env w) by reflexivity.
  assert (Hd : dirs w0 = dirs w) by reflexivity.
  assert (Hv0 : events w0 = events w) by reflexivity.
  assert (Hq0 : workqueue w0 = workqueue w) by reflexivity.
  rewrite <- (RemoveSlice_result (cgroupManager c) (Namespace spec) w w0 He Hd).
  rewrite <- (RemoveSlice_dirs (cgroupManager c) (Namespace spec) w w0 He Hd).
  pose proof (RemoveSlice_events (cgroupManager c) (Namespace spec) w0)
    as (Hev & Hst & Hwq).
  pose proof (RemoveSlice_env (cgroupManager c) (Namespace spec) w0) as Henv.
  destruct (RemoveSlice (cgroupManager c) (Namespace spec) w0) as [err w1].
  cbn [fst snd] in *.
  set (w2 := match err with
             | Some _ => set_logs (logs w1 ++ removal_warned :: nil) w1
             | None => w1
             end).
  assert (Hw2 : (match err with
                 | Some _ => log WarnLevel "Failed to remove cgroup slice"
                 | None => ret tt
                 end) w1 = (tt, w2)).
  { subst w2. destruct err; reflexivity. }
  rewrite Hw2 in Hrun.
  assert (F2 : env w2 = env w /\ dirs w2 = dirs w1 /\ events w2 = events w
               /\ workqueue w2 = workqueue w
               /\ (err <> None -> In removal_warned (logs w2))).
  { subst w2. destruct err; cbn.
    - split; [congruence|]. split; [reflexivity|]. split; [congruence|].
      split; [congruence|].
      intros _. apply in_or_app. right. left. reflexivity.
    - split; [congruence|]. split; [reflexivity|]. split; [congruence|].
      split; [congruence|].
      intros H. contradiction. }
  destruct F2 as (E2 & D2 & V2 & Q2 & L2).
  clearbody w2. clear Hw2.
  rewrite updateStatus_run in Hrun.
  unfold EmitEventForObject, recorder_Event, modify, ret in Hrun.
  rewrite E2 in Hrun.
  destruct (api_get_fails (env w) (GetName obj) || api_update_fails (env w) (GetName obj))%bool
    eqn:Hapi; inversion Hrun; subst res wf; clear Hrun; cbn.
  - split; [reflexivity|]. split; [rewrite V2; reflexivity|].
    split; [exact D2|]. split.
    { intros G U. rewrite G, U in Hapi. discriminate. }
    split; [|split; [exact Q2 | exact E2]].
    intros Herr. apply in_or_app. left. apply L2. exact Herr.
  - split; [reflexivity|]. split; [rewrite V2; reflexivity|].
    split; [exact D2|]. split.
    { intros _ _. rewrite lookup_insert_eq. unfold disabled_status. reflexivity. }
    split; [|split; [exact Q2 | exact E2]].
    intros Herr. apply in_or_app. left. apply L2. exact Herr.
Qed.



(** ** The retry budget *)

(** Reconciling changes neither the environment nor the work queue. *)
Definition frame {A : Type} (m : M A) : Prop :=
  forall w, env (snd (m w)) = env w /\ workqueue (snd (m w)) = workqueue w.

Lemma frame_ret {A : Type} (a : A) : frame (ret a).
Proof. intros w. split; reflexivity. Qed.

Lemma frame_bind {A B : Type} (m : M A) (k : A -> M B) :
  frame m -> (forall a, frame (k a)) -> frame (bind m k).
Proof.
  intros Hm Hk w. unfold bind. destruct (Hm w) as [E Q].
  destruct (m w) as [a w1]. cbn [snd] in *.
  destruct (Hk a w1) as [E' Q']. split; congruence.
Qed.

Lemma frame_get : frame get.
Proof. intros w. split; reflexivity. Qed.

Lemma frame_modify (f : World -> World) :
  (forall w, env (f w) = env w /\ workqueue (f w) = workqueue w) ->
  frame (modify f).
Proof. intros H w. exact (H w). Qed.

Lemma frame_log (l : Level) (msg : string) : frame (log l msg).
Proof. intros w. split; reflexivity. Qed.

Ltac frame_head t :=
  lazymatch t with
  | ?f _ => frame_head f
  | _ => t
  end.

Ltac frame_step :=
  lazymatch goal with
  | |- frame (bind _ _) => apply frame_bind; [|intros ?]
  | |- frame (ret _) => apply frame_ret
  | |- frame (log _ _) => apply frame_log
  | |- frame get => apply frame_get
  | |- frame (modify _) => apply frame_modify; intros ?; split; reflexivity
  | |- frame (match ?x with _ => _ end) => destruct x
  | |- frame ?t => let h := frame_head t in unfold h
  end.

Lemma frame_RemoveSlice m namespace : frame (RemoveSlice m namespace).
Proof. repeat frame_step. Qed.

Lemma frame_EnsureSlice m namespace cpu memory :
  frame (EnsureSlice m namespace cpu memory).
Proof. repeat frame_step. Qed.

Lemma frame_updateStatus name ready message : frame (updateStatus name ready message).
Proof. repeat frame_step. Qed.

Lemma frame_reconcile (c : Controller) (key : string) : frame (reconcile c key).
Proof.
  unfold reconcile. repeat frame_step.
Qed.

(** One turn of the worker followed by the expiry of the oldest delay, and
    [n] such turns with the values [processNextItem] returned. *)
Definition round (c : Controller) : M (option bool) :=
  (let* r := processNextItem c in
   let* _ := on_workqueue Workqueue.timer in
   ret r).

Fixpoint rounds (c : Controller) (n : nat) : M (list (option bool)) :=
  match n with
  | O => ret nil
  | S n' =>
      (let* r := round c in
       let* rs := rounds c n' in
       ret (r :: rs))
  end.

Definition retrying : LogEntry :=
  {| log_level := WarnLevel; log_message := "Error processing item, retrying" |}.

Definition dropping : LogEntry :=
  {| log_level := ErrorLevel; log_message := "Max retries exceeded, dropping item" |}.

(** [key] is the only key queued, with [n] requeues on record. *)
Definition awaiting (key : string) (n : nat) (w : World) : Prop :=
  let q := workqueue w in
  Workqueue.queue q = (key :: nil)%list
  /\ Workqueue.waiting q = nil
  /\ (key ∈ Workqueue.dirty q)
  /\ (key ∉ Workqueue.processing q)
  /\ Workqueue.shuttingDown q = false
  /\ Workqueue.NumRequeues key q = n.

(** [key] is gone from the queue and the rate limiter has forgotten it. *)
Definition dropped (key : string) (w : World) : Prop :=
  let q := workqueue w in
  Workqueue.queue q = nil
  /\ Workqueue.waiting q = nil
  /\ (key ∉ Workqueue.dirty q)
  /\ Workqueue.shuttingDown q = false
  /\ Workqueue.NumRequeues key q = O.

(** Reconciling [key] fails whatever the controller has done so far. *)
Definition keeps_failing (c : Controller) (key : string) (w : World) : Prop :=
  forall w', env w' = env w -> fst (reconcile c key w') <> None.

(** Membership in the sets of the queue after [Get] and [Done]. *)
Lemma not_in_without (key : string) (X : gset string) : key ∉ X ∖ {[key]}.
Proof.
  intros H. apply elem_of_difference in H as [_ H]. apply H.
  apply elem_of_singleton. reflexivity.
Qed.

Lemma in_with (key : string) (X : gset string) : key ∈ {[key]} ∪ X.
Proof. apply elem_of_union. left. apply elem_of_singleton. reflexivity. Qed.

Lemma processNextItem_on_failure (c : Controller) (key : string)
    (q : Workqueue.WorkQueue) (w : World) (err : error) (w' : World) :
  Workqueue.Get (workqueue w) = Workqueue.GetItem key q ->
  reconcile c key (set_workqueue q w) = (Some err, w') ->
  processNextItem c w =
    (Some true,
     if Nat.ltb (Workqueue.NumRequeues key q) maxRetries
     then set_workqueue (Workqueue.Done key (Workqueue.AddRateLimited key q))
            (set_logs (logs w' ++ retrying :: nil) w')
     else set_workqueue (Workqueue.Done key (Workqueue.Forget key q))
            (set_logs (logs w' ++ dropping :: nil) w')).
Proof.
  intros Hget Hrec.
  destruct (frame_reconcile c key (set_workqueue q w)) as [_ Hq].
  rewrite Hrec in Hq. cbn in Hq.
  unfold processNextItem, bind, ret, get, modify, on_workqueue, log.
  rewrite Hget, Hrec. rewrite Hq.
  destruct (Nat.ltb (Workqueue.NumRequeues key q) maxRetries); cbn; rewrite Hq; reflexivity.
Qed.

Lemma round_retry (c : Controller) (key : string) (n : nat) (w : World) :
  awaiting key n w -> (n < maxRetries)%nat -> keeps_failing c key w ->
  fst (round c w) = Some true
  /\ awaiting key (S n) (snd (round c w))
  /\ env (snd (round c w)) = env w.
Proof.
  intros (Hq & Hw & Hd & Hp & Hs & Hn) Hlt Hfail.
  set (q := {| Workqueue.queue := nil;
               Workqueue.dirty := Workqueue.dirty (workqueue w) ∖ {[key]};
               Workqueue.processing := {[key]} ∪ Workqueue.processing (workqueue w);
               Workqueue.failures := Workqueue.failures (workqueue w);
               Workqueue.waiting := Workqueue.waiting (workqueue w);
               Workqueue.shuttingDown := Workqueue.shuttingDown (workqueue w) |}).
  assert (Hget : Workqueue.Get (workqueue w) = Workqueue.GetItem key q).
  { unfold Workqueue.Get. rewrite Hq. reflexivity. }
  destruct (reconcile c key (set_workqueue q w)) as [[err|] w'] eqn:Hrec.
  2:{ exfalso. apply (Hfail (set_workqueue q w) eq_refl). rewrite Hrec. reflexivity. }
  destruct (frame_reconcile c key (set_workqueue q w)) as [He _].
  rewrite Hrec in He. cbn in He.
  unfold round, bind. rewrite (processNextItem_on_failure c key q w err w' Hget Hrec).
  assert (Hnq : Workqueue.NumRequeues key q = n) by exact Hn.
  rewrite Hnq. apply Nat.ltb_lt in Hlt. rewrite Hlt.
  unfold on_workqueue, modify, ret. cbn [fst snd].
  split; [reflexivity|]. split; [|exact He].
  unfold awaiting. cbn [workqueue set_workqueue set_logs].
  unfold Workqueue.timer, Workqueue.Done, Workqueue.AddRateLimited, Workqueue.Add.
  cbn [Workqueue.queue Workqueue.dirty Workqueue.processing Workqueue.failures
       Workqueue.waiting Workqueue.shuttingDown q].
  rewrite Hs, Hw. cbn [app].
  destruct (decide (key ∈ Workqueue.dirty (workqueue w) ∖ {[key]})) as [Hin|_];
    [exfalso; exact (not_in_without key _ Hin)|].
  cbn [Workqueue.queue Workqueue.dirty Workqueue.processing Workqueue.failures
       Workqueue.waiting Workqueue.shuttingDown].
  destruct (decide (key ∈ ({[key]} ∪ Workqueue.processing (workqueue w)) ∖ {[key]}))
    as [Hin|_]; [exfalso; exact (not_in_without key _ Hin)|].
  cbn [app].
  split; [reflexivity|]. split; [reflexivity|]. split; [apply in_with|].
  split; [apply not_in_without|]. split; [reflexivity|].
  unfold Workqueue.NumRequeues. cbn. rewrite lookup_insert_eq. cbn.
  f_equal. exact Hn.
Qed.

Lemma round_drop (c : Controller) (key : string) (n : nat) (w : World) :
  awaiting key n w -> (maxRetries <= n)%nat -> keeps_failing c key w ->
  fst (round c w) = Some true
  /\ dropped key (snd (round c w))
  /\ In dropping (logs (snd (round c w)))
  /\ env (snd (round c w)) = env w.
Proof.
  intros (Hq & Hw & Hd & Hp & Hs & Hn) Hge Hfail.
  set (q := {| Workqueue.queue := nil;
               Workqueue.dirty := Workqueue.dirty (workqueue w) ∖ {[key]};
               Workqueue.processing := {[key]} ∪ Workqueue.processing (workqueue w);
               Workqueue.failures := Workqueue.failures (workqueue w);
               Workqueue.waiting := Workqueue.waiting (workqueue w);
               Workqueue.shuttingDown := Workqueue.shuttingDown (workqueue w) |}).
  assert (Hget : Workqueue.Get (workqueue w) = Workqueue.GetItem key q).
  { unfold Workqueue.Get. rewrite Hq. reflexivity. }
  destruct (reconcile c key (set_workqueue q w)) as [[err|] w'] eqn:Hrec.
  2:{ exfalso. apply (Hfail (set_workqueue q w) eq_refl). rewrite Hrec. reflexivity. }
  destruct (frame_reconcile c key (set_workqueue q w)) as [He _].
  rewrite Hrec in He. cbn in He.
  unfold round, bind. rewrite (processNextItem_on_failure c key q w err w' Hget Hrec).
  assert (Hnq : Workqueue.NumRequeues key q = n) by exact Hn.
  rewrite Hnq. apply Nat.ltb_ge in Hge. rewrite Hge.
  unfold on_workqueue, modify, ret. cbn [fst snd].
  split; [reflexivity|]. split; [|split; [|exact He]].
  - unfold dropped. cbn [workqueue set_workqueue set_logs].
    unfold Workqueue.timer, Workqueue.Done, Workqueue.Forget.
    cbn [Workqueue.queue Workqueue.dirty Workqueue.processing Workqueue.failures
         Workqueue.waiting Workqueue.shuttingDown q].
    rewrite Hw.
    destruct (decide (key ∈ Workqueue.dirty (workqueue w) ∖ {[key]})) as [Hin|_];
      [exfalso; exact (not_in_without key _ Hin)|].
    cbn [Workqueue.queue Workqueue.dirty Workqueue.processing Workqueue.failures
         Workqueue.waiting Workqueue.shuttingDown].
    split; [reflexivity|]. split; [reflexivity|]. split; [apply not_in_without|].
    split; [exact Hs|].
    unfold Workqueue.NumRequeues. cbn. rewrite lookup_delete_eq. reflexivity.
  - cbn. apply in_or_app. right. left. reflexivity.
Qed.

Lemma keeps_failing_env (c : Controller) (key : string) (w w' : World) :
  env w' = env w -> keeps_failing c key w -> keeps_failing c key w'.
Proof. intros He Hf w'' He'. apply Hf. congruence. Qed.

Lemma rounds_exhaust (c : Controller) (key : string) (k : nat) :
  forall (n : nat) (w : World),
    awaiting key n w -> (n + k = maxRetries)%nat -> keeps_failing c key w ->
    fst (rounds c (S k) w) = repeat (Some true) (S k)
    /\ dropped key (snd (rounds c (S k) w))
    /\ In dropping (logs (snd (rounds c (S k) w))).
Proof.
  induction k as [|k IH]; intros n w Ha Hsum Hfail.
  - destruct (round_drop c key n w Ha) as (H1 & H2 & H3 & _); [lia | exact Hfail |].
    cbn [rounds]. unfold bind, ret.
    destruct (round c w) as [r w1]. cbn [fst snd] in *. subst r.
    split; [reflexivity|]. split; assumption.
  - destruct (round_retry c key n w Ha) as (H1 & H2 & H3); [lia | exact Hfail |].
    assert (Hfail1 : keeps_failing c key (snd (round c w)))
      by (apply (keeps_failing_env c key w); assumption).
    specialize (IH (S n) (snd (round c w)) H2 ltac:(lia) Hfail1).
    destruct IH as (I1 & I2 & I3).
    change (rounds c (S (S k)) w)
      with ((let* r := round c in let* rs := rounds c (S k) in ret (r :: rs)) w).
    unfold bind, ret.
    destruct (round c w) as [r w1]. cbn [fst snd] in *. subst r.
    destruct (rounds c (S k) w1) as [rs w2]. cbn [fst snd] in *.
    split; [rewrite I1; reflexivity|]. split; assumption.
Qed.

Lemma processNextItem_blocks (c : Controller) (key : string) (w : World) :
  dropped key w -> processNextItem c w = (None, w).
Proof.
  intros (Hq & _ & _ & Hs & _).
  unfold processNextItem, bind, get, ret, Workqueue.Get. rewrite Hq, Hs. reflexivity.
Qed.

(** C3. When [reconcile] returns an error for the key handed out,
    [processNextItem] returns true and, while the requeue count of the key
    is below [maxRetries = 5], logs a warning and re-adds the key with
    [AddRateLimited] (one more requeue on record); at 5 requeues or more it
    logs the error and forgets the key without re-adding it.  Hence a key
    whose reconcile keeps failing is handed out 6 times (5 retries), every
    time with the result true, and is then dropped: the queue is empty, the
    count is reset, and the worker waits. *)
Theorem C3_failing_key_retried_five_times :
  forall (c : Controller) (key : string),
    (forall (q : Workqueue.WorkQueue) (w : World) (err : error) (w' : World),
        Workqueue.Get (workqueue w) = Workqueue.GetItem key q ->
        reconcile c key (set_workqueue q w) = (Some err, w') ->
        let n := Workqueue.NumRequeues key q in
        let after := snd (processNextItem c w) in
        fst (processNextItem c w) = Some true
        /\ ((n < maxRetries)%nat ->
            workqueue after = Workqueue.Done key (Workqueue.AddRateLimited key q)
            /\ Workqueue.NumRequeues key (workqueue after) = S n
            /\ logs after = (logs w' ++ retrying :: nil)%list)
        /\ ((maxRetries <= n)%nat ->
            workqueue after = Workqueue.Done key (Workqueue.Forget key q)
            /\ Workqueue.NumRequeues key (workqueue after) = O
            /\ Workqueue.waiting (workqueue after) = Workqueue.waiting q
            /\ logs after = (logs w' ++ dropping :: nil)%list))
    /\ (forall w : World,
           awaiting key 0 w -> keeps_failing c key w ->
           fst (rounds c 6 w) = repeat (Some true) 6
           /\ dropped key (snd (rounds c 6 w))
           /\ In dropping (logs (snd (rounds c 6 w)))
           /\ fst (processNextItem c (snd (rounds c 6 w))) = None).
Proof.
  intros c key. split.
  - intros q w err w' Hget Hrec n after. subst after.
    rewrite (processNextItem_on_failure c key q w err w' Hget Hrec).
    fold n. cbn [fst snd]. split; [reflexivity|]. split.
    + intros Hlt. apply Nat.ltb_lt in Hlt. rewrite Hlt. cbn.
      split; [reflexivity|]. split; [|reflexivity].
      unfold Workqueue.NumRequeues. cbn. rewrite lookup_insert_eq. reflexivity.
    + intros Hge. apply Nat.ltb_ge in Hge. rewrite Hge. cbn.
      split; [reflexivity|]. split; [|split; reflexivity].
      unfold Workqueue.NumRequeues. cbn. rewrite lookup_delete_eq. reflexivity.
  - intros w Ha Hfail.
    destruct (rounds_exhaust c key 5 0 w Ha eq_refl Hfail) as (H1 & H2 & H3).
    split; [exact H1|]. split; [exact H2|]. split; [exact H3|].
    rewrite (processNextItem_blocks c key _ H2). reflexivity.
Qed.

(** A declaration that does not parse fails at every attempt. *)
Lemma parse_error_keeps_failing (c : Controller) (key : string) (u : Unstructured)
    (err : error) (w : World) :
  store (env w) key = Found (ItemUnstructured u) ->
  ParseNamespaceQuota u = Err err ->
  keeps_failing c key w.
Proof.
  intros Hstore Hparse w' He.
  unfold reconcile, bind, ret, get, log, modify.
  cbn [env set_logs]. rewrite He, Hstore, Hparse.
  destruct (updateStatus _ _ _ _) as [[] w1]. cbn. discriminate.
Qed.

(** A declaration with no [spec] is retried five times and dropped. *)
Lemma C3_witness :
  let u := {| GetAPIVersion := "brasa.cloud/v1alpha1"; GetKind := "NamespaceQuota";
              GetName := "broken"; GetNamespace := ""; GetUID := "uid-2";
              Object_spec := Absent |} in
  let e := {| store := fun _ => Found (ItemUnstructured u);
              inaccessible := fun _ => false;
              busy := fun _ => false;
              mkdir_fails := fun _ => false;
              write_fails := fun _ => false;
              command_fails := fun _ => false;
              api_get_fails := fun _ => false;
              api_update_fails := fun _ => false;
              now := "2026-01-01T00:00:00Z";
              counters := counters Samples.quiet |} in
  let w := Samples.world_of e ∅
             {| Workqueue.queue := ("broken" :: nil)%list;
                Workqueue.dirty := {[ "broken" ]};
                Workqueue.processing := ∅;
                Workqueue.failures := ∅;
                Workqueue.waiting := nil;
                Workqueue.shuttingDown := false |} in
  fst (rounds Samples.controller 6 w) = repeat (Some true) 6
  /\ dropped "broken" (snd (rounds Samples.controller 6 w))
  /\ fst (processNextItem Samples.controller (snd (rounds Samples.controller 6 w))) = None.
Proof.
  intros u e w.
  destruct (proj2 (C3_failing_key_retried_five_times Samples.controller "broken") w)
    as (H1 & H2 & _ & H4).
  - unfold awaiting. cbn.
    split; [reflexivity|]. split; [reflexivity|].
    split; [apply elem_of_singleton; reflexivity|].
    split; [apply not_elem_of_empty|]. split; reflexivity.
  - apply (parse_error_keeps_failing Samples.controller "broken" u
             (Errorf "spec not found in NamespaceQuota")); reflexivity.
  - split; [exact H1|]. split; [exact H2 | exact H4].
Defined.

(** ** The quota cache of the plugin *)

Section QuotaCache.

Import Plugin.

(** The declaration a notification carries for its handler: the object of
    an add, the new object of an update, the object of a delete or the one
    inside its tombstone. *)
Definition declaration_of (n : Notification) : option Unstructured :=
  match n with
  | Added (IsUnstructured u) => Some u
  | Updated _ (IsUnstructured u) => Some u
  | Deleted (IsUnstructured u) => Some u
  | Deleted (IsTombstone (Some u)) => Some u
  | _ => None
  end.

(** The notification carries a declaration whose [spec.namespace] is the
    non-empty [namespace]. *)
Definition targets (namespace : string) (n : Notification) : bool :=
  match declaration_of n with
  | Some u =>
      (negb (String.eqb (extractNamespace u) "")
       && String.eqb (extractNamespace u) namespace)%bool
  | None => false
  end.

(** An add or an update of a declaration whose [enabled] is true or
    absent. *)
Definition enabling (n : Notification) : bool :=
  match n with
  | Added (IsUnstructured u) => isEnabled u
  | Updated _ (IsUnstructured u) => isEnabled u
  | _ => false
  end.

(** An add of a disabled declaration: [onAdd] returns before it touches
    the map. *)
Definition disabled_add (n : Notification) : bool :=
  match n with
  | Added (IsUnstructured u) => negb (isEnabled u)
  | _ => false
  end.

Definition is_delete (n : Notification) : bool :=
  match n with
  | Deleted _ => true
  | _ => false
  end.

(** The most recent notification of a sequence (oldest first) that
    satisfies [f]. *)
Fixpoint latest (f : Notification -> bool) (l : list Notification)
  : option Notification :=
  match l with
  | nil => None
  | (n :: l')%list =>
      match latest f l' with
      | Some m => Some m
      | None => if f n then Some n else None
      end
  end.

(** The most recent notification that carries the declaration [name]. *)
Definition latest_of_declaration (name : string) (l : list Notification)
  : option Notification :=
  latest (fun n => match declaration_of n with
                   | Some u => String.eqb (GetName u) name
                   | None => false
                   end) l.

(** Each namespace is targeted by at most one declaration. *)
Definition targeted_once (l : list Notification) : Prop :=
  forall n1 n2 u1 u2,
    In n1 l -> In n2 l ->
    declaration_of n1 = Some u1 -> declaration_of n2 = Some u2 ->
    extractNamespace u1 <> "" ->
    extractNamespace u1 = extractNamespace u2 ->
    GetName u1 = GetName u2.

(** What the specification says [HasQuota] answers: whether the most
    recent notification of the declaration that targets [namespace] was an
    add or update with a non-empty [spec.namespace], enabled. *)
Definition stated_HasQuota (l : list Notification) (namespace : string) : bool :=
  match find (targets namespace) l with
  | Some n0 =>
      match declaration_of n0 with
      | Some u0 =>
          match latest_of_declaration (GetName u0) l with
          | Some n =>
              match declaration_of n with
              | Some u => (negb (String.eqb (extractNamespace u) "") && enabling n)%bool
              | None => false
              end
          | None => false
          end
      | None => false
      end
  | None => false
  end.

(** The informer's protocol as far as the cache depends on it: a disabled
    declaration is added only as the first notification for its namespace,
    or after the delete of the previous one. *)
Definition disabled_adds_come_first (namespace : string) (l : list Notification)
  : Prop :=
  forall l1 n l2,
    l = (l1 ++ n :: l2)%list ->
    targets namespace n = true -> disabled_add n = true ->
    match latest (targets namespace) l1 with
    | Some m => is_delete m = true
    | None => True
    end.

Lemma latest_snoc (f : Notification -> bool) (l : list Notification) (n : Notification) :
  latest f (l ++ n :: nil) = if f n then Some n else latest f l.
Proof.
  induction l as [|a l IH]; cbn.
  - reflexivity.
  - rewrite IH. destruct (f n); [reflexivity|]. reflexivity.
Qed.

Lemma observe_snoc (l : list Notification) (n : Notification) (qc : QuotaCache) :
  observe (l ++ n :: nil) qc = notify (observe l qc) n.
Proof. unfold observe. rewrite fold_left_app. reflexivity. Qed.

Lemma HasQuota_insert (m : gmap string bool) (k namespace : string) :
  HasQuota {| quotas := <[k := true]> m |} namespace
  = if String.eqb k namespace then true else HasQuota {| quotas := m |} namespace.
Proof.
  unfold HasQuota. cbn. destruct (String.eqb_spec k namespace) as [->|Hne].
  - rewrite lookup_insert_eq. reflexivity.
  - rewrite lookup_insert_ne by exact Hne. reflexivity.
Qed.

Lemma HasQuota_delete (m : gmap string bool) (k namespace : string) :
  HasQuota {| quotas := delete k m |} namespace
  = if String.eqb k namespace then false else HasQuota {| quotas := m |} namespace.
Proof.
  unfold HasQuota. cbn. destruct (String.eqb_spec k namespace) as [->|Hne].
  - rewrite lookup_delete_eq. reflexivity.
  - rewrite lookup_delete_ne by exact Hne. reflexivity.
Qed.

(** One notification: the answer for [namespace] changes only when the
    notification targets it and is not the add of a disabled declaration,
    and then it is whether the notification enables. *)
Lemma HasQuota_notify (qc : QuotaCache) (n : Notification) (namespace : string) :
  HasQuota (notify qc n) namespace
  = if (targets namespace n && negb (disabled_add n))%bool
    then enabling n else HasQuota qc namespace.
Proof.
  destruct qc as [m].
  destruct n as [obj|oldObj obj|obj]; unfold targets; cbn.
  - destruct obj as [u| |]; cbn; try reflexivity.
    destruct (String.eqb (extractNamespace u) "") eqn:He; cbn; [reflexivity|].
    destruct (isEnabled u); cbn.
    + rewrite HasQuota_insert, andb_true_r.
      destruct (String.eqb (extractNamespace u) namespace); reflexivity.
    + rewrite andb_false_r. reflexivity.
  - destruct obj as [u| |]; cbn; try reflexivity.
    destruct (String.eqb (extractNamespace u) "") eqn:He; cbn; [reflexivity|].
    rewrite andb_true_r.
    destruct (isEnabled u); cbn.
    + rewrite HasQuota_insert.
      destruct (String.eqb (extractNamespace u) namespace); reflexivity.
    + rewrite HasQuota_delete.
      destruct (String.eqb (extractNamespace u) namespace); reflexivity.
  - destruct obj as [u|[u|]|]; cbn; try reflexivity.
    + destruct (String.eqb (extractNamespace u) "") eqn:He; cbn; [reflexivity|].
      rewrite andb_true_r, HasQuota_delete.
      destruct (String.eqb (extractNamespace u) namespace); reflexivity.
    + destruct (String.eqb (extractNamespace u) "") eqn:He; cbn; [reflexivity|].
      rewrite andb_true_r, HasQuota_delete.
      destruct (String.eqb (extractNamespace u) namespace); reflexivity.
Qed.

(** The cache after a sequence of notifications, from any cache. *)
Lemma HasQuota_observe (l : list Notification) (qc : QuotaCache) (namespace : string) :
  HasQuota (observe l qc) namespace
  = match latest (fun n => targets namespace n && negb (disabled_add n))%bool l with
    | Some n => enabling n
    | None => HasQuota qc namespace
    end.
Proof.
  induction l as [|n l IH] using rev_ind.
  - reflexivity.
  - rewrite observe_snoc, HasQuota_notify, latest_snoc, IH.
    destruct (targets namespace n && negb (disabled_add n))%bool; reflexivity.
Qed.

Lemma disabled_adds_come_first_prefix (namespace : string)
    (l : list Notification) (n : Notification) :
  disabled_adds_come_first namespace (l ++ n :: nil) ->
  disabled_adds_come_first namespace l.
Proof.
  intros H l1 m l2 Hl. apply (H l1 m (l2 ++ n :: nil)%list).
  rewrite Hl, <- app_assoc. reflexivity.
Qed.

(** Under the informer's protocol the cache follows the most recent
    notification for the namespace. *)
Lemma HasQuota_observe_protocol (l : list Notification) (namespace : string) :
  disabled_adds_come_first namespace l ->
  HasQuota (observe l NewQuotaCache) namespace
  = match latest (targets namespace) l with
    | Some n => enabling n
    | None => false
    end.
Proof.
  induction l as [|n l IH] using rev_ind; intros Hp.
  - reflexivity.
  - specialize (IH (disabled_adds_come_first_prefix namespace l n Hp)).
    rewrite observe_snoc, HasQuota_notify, latest_snoc.
    destruct (targets namespace n) eqn:Ht; cbn [andb]; [|exact IH].
    destruct (disabled_add n) eqn:Hd; cbn [negb]; [|reflexivity].
    rewrite IH.
    specialize (Hp l n nil eq_refl Ht Hd).
    destruct (latest (targets namespace) l) as [m|].
    + destruct m; try discriminate Hp.
      destruct n as [[u| |]| |]; cbn in Hd; try discriminate Hd.
      cbn. apply negb_true_iff in Hd. rewrite Hd. reflexivity.
    + destruct n as [[u| |]| |]; cbn in Hd; try discriminate Hd.
      cbn. apply negb_true_iff in Hd. rewrite Hd. reflexivity.
Qed.

(** The declaration [name] of the namespace [namespace], with its
    [enabled] field. *)
Definition quota_declaration (name namespace : string) (enabled : Field bool)
  : Unstructured :=
  {| GetAPIVersion := "brasa.cloud/v1alpha1"; GetKind := "NamespaceQuota";
     GetName := name; GetNamespace := ""; GetUID := name;
     Object_spec :=
       Present {| spec_namespace := Present namespace;
                  spec_cpu := Present "4";
                  spec_memory := Present "8Gi";
                  spec_enabled := enabled |} |}.

End QuotaCache.

(** C2 (a defect of [onAdd]).  [Start] lists the declarations before the
    informer runs: [initialSync] finds the declaration [q] of the
    namespace [a], enabled, and caches [a].  The declaration is disabled
    before the informer's first list, so that the first notification of
    the informer for [q] is the add of the disabled declaration.  [onAdd]
    returns before it touches the map, and [HasQuota] still answers true
    for [a], although the only declaration that targets [a] was last seen
    disabled, for which the claim says false; [onUpdate], given the same
    declaration, removes the namespace. *)
Lemma C2_disabled_add_keeps_the_cached_namespace :
  let on := quota_declaration "q" "a" Absent in
  let off := quota_declaration "q" "a" (Present false) in
  let listed := Plugin.initialSync (on :: nil) Plugin.NewQuotaCache in
  let l := (Plugin.Added (Plugin.IsUnstructured off) :: nil)%list in
  targeted_once l
  /\ latest_of_declaration "q" l = Some (Plugin.Added (Plugin.IsUnstructured off))
  /\ stated_HasQuota l "a" = false
  /\ Plugin.HasQuota listed "a" = true
  /\ Plugin.HasQuota (Plugin.observe l listed) "a" = true
  /\ Plugin.HasQuota
       (Plugin.onUpdate (Plugin.IsUnstructured on) (Plugin.IsUnstructured off) listed)
       "a" = false.
Proof.
  intros on off listed l. split; [|repeat split].
  intros n1 n2 u1 u2 H1 H2 D1 D2 _ _.
  destruct H1 as [<-|[]]; destruct H2 as [<-|[]].
  cbn in D1, D2. inversion D1; inversion D2; reflexivity.
Qed.

(** Apart from that, the cache follows the notifications: after any
    sequence of them [HasQuota(ns)] is true exactly when the most recent
    notification whose declaration has the non-empty [spec.namespace = ns],
    adds of disabled declarations left aside, was an add or update whose
    [enabled] is true or absent; and when no disabled declaration is added
    while its namespace may be cached, it is true exactly when the most
    recent notification for [ns] was such an add or update. *)
Theorem cache_follows_latest_notification :
  forall (l : list Plugin.Notification) (namespace : string),
    Plugin.HasQuota (Plugin.observe l Plugin.NewQuotaCache) namespace
    = match latest (fun n => targets namespace n && negb (disabled_add n))%bool l with
      | Some n => enabling n
      | None => false
      end
    /\ (disabled_adds_come_first namespace l ->
        Plugin.HasQuota (Plugin.observe l Plugin.NewQuotaCache) namespace
        = match latest (targets namespace) l with
          | Some n => enabling n
          | None => false
          end).
Proof.
  intros l namespace. split.
  - apply HasQuota_observe.
  - apply HasQuota_observe_protocol.
Qed.

(** ** Strings and patterns *)

Section Strings.

Lemma append_nil_l (s : string) : "" ++ s = s.
Proof. reflexivity. Qed.

Lemma append_cons (c : ascii) (s t : string) : String c s ++ t = String c (s ++ t).
Proof. reflexivity. Qed.

Lemma append_nil_r (s : string) : s ++ "" = s.
Proof.
  induction s as [|c s IH]; [reflexivity|].
  rewrite append_cons, IH. reflexivity.
Qed.

Lemma append_assoc (a b c : string) : (a ++ b) ++ c = a ++ (b ++ c).
Proof.
  induction a as [|x a IH]; [reflexivity|].
  rewrite !append_cons, IH. reflexivity.
Qed.

(** Every byte of [s] satisfies [p]. *)
Fixpoint all_bytes (p : ascii -> bool) (s : string) : bool :=
  match s with
  | EmptyString => true
  | String c s' => (p c && all_bytes p s')%bool
  end.

(** [s] does not start with a byte that satisfies [p]. *)
Definition stops (p : ascii -> bool) (s : string) : bool :=
  match s with
  | EmptyString => true
  | String c _ => negb (p c)
  end.

Lemma all_bytes_app (p : ascii -> bool) (a b : string) :
  all_bytes p (a ++ b) = (all_bytes p a && all_bytes p b)%bool.
Proof.
  induction a as [|c a IH]; [reflexivity|].
  rewrite append_cons. cbn. rewrite IH, andb_assoc. reflexivity.
Qed.

Lemma span_spec (p : ascii -> bool) (s a b : string) :
  span p s = (a, b) ->
  s = a ++ b /\ all_bytes p a = true /\ stops p b = true.
Proof.
  revert a b. induction s as [|c s IH]; intros a b H; cbn in H.
  - inversion H; subst. repeat split.
  - destruct (p c) eqn:Hc.
    + destruct (span p s) as [a' b'] eqn:Hs. inversion H; subst.
      destruct (IH a' b eq_refl) as (E & A & S).
      rewrite append_cons. cbn. rewrite Hc, A. rewrite <- E. repeat split. exact S.
    + inversion H; subst. cbn. rewrite Hc. repeat split.
Qed.

Lemma span_app (p : ascii -> bool) (a b : string) :
  all_bytes p a = true -> stops p b = true -> span p (a ++ b) = (a, b).
Proof.
  intros Ha Hb. induction a as [|c a IH].
  - rewrite append_nil_l. destruct b as [|c b]; cbn in *; [reflexivity|].
    apply negb_true_iff in Hb. rewrite Hb. reflexivity.
  - rewrite append_cons. cbn in *.
    apply andb_true_iff in Ha as [Hc Ha]. rewrite Hc, (IH Ha). reflexivity.
Qed.

(** A string that starts with bytes of [q], none of which satisfies [p],
    and goes on with a string that does not start with [p], does not start
    with [p]. *)
Lemma stops_app (p q : ascii -> bool) (a b : string) :
  (forall c, q c = true -> p c = false) ->
  all_bytes q a = true -> stops p b = true -> stops p (a ++ b) = true.
Proof.
  intros Hqp Ha Hb. destruct a as [|c a]; [exact Hb|].
  rewrite append_cons. cbn in *.
  apply andb_true_iff in Ha as [Hc _]. rewrite (Hqp c Hc). reflexivity.
Qed.

End Strings.

(** Regular expressions over bytes, with the language they denote. *)
Inductive regex :=
| Void
| Eps
| Chr (p : ascii -> bool)
| Cat (r1 r2 : regex)
| Alt (r1 r2 : regex)
| Star (r : regex).

Inductive Matches : regex -> string -> Prop :=
| MEps : Matches Eps ""
| MChr (p : ascii -> bool) (c : ascii) : p c = true -> Matches (Chr p) (String c "")
| MCat (r1 r2 : regex) (s1 s2 : string) :
    Matches r1 s1 -> Matches r2 s2 -> Matches (Cat r1 r2) (s1 ++ s2)
| MAltL (r1 r2 : regex) (s : string) : Matches r1 s -> Matches (Alt r1 r2) s
| MAltR (r1 r2 : regex) (s : string) : Matches r2 s -> Matches (Alt r1 r2) s
| MStarNil (r : regex) : Matches (Star r) ""
| MStarApp (r : regex) (s1 s2 : string) :
    Matches r s1 -> Matches (Star r) s2 -> Matches (Star r) (s1 ++ s2).

Definition Plus (r : regex) : regex := Cat r (Star r).
Definition Opt (r : regex) : regex := Alt r Eps.

Fixpoint Lit (s : string) : regex :=
  match s with
  | EmptyString => Eps
  | String c s' => Cat (Chr (Ascii.eqb c)) (Lit s')
  end.

(** A literal in either case. *)
Fixpoint LitFold (s : string) : regex :=
  match s with
  | EmptyString => Eps
  | String c s' =>
      Cat (Chr (fun x => Ascii.eqb (lower_byte x) (lower_byte c))) (LitFold s')
  end.

Definition one_of (lit : string -> regex) (l : list string) : regex :=
  fold_right (fun s r => Alt (lit s) r) Void l.

(** The pattern of [ParseMemory], anchored at both ends:
    [^(\d+(?:\.\d+)?)\s*(Ki|Mi|Gi|Ti|K|M|G|T|k|m|g|t)?$]. *)
Definition number_re : regex :=
  Cat (Plus (Chr is_digit)) (Opt (Cat (Lit ".") (Plus (Chr is_digit)))).

Definition memoryRe : regex :=
  Cat number_re
    (Cat (Star (Chr is_re_space)) (Opt (one_of Lit memory_suffixes))).

(** The pattern of the specification,
    [^(\d+(\.\d+)?)(Ki|Mi|Gi|Ti|K|M|G|T)?$], matched without regard to
    case. *)
Definition stated_memoryRe : regex :=
  Cat number_re
    (Opt (one_of LitFold ("Ki" :: "Mi" :: "Gi" :: "Ti" :: "K" :: "M" :: "G" :: "T" :: nil))).

(** The bytes a pattern can match. *)
Fixpoint bytes_of (r : regex) (c : ascii) : bool :=
  match r with
  | Void | Eps => false
  | Chr p => p c
  | Cat r1 r2 | Alt r1 r2 => (bytes_of r1 c || bytes_of r2 c)%bool
  | Star r' => bytes_of r' c
  end.

Section Patterns.

Lemma all_bytes_impl (p q : ascii -> bool) (s : string) :
  (forall c, p c = true -> q c = true) ->
  all_bytes p s = true -> all_bytes q s = true.
Proof.
  intros Hpq. induction s as [|c s IH]; cbn; [reflexivity|].
  intros H. apply andb_true_iff in H as [A B].
  rewrite (Hpq c A), (IH B). reflexivity.
Qed.

Lemma Matches_bytes (r : regex) (s : string) :
  Matches r s -> all_bytes (bytes_of r) s = true.
Proof.
  induction 1.
  - reflexivity.
  - cbn. rewrite H. reflexivity.
  - rewrite all_bytes_app. apply andb_true_iff. split.
    + apply (all_bytes_impl (bytes_of r1)); [|exact IHMatches1].
      intros c Hc. cbn. rewrite Hc. reflexivity.
    + apply (all_bytes_impl (bytes_of r2)); [|exact IHMatches2].
      intros c Hc. cbn. rewrite Hc. apply orb_true_r.
  - apply (all_bytes_impl (bytes_of r1)); [|exact IHMatches].
    intros c Hc. cbn. rewrite Hc. reflexivity.
  - apply (all_bytes_impl (bytes_of r2)); [|exact IHMatches].
    intros c Hc. cbn. rewrite Hc. apply orb_true_r.
  - reflexivity.
  - rewrite all_bytes_app. apply andb_true_iff. split; [|exact IHMatches2].
    apply (all_bytes_impl (bytes_of r)); [|exact IHMatches1].
    intros c Hc. exact Hc.
Qed.

Lemma Matches_Cat_inv (r1 r2 : regex) (s : string) :
  Matches (Cat r1 r2) s ->
  exists s1 s2, s = s1 ++ s2 /\ Matches r1 s1 /\ Matches r2 s2.
Proof. intros H. inversion H; subst. eauto. Qed.

Lemma Matches_Alt_inv (r1 r2 : regex) (s : string) :
  Matches (Alt r1 r2) s -> Matches r1 s \/ Matches r2 s.
Proof. intros H. inversion H; subst; [left | right]; assumption. Qed.

Lemma Matches_Eps_inv (s : string) : Matches Eps s -> s = "".
Proof. intros H. inversion H. reflexivity. Qed.

Lemma Matches_Star_Chr (p : ascii -> bool) (s : string) :
  Matches (Star (Chr p)) s <-> all_bytes p s = true.
Proof.
  split.
  - intros H. apply Matches_bytes in H. exact H.
  - induction s as [|c s IH]; cbn; intros H.
    + constructor.
    + apply andb_true_iff in H as [Hc Hs].
      change (String c s) with (String c "" ++ s).
      apply MStarApp; [constructor; exact Hc | apply IH; exact Hs].
Qed.

Lemma Matches_Plus_Chr (p : ascii -> bool) (s : string) :
  Matches (Plus (Chr p)) s <-> s <> "" /\ all_bytes p s = true.
Proof.
  unfold Plus. split.
  - intros H. apply Matches_Cat_inv in H as (s1 & s2 & -> & H1 & H2).
    inversion H1; subst. apply Matches_Star_Chr in H2.
    rewrite append_cons, append_nil_l. cbn.
    split; [discriminate|]. rewrite H0, H2. reflexivity.
  - intros [Hne H]. destruct s as [|c s]; [contradiction|]. cbn in H.
    apply andb_true_iff in H as [Hc Hs].
    change (String c s) with (String c "" ++ s).
    constructor; [constructor; exact Hc | apply Matches_Star_Chr; exact Hs].
Qed.

Lemma Matches_Lit (t s : string) : Matches (Lit t) s <-> s = t.
Proof.
  revert s. induction t as [|c t IH]; intros s; cbn.
  - split; [apply Matches_Eps_inv | intros ->; constructor].
  - split.
    + intros H. apply Matches_Cat_inv in H as (s1 & s2 & -> & H1 & H2).
      inversion H1; subst. apply Ascii.eqb_eq in H0. subst.
      apply IH in H2. subst. rewrite append_cons, append_nil_l. reflexivity.
    + intros ->. change (String c t) with (String c "" ++ t).
      constructor; [constructor; apply Ascii.eqb_refl | apply IH; reflexivity].
Qed.

Lemma Matches_one_of_Lit (l : list string) (s : string) :
  Matches (one_of Lit l) s <-> In s l.
Proof.
  induction l as [|t l IH]; cbn.
  - split; [intros H; inversion H | intros []].
  - split.
    + intros H. apply Matches_Alt_inv in H as [H|H].
      * left. apply Matches_Lit in H. congruence.
      * right. apply IH. exact H.
    + intros [->|H]; [apply MAltL, Matches_Lit; reflexivity | apply MAltR, IH; exact H].
Qed.

End Patterns.

(** ** The memory pattern *)

Section MemoryPattern.

Definition is_dot (c : ascii) : bool := Ascii.eqb c ".".

Lemma space_not_digit (c : ascii) : is_re_space c = true -> is_digit c = false.
Proof.
  unfold is_re_space, is_digit. intros H.
  repeat (apply orb_true_iff in H as [H|H]);
    apply Nat.eqb_eq in H; rewrite H; reflexivity.
Qed.

Lemma space_not_dot (c : ascii) : is_re_space c = true -> is_dot c = false.
Proof.
  intros H. unfold is_dot. destruct (Ascii.eqb_spec c ".") as [->|]; [|reflexivity].
  discriminate H.
Qed.

Lemma digit_not_space (c : ascii) : is_digit c = true -> is_re_space c = false.
Proof.
  intros H. destruct (is_re_space c) eqn:E; [|reflexivity].
  apply space_not_digit in E. congruence.
Qed.

Lemma optional_suffix_spec (s : string) :
  optional_suffix s = true <-> s = "" \/ In s memory_suffixes.
Proof.
  unfold optional_suffix. rewrite orb_true_iff, String.eqb_eq, existsb_exists.
  split.
  - intros [H|(x & Hin & Hx)]; [left; exact H | right].
    apply String.eqb_eq in Hx. subst. exact Hin.
  - intros [H|H]; [left; exact H | right]. exists s. split; [exact H|].
    apply String.eqb_refl.
Qed.

(** A suffix starts with a letter. *)
Lemma suffix_stops (o : string) :
  o = "" \/ In o memory_suffixes ->
  stops is_digit o = true /\ stops is_dot o = true /\ stops is_re_space o = true.
Proof.
  intros [->|H]; [repeat split|].
  cbn in H. repeat (destruct H as [<-|H]; [repeat split|]). destruct H.
Qed.

Lemma tail_stops (p : ascii -> bool) (w o : string) :
  (forall c, is_re_space c = true -> p c = false) ->
  all_bytes is_re_space w = true -> stops p o = true -> stops p (w ++ o) = true.
Proof. intros Hp Hw Ho. apply (stops_app p is_re_space); assumption. Qed.

(** What the scanner does after the integer part. *)
Definition scan_after_integer (int_part rest : string) : option (string * string) :=
  let '(number, rest) :=
    match rest with
    | String c rest' =>
        if Ascii.eqb c "." then
          let '(frac, rest'') := span is_digit rest' in
          if String.eqb frac "" then (int_part, rest)
          else (int_part ++ "." ++ frac, rest'')
        else (int_part, rest)
    | EmptyString => (int_part, rest)
    end in
  let '(_, suffix) := span is_re_space rest in
  if optional_suffix suffix then Some (number, suffix) else None.

Lemma FindStringSubmatch_unfold (t : string) :
  memoryRe_FindStringSubmatch t =
    let '(int_part, rest) := span is_digit t in
    if String.eqb int_part "" then None else scan_after_integer int_part rest.
Proof. reflexivity. Qed.

(** Without a fraction. *)
Lemma scan_no_fraction (ip w o : string) :
  all_bytes is_re_space w = true ->
  o = "" \/ In o memory_suffixes ->
  scan_after_integer ip (w ++ o) = Some (ip, o).
Proof.
  intros Hw Ho. destruct (suffix_stops o Ho) as (_ & Hdot & Hsp).
  assert (Hstop : stops is_dot (w ++ o) = true)
    by (apply tail_stops; [exact space_not_dot | exact Hw | exact Hdot]).
  unfold scan_after_integer.
  assert (Hrest : match w ++ o with
                  | String c rest' =>
                      if Ascii.eqb c "." then
                        let '(frac, rest'') := span is_digit rest' in
                        if String.eqb frac "" then (ip, w ++ o)
                        else (ip ++ "." ++ frac, rest'')
                      else (ip, w ++ o)
                  | EmptyString => (ip, w ++ o)
                  end = (ip, w ++ o)).
  { destruct (w ++ o) as [|c r]; [reflexivity|].
    cbn in Hstop. unfold is_dot in Hstop. apply negb_true_iff in Hstop.
    rewrite Hstop. reflexivity. }
  rewrite Hrest. rewrite (span_app is_re_space w o Hw Hsp).
  apply optional_suffix_spec in Ho. rewrite Ho. reflexivity.
Qed.

(** With a fraction. *)
Lemma scan_fraction (ip fd w o : string) :
  fd <> "" -> all_bytes is_digit fd = true ->
  all_bytes is_re_space w = true ->
  o = "" \/ In o memory_suffixes ->
  scan_after_integer ip ("." ++ fd ++ w ++ o) = Some (ip ++ "." ++ fd, o).
Proof.
  intros Hne Hfd Hw Ho. destruct (suffix_stops o Ho) as (Hdig & _ & Hsp).
  assert (Hstop : stops is_digit (w ++ o) = true)
    by (apply tail_stops; [exact space_not_digit | exact Hw | exact Hdig]).
  unfold scan_after_integer. rewrite append_cons, append_nil_l.
  rewrite Ascii.eqb_refl.
  rewrite (span_app is_digit fd (w ++ o) Hfd Hstop).
  destruct (String.eqb_spec fd "") as [->|_]; [contradiction|].
  rewrite (span_app is_re_space w o Hw Hsp).
  apply optional_suffix_spec in Ho. rewrite Ho. reflexivity.
Qed.

(** The scanner's two groups, read back. *)
Lemma scan_after_integer_sound (ip rest num suf : string) :
  scan_after_integer ip rest = Some (num, suf) ->
  exists fo w,
    rest = fo ++ w ++ suf
    /\ num = ip ++ fo
    /\ (fo = "" \/ exists fd, fo = "." ++ fd /\ fd <> "" /\ all_bytes is_digit fd = true)
    /\ all_bytes is_re_space w = true
    /\ (suf = "" \/ In suf memory_suffixes).
Proof.
  unfold scan_after_integer. intros H.
  assert (Hplain : forall r,
            (let '(_, suffix) := span is_re_space r in
             if optional_suffix suffix then Some (ip, suffix) else None) = Some (num, suf) ->
            exists w, r = w ++ suf /\ num = ip
                      /\ all_bytes is_re_space w = true
                      /\ (suf = "" \/ In suf memory_suffixes)).
  { intros r Hr. destruct (span is_re_space r) as [w sfx] eqn:Hs.
    apply span_spec in Hs as (E & A & _).
    destruct (optional_suffix sfx) eqn:Ho; [|discriminate].
    inversion Hr; subst. exists w. repeat split; try assumption.
    apply optional_suffix_spec. exact Ho. }
  destruct rest as [|c rest'].
  - destruct (Hplain "" H) as (w & E & -> & A & O).
    exists "", w. rewrite append_nil_r.
    repeat split; try assumption. left. reflexivity.
  - destruct (Ascii.eqb_spec c ".") as [->|Hc].
    + destruct (span is_digit rest') as [fd rest''] eqn:Hs.
      destruct (String.eqb_spec fd "") as [->|Hne].
      * destruct (Hplain (String "." rest') H) as (w & E & -> & A & O).
        exists "", w. rewrite append_nil_r.
        repeat split; try assumption. left. reflexivity.
      * apply span_spec in Hs as (E & A & _).
        destruct (span is_re_space rest'') as [w sfx] eqn:Hs2.
        apply span_spec in Hs2 as (E2 & A2 & _).
        destruct (optional_suffix sfx) eqn:Ho; [|discriminate].
        inversion H; subst.
        exists ("." ++ fd), w.
        split; [reflexivity|].
        split; [reflexivity|].
        split; [right; exists fd; repeat split; assumption|].
        split; [exact A2|]. apply optional_suffix_spec. exact Ho.
    + destruct (Hplain (String c rest') H) as (w & E & -> & A & O).
      exists "", w. rewrite append_nil_r.
      repeat split; try assumption. left. reflexivity.
Qed.

Lemma Matches_number_re (ip fo : string) :
  ip <> "" -> all_bytes is_digit ip = true ->
  (fo = "" \/ exists fd, fo = "." ++ fd /\ fd <> "" /\ all_bytes is_digit fd = true) ->
  Matches number_re (ip ++ fo).
Proof.
  intros Hne Hip Hfo. unfold number_re. constructor.
  - apply Matches_Plus_Chr. split; assumption.
  - destruct Hfo as [->|(fd & -> & Hfne & Hfd)].
    + apply MAltR. constructor.
    + apply MAltL. constructor.
      * apply Matches_Lit. reflexivity.
      * apply Matches_Plus_Chr. split; assumption.
Qed.

Lemma Matches_number_re_inv (n : string) :
  Matches number_re n ->
  exists ip fo,
    n = ip ++ fo /\ ip <> "" /\ all_bytes is_digit ip = true
    /\ (fo = "" \/ exists fd, fo = "." ++ fd /\ fd <> "" /\ all_bytes is_digit fd = true).
Proof.
  unfold number_re. intros H.
  apply Matches_Cat_inv in H as (ip & fo & -> & H1 & H2).
  apply Matches_Plus_Chr in H1 as [Hne Hip].
  exists ip, fo. repeat split; try assumption.
  apply Matches_Alt_inv in H2 as [H2|H2].
  - right. apply Matches_Cat_inv in H2 as (d & fd & -> & Hd & Hfd).
    apply Matches_Lit in Hd. subst d.
    apply Matches_Plus_Chr in Hfd as [Hfne Hfd].
    exists fd. repeat split; assumption.
  - left. apply Matches_Eps_inv. exact H2.
Qed.

(** The scanner finds a match exactly on the language of the pattern. *)
Lemma FindStringSubmatch_matches (t : string) :
  (exists num suf, memoryRe_FindStringSubmatch t = Some (num, suf))
  <-> Matches memoryRe t.
Proof.
  rewrite FindStringSubmatch_unfold. split.
  - intros (num & suf & H).
    destruct (span is_digit t) as [ip rest] eqn:Hs.
    apply span_spec in Hs as (E & A & _).
    destruct (String.eqb_spec ip "") as [->|Hne]; [discriminate|].
    apply scan_after_integer_sound in H as (fo & w & -> & -> & Hfo & Hw & Ho).
    subst t. rewrite <- append_assoc. unfold memoryRe. constructor.
    + apply Matches_number_re; assumption.
    + constructor; [apply Matches_Star_Chr; exact Hw|].
      destruct Ho as [->|Ho]; [apply MAltR; constructor|].
      apply MAltL. apply Matches_one_of_Lit. exact Ho.
  - unfold memoryRe. intros H.
    apply Matches_Cat_inv in H as (n & r & -> & Hn & Hr).
    apply Matches_number_re_inv in Hn as (ip & fo & -> & Hne & Hip & Hfo).
    apply Matches_Cat_inv in Hr as (w & o & -> & Hw & Ho).
    apply Matches_Star_Chr in Hw.
    assert (Ho' : o = "" \/ In o memory_suffixes).
    { apply Matches_Alt_inv in Ho as [Ho|Ho].
      - right. apply Matches_one_of_Lit. exact Ho.
      - left. apply Matches_Eps_inv. exact Ho. }
    destruct (suffix_stops o Ho') as (Hdig & _ & _).
    rewrite append_assoc.
    assert (Hstop : stops is_digit (fo ++ w ++ o) = true).
    { destruct Hfo as [->|(fd & -> & _ & _)].
      - rewrite append_nil_l. apply tail_stops;
          [exact space_not_digit | exact Hw | exact Hdig].
      - reflexivity. }
    rewrite (span_app is_digit ip (fo ++ w ++ o) Hip Hstop).
    destruct (String.eqb_spec ip "") as [->|_]; [contradiction|].
    destruct Hfo as [->|(fd & -> & Hfne & Hfd)].
    + rewrite append_nil_l, scan_no_fraction by assumption. eauto.
    + rewrite append_assoc, scan_fraction by assumption. eauto.
Qed.

End MemoryPattern.

(** ** Parsing the numeric group *)

Section NumberLiterals.

Lemma digit_is_not (c x : ascii) :
  is_digit c = true -> is_digit x = false -> Ascii.eqb c x = false.
Proof.
  intros Hc Hx. destruct (Ascii.eqb_spec c x) as [->|]; [congruence | reflexivity].
Qed.

Lemma lower_byte_digit (c : ascii) : is_digit c = true -> lower_byte c = c.
Proof.
  unfold is_digit, lower_byte. intros H.
  apply andb_true_iff in H as [_ H]. apply Nat.leb_le in H.
  destruct (Nat.leb_spec 65 (nat_of_ascii c)); [lia|]. reflexivity.
Qed.

(** The first byte of a digit string is not one [special] or the sign
    test looks for. *)
Lemma special_digit (c : ascii) (s : string) :
  is_digit c = true -> special (String c s) = None.
Proof.
  intros H. unfold special.
  rewrite (digit_is_not c "+" H eq_refl), (digit_is_not c "-" H eq_refl).
  rewrite (lower_byte_digit c H).
  rewrite (digit_is_not c "i" H eq_refl), (digit_is_not c "n" H eq_refl).
  reflexivity.
Qed.

(** The digits of [ds] pushed on the mantissa state. *)
Fixpoint push_all (ds : string) (d : digits) : digits :=
  match ds with
  | EmptyString => d
  | String c ds' => push_all ds' (push_digit 10 (digit_val c) d)
  end.

Lemma push_all_flags (ds : string) (d : digits) :
  sawdot (push_all ds d) = sawdot d
  /\ underscores (push_all ds d) = underscores d
  /\ sawdigits (push_all ds d) = (sawdigits d || negb (String.eqb ds ""))%bool.
Proof.
  revert d. induction ds as [|c ds IH]; intros d; cbn.
  - rewrite orb_false_r. repeat split.
  - destruct (IH (push_digit 10 (digit_val c) d)) as (A & B & C).
    rewrite A, B, C. cbn. rewrite orb_true_r. repeat split.
Qed.

Lemma read_mantissa_digits (ds rest : string) (d : digits) :
  all_bytes is_digit ds = true ->
  read_mantissa false (ds ++ rest) d = read_mantissa false rest (push_all ds d).
Proof.
  revert d. induction ds as [|c ds IH]; intros d H; [reflexivity|].
  cbn in H. apply andb_true_iff in H as [Hc Hds].
  rewrite append_cons. cbn [read_mantissa push_all].
  rewrite (digit_is_not c "_" Hc eq_refl), (digit_is_not c "." Hc eq_refl), Hc.
  apply IH. exact Hds.
Qed.

(** The digit loop on a number of the memory pattern. *)
Lemma read_mantissa_number (ip fo : string) :
  ip <> "" -> all_bytes is_digit ip = true ->
  (fo = "" \/ exists fd, fo = "." ++ fd /\ fd <> "" /\ all_bytes is_digit fd = true) ->
  exists d,
    read_mantissa false (ip ++ fo) digits0 = (d, "")
    /\ sawdigits d = true /\ underscores d = false.
Proof.
  intros Hne Hip Hfo.
  rewrite (read_mantissa_digits ip fo digits0 Hip).
  destruct (push_all_flags ip digits0) as (Hdot & Hus & Hdig).
  assert (Hdig' : sawdigits (push_all ip digits0) = true).
  { rewrite Hdig. destruct (String.eqb_spec ip ""); [contradiction | reflexivity]. }
  destruct Hfo as [->|(fd & -> & Hfne & Hfd)].
  - exists (push_all ip digits0). repeat split; assumption.
  - rewrite append_cons, append_nil_l. cbn [read_mantissa].
    change (Ascii.eqb "." "_") with false. change (Ascii.eqb "." ".") with true.
    cbv iota. rewrite Hdot. cbn [sawdot digits0]. cbv iota.
    rewrite <- (append_nil_r fd).
    rewrite (read_mantissa_digits fd "" _ Hfd). cbn [read_mantissa].
    eexists. split; [reflexivity|].
    match goal with |- context [push_all fd ?d0] =>
      destruct (push_all_flags fd d0) as (_ & Hus' & Hdig'') end.
    rewrite Hus', Hdig''. cbn. rewrite Hdig', Hus. split; reflexivity.
Qed.

Lemma number_bytes (ip fo : string) :
  all_bytes is_digit ip = true ->
  (fo = "" \/ exists fd, fo = "." ++ fd /\ fd <> "" /\ all_bytes is_digit fd = true) ->
  all_bytes (fun c => is_digit c || is_dot c)%bool (ip ++ fo) = true.
Proof.
  intros Hip Hfo. rewrite all_bytes_app. apply andb_true_iff. split.
  - apply (all_bytes_impl is_digit); [|exact Hip]. intros c ->. reflexivity.
  - destruct Hfo as [->|(fd & -> & _ & Hfd)]; [reflexivity|].
    rewrite append_cons, append_nil_l. cbn. 
    apply (all_bytes_impl is_digit); [|exact Hfd]. intros c ->. reflexivity.
Qed.

Lemma not_hex_prefix (c : ascii) :
  (is_digit c || is_dot c)%bool = true -> Ascii.eqb (lower_byte c) "x" = false.
Proof.
  intros H. apply orb_true_iff in H as [H|H].
  - rewrite (lower_byte_digit c H). apply digit_is_not; [exact H | reflexivity].
  - unfold is_dot in H. apply Ascii.eqb_eq in H. subst. reflexivity.
Qed.

(** [readFloat] reads a number of the memory pattern to its end, as a
    decimal literal without sign. *)
Lemma readFloat_number (n : string) :
  Matches number_re n ->
  exists r, readFloat n = Some r
            /\ sc_rest r = "" /\ sc_neg r = false /\ sc_hex r = false.
Proof.
  intros H. apply Matches_number_re_inv in H as (ip & fo & -> & Hne & Hip & Hfo).
  destruct (read_mantissa_number ip fo Hne Hip Hfo) as (d & Hd & Hsd & Hus).
  pose proof (number_bytes ip fo Hip Hfo) as Hall.
  destruct ip as [|c ip']; [contradiction|].
  assert (Hc : is_digit c = true).
  { cbn in Hip. apply andb_true_iff in Hip as [Hc _]. exact Hc. }
  rewrite append_cons in *. unfold readFloat.
  rewrite (digit_is_not c "+" Hc eq_refl), (digit_is_not c "-" Hc eq_refl).
  assert (Hhex : (match String c (ip' ++ fo) with
                  | String c0 (String c1 (String c2 s3)) =>
                      if (Ascii.eqb c0 "0" && Ascii.eqb (lower_byte c1) "x")%bool
                      then (true, String c2 s3) else (false, String c (ip' ++ fo))
                  | _ => (false, String c (ip' ++ fo))
                  end) = (false, String c (ip' ++ fo))).
  { destruct (ip' ++ fo) as [|c1 [|c2 s3]] eqn:E; try reflexivity.
    cbn in Hall. apply andb_true_iff in Hall as [_ Hall].
    apply andb_true_iff in Hall as [H1 _].
    rewrite (not_hex_prefix c1 H1), andb_false_r. reflexivity. }
  rewrite Hhex, Hd, Hsd. cbn [negb]. cbn [read_exponent]. rewrite Hus.
  cbn [andb]. eexists. split; [reflexivity|]. cbn. repeat split.
Qed.

Lemma binary_round_aux_not_negative (mx ex : Z) (lx : location) :
  Float64.ltb (binary_round_aux prec emax false mx ex lx) (S754_zero false) = false.
Proof.
  unfold binary_round_aux.
  destruct (shr_fexp prec emax mx ex lx) as [mrs' e'].
  destruct (shr_fexp prec emax _ e' loc_Exact) as [mrs'' e''].
  destruct (shr_m mrs'') as [|m|m]; [reflexivity| |reflexivity].
  destruct (e'' <=? emax - prec); reflexivity.
Qed.

Lemma round_ratio_not_negative (n d : positive) :
  Float64.ltb (round_ratio false n d) (S754_zero false) = false.
Proof.
  unfold round_ratio.
  destruct (SFdiv_core_binary prec emax (Z.pos n) 0 (Z.pos d) 0) as [[q e] l].
  apply binary_round_aux_not_negative.
Qed.

(** [ParseFloat] on the numeric group of a match: never a syntax error,
    never a negative value; a range error exactly on an infinity. *)
Lemma ParseFloat_number (n : string) :
  Matches number_re n ->
  exists f,
    ParseFloat n = (f, if is_inf f then Some ErrRange else None)
    /\ Float64.ltb f (of_Z 0) = false.
Proof.
  intros H. pose proof H as H0.
  apply readFloat_number in H as (r & Hr & Hrest & Hneg & Hhex).
  apply Matches_number_re_inv in H0 as (ip & fo & -> & Hne & Hip & _).
  destruct ip as [|c ip']; [contradiction|].
  cbn in Hip. apply andb_true_iff in Hip as [Hc _].
  rewrite append_cons in *.
  unfold ParseFloat. rewrite (special_digit c _ Hc), Hr, Hrest.
  eexists. split; [reflexivity|].
  unfold scanned_value. rewrite Hneg, Hhex.
  destruct (sc_mant r) as [|m|m]; [reflexivity| |reflexivity].
  destruct (0 <=? sc_exp r); apply round_ratio_not_negative.
Qed.

End NumberLiterals.

(** ** Memory limits *)

Section MemoryLimits.

(** The unit a suffix stands for: powers of 1024 for K, M, G and T, with or
    without the [i], bytes without suffix. *)
Definition suffix_unit (suffix : string) : Z :=
  match suffix with
  | EmptyString => 1
  | String c _ =>
      if Ascii.eqb (upper_byte c) "K" then 1024
      else if Ascii.eqb (upper_byte c) "M" then 1024 ^ 2
      else if Ascii.eqb (upper_byte c) "G" then 1024 ^ 3
      else if Ascii.eqb (upper_byte c) "T" then 1024 ^ 4
      else 1
  end.

(** The default of the [switch] is never reached. *)
Lemma suffix_multiplier_total (suf : string) :
  suf = "" \/ In suf memory_suffixes ->
  suffix_multiplier (ToUpper suf) = Some (suffix_unit suf).
Proof.
  intros [->|H]; [reflexivity|].
  cbn in H. repeat (destruct H as [<-|H]; [reflexivity|]). destruct H.
Qed.

Lemma FindStringSubmatch_groups (t num suf : string) :
  memoryRe_FindStringSubmatch t = Some (num, suf) ->
  Matches number_re num
  /\ (suf = "" \/ In suf memory_suffixes)
  /\ exists w, t = num ++ w ++ suf /\ all_bytes is_re_space w = true.
Proof.
  rewrite FindStringSubmatch_unfold. intros H.
  destruct (span is_digit t) as [ip rest] eqn:Hs.
  apply span_spec in Hs as (E & A & _).
  destruct (String.eqb_spec ip "") as [->|Hne]; [discriminate|].
  apply scan_after_integer_sound in H as (fo & w & -> & -> & Hfo & Hw & Ho).
  split; [apply Matches_number_re; assumption|]. split; [exact Ho|].
  exists w. split; [|exact Hw]. rewrite E, append_assoc. reflexivity.
Qed.

(** [ParseMemory] by cases on the match and on the range of the number. *)
Lemma ParseMemory_cases (s : string) :
  match memoryRe_FindStringSubmatch (TrimSpace s) with
  | None => is_err (ParseMemory s) = true
  | Some (num, suf) =>
      if is_inf (fst (ParseFloat num))
      then is_err (ParseMemory s) = true
      else ParseMemory s
           = Ok (to_int64 (Float64.mul (fst (ParseFloat num)) (of_Z (suffix_unit suf))))
  end.
Proof.
  unfold ParseMemory.
  destruct (String.eqb_spec (TrimSpace s) "") as [->|Hne]; [reflexivity|].
  destruct (memoryRe_FindStringSubmatch (TrimSpace s)) as [[num suf]|] eqn:Hm;
    [|reflexivity].
  apply FindStringSubmatch_groups in Hm as (Hnum & Hsuf & _).
  destruct (ParseFloat_number num Hnum) as (f & Hf & Hpos).
  rewrite Hf. cbn [fst].
  destruct (is_inf f); [reflexivity|].
  rewrite Hpos, (suffix_multiplier_total suf Hsuf). reflexivity.
Qed.

Lemma sign_does_not_match (t : string) :
  memoryRe_FindStringSubmatch (String "-" t) = None.
Proof. reflexivity. Qed.

(** Whole numbers of units, as text with each suffix. *)
Definition whole_units_exact (n : Z) : bool :=
  forallb (fun suf =>
             match ParseMemory (itoa n ++ suf) with
             | Ok b => b =? n * suffix_unit suf
             | Err _ => false
             end)
    ("" :: memory_suffixes).

Lemma whole_units_grid :
  forallb whole_units_exact (List.map Z.of_nat (seq 1 (Z.to_nat 2048))) = true.
Proof. vm_compute. reflexivity. Qed.

Lemma whole_units (n : Z) (suf : string) :
  1 <= n <= 2048 -> suf = "" \/ In suf memory_suffixes ->
  ParseMemory (itoa n ++ suf) = Ok (n * suffix_unit suf).
Proof.
  intros Hn Hsuf.
  assert (Hin : In n (List.map Z.of_nat (seq 1 (Z.to_nat 2048)))).
  { apply in_map_iff. exists (Z.to_nat n). split; [lia|]. apply in_seq. lia. }
  pose proof (proj1 (forallb_forall _ _) whole_units_grid n Hin) as H.
  unfold whole_units_exact in H.
  assert (Hs : In suf ("" :: memory_suffixes)).
  { destruct Hsuf as [->|Hs]; [left; reflexivity | right; exact Hs]. }
  pose proof (proj1 (forallb_forall _ _) H suf Hs) as H'. cbv beta in H'.
  destruct (ParseMemory (itoa n ++ suf)) as [b|]; [|discriminate].
  apply Z.eqb_eq in H'. subst. reflexivity.
Qed.

End MemoryLimits.

(** C7 (as stated) fails in both directions: [8gi] matches the pattern of
    the specification without regard to case and is rejected; [8 Gi] does
    not match it and is accepted. *)
Lemma C7_counterexample :
  Matches stated_memoryRe "8gi"
  /\ is_err (ParseMemory "8gi") = true
  /\ ParseMemory "8 Gi" = Ok (8 * 1024 ^ 3)
  /\ ~ Matches stated_memoryRe "8 Gi".
Proof.
  split; [|split; [reflexivity|split; [reflexivity|]]].
  - unfold stated_memoryRe. apply (MCat _ _ "8" "gi").
    + apply (Matches_number_re "8" ""); [discriminate | reflexivity | left; reflexivity].
    + apply MAltL. unfold one_of. cbn [fold_right].
      apply MAltR, MAltR, MAltL. cbn [LitFold].
      apply (MCat _ _ "g" "i"); [constructor; reflexivity|].
      apply (MCat _ _ "i" ""); [constructor; reflexivity | constructor].
  - intros H. apply Matches_bytes in H. vm_compute in H. discriminate H.
Qed.

(** C7 (amended). After trimming, [ParseMemory] accepts exactly the
    strings that match [^(\d+(\.\d+)?)\s*(Ki|Mi|Gi|Ti|K|M|G|T|k|m|g|t)?$]
    as written (white space may separate the number from the suffix; the
    suffixes with [i] only in that spelling, the one-letter ones in either
    case) and whose number is within the range of [float64]; every other
    string, among them the empty one, a malformed one and one with a sign,
    is an error.  No suffix means bytes and every suffix is binary: the
    result is the [float64] product of the number and the power of 1024,
    truncated (exact for the whole numbers up to 2048 with any suffix).
    The examples of the specification hold. *)
Theorem C7_ParseMemory_accepts_the_pattern :
  (forall s : string,
      is_ok (ParseMemory s) = true <->
      exists num suf,
        memoryRe_FindStringSubmatch (TrimSpace s) = Some (num, suf)
        /\ is_inf (fst (ParseFloat num)) = false)
  /\ (forall t : string,
         (exists num suf, memoryRe_FindStringSubmatch t = Some (num, suf))
         <-> Matches memoryRe t)
  /\ (forall s num suf : string,
         memoryRe_FindStringSubmatch (TrimSpace s) = Some (num, suf) ->
         is_inf (fst (ParseFloat num)) = false ->
         ParseMemory s
         = Ok (to_int64 (Float64.mul (fst (ParseFloat num)) (of_Z (suffix_unit suf)))))
  /\ (forall s t : string, TrimSpace s = String "-" t -> is_err (ParseMemory s) = true)
  /\ (forall (n : Z) (suf : string),
         1 <= n <= 2048 -> suf = "" \/ In suf memory_suffixes ->
         ParseMemory (itoa n ++ suf) = Ok (n * suffix_unit suf))
  /\ ParseMemory "8Gi" = Ok (8 * 1024 ^ 3)
  /\ ParseMemory "512Mi" = Ok (512 * 1024 ^ 2)
  /\ ParseMemory "1024" = Ok 1024
  /\ ParseMemory "1.5G" = Ok (3 * 1024 ^ 3 / 2)
  /\ is_err (ParseMemory "-1") = true
  /\ is_err (ParseMemory "8Xi") = true
  /\ is_err (ParseMemory "") = true.
Proof.
  split; [|split; [|split; [|split; [|split]]]].
  - intros s. pose proof (ParseMemory_cases s) as H. split.
    + intros Hok.
      destruct (memoryRe_FindStringSubmatch (TrimSpace s)) as [[num suf]|].
      * exists num, suf. split; [reflexivity|].
        destruct (is_inf (fst (ParseFloat num))); [|reflexivity].
        unfold is_err in H. rewrite Hok in H. discriminate H.
      * unfold is_err in H. rewrite Hok in H. discriminate H.
    + intros (num & suf & Hm & Hinf). rewrite Hm, Hinf in H. rewrite H. reflexivity.
  - exact FindStringSubmatch_matches.
  - intros s num suf Hm Hinf. pose proof (ParseMemory_cases s) as H.
    rewrite Hm, Hinf in H. exact H.
  - intros s t Ht. pose proof (ParseMemory_cases s) as H.
    rewrite Ht, sign_does_not_match in H. exact H.
  - exact whole_units.
  - repeat split; reflexivity.
Qed.

(** [8 Gi], with white space before the suffix, is 8 GiB. *)
Lemma C7_witness :
  ParseMemory "8 Gi"
  = Ok (to_int64 (Float64.mul (fst (ParseFloat "8")) (of_Z (suffix_unit "Gi")))).
Proof.
  apply (proj1 (proj2 (proj2 C7_ParseMemory_accepts_the_pattern)) "8 Gi" "8" "Gi");
    reflexivity.
Defined.

(** ** Trimming a number *)

Section Trimming.

Lemma rev_append_app (a b acc : string) :
  GoStrings.rev_append (a ++ b) acc = GoStrings.rev_append b (GoStrings.rev_append a acc).
Proof.
  revert acc. induction a as [|c a IH]; intros acc; [reflexivity|].
  rewrite append_cons. cbn. apply IH.
Qed.

Lemma rev_append_rev_append (s a b : string) :
  GoStrings.rev_append (GoStrings.rev_append s a) b = GoStrings.rev_append a (s ++ b).
Proof.
  revert a b. induction s as [|c s IH]; intros a b; [reflexivity|].
  cbn [GoStrings.rev_append]. rewrite IH, append_cons. reflexivity.
Qed.

Lemma rev_rev (s : string) : GoStrings.rev (GoStrings.rev s) = s.
Proof.
  unfold GoStrings.rev. rewrite rev_append_rev_append. cbn. apply append_nil_r.
Qed.

(** A string that ends with digits starts, reversed, with a digit. *)
Lemma rev_append_digits (s acc : string) :
  s <> "" -> all_bytes is_digit s = true ->
  exists c r, GoStrings.rev_append s acc = String c r /\ is_digit c = true.
Proof.
  revert acc. induction s as [|c s IH]; intros acc Hne H; [contradiction|].
  cbn in H. apply andb_true_iff in H as [Hc Hs]. cbn [GoStrings.rev_append].
  destruct s as [|c' s'].
  - exists c, acc. split; [reflexivity | exact Hc].
  - apply IH; [discriminate | exact Hs].
Qed.

(** No rune of [runes] starts with a digit. *)
Definition no_digit_head (runes : list string) : bool :=
  forallb (fun p => match p with
                    | String a _ => negb (is_digit a)
                    | EmptyString => false
                    end) runes.

Lemma strip_first_digit (runes : list string) (c : ascii) (s : string) :
  no_digit_head runes = true -> is_digit c = true ->
  strip_first runes (String c s) = None.
Proof.
  intros Hr Hc. induction runes as [|p runes IH]; [reflexivity|].
  cbn in Hr. apply andb_true_iff in Hr as [Hp Hr].
  destruct p as [|a p']; [discriminate|]. apply negb_true_iff in Hp.
  cbn [strip_first strip_prefix].
  destruct (Ascii.eqb_spec a c) as [->|_]; [congruence|].
  apply IH. exact Hr.
Qed.

Lemma trim_left_digit (fuel : nat) (runes : list string) (c : ascii) (s : string) :
  no_digit_head runes = true -> is_digit c = true ->
  trim_left_fuel fuel runes (String c s) = String c s.
Proof.
  intros Hr Hc. destruct fuel as [|fuel]; [reflexivity|].
  cbn [trim_left_fuel]. rewrite (strip_first_digit runes c s Hr Hc). reflexivity.
Qed.

(** [TrimSpace] leaves a string alone that starts and ends with a digit. *)
Lemma TrimSpace_number (n : string) : Matches number_re n -> TrimSpace n = n.
Proof.
  intros H. apply Matches_number_re_inv in H as (ip & fo & -> & Hne & Hip & Hfo).
  assert (Hrev : exists c r, GoStrings.rev (ip ++ fo) = String c r /\ is_digit c = true).
  { unfold GoStrings.rev. rewrite rev_append_app.
    destruct Hfo as [->|(fd & -> & Hfne & Hfd)].
    - cbn [GoStrings.rev_append]. apply rev_append_digits; assumption.
    - rewrite append_cons, append_nil_l. cbn [GoStrings.rev_append].
      apply rev_append_digits; assumption. }
  destruct ip as [|c ip']; [contradiction|].
  cbn in Hip. apply andb_true_iff in Hip as [Hc _].
  destruct Hrev as (c' & r & Hrev & Hc').
  rewrite append_cons in *.
  set (n := String c (ip' ++ fo)) in *.
  assert (Hleft : TrimLeftSpace n = n).
  { unfold TrimLeftSpace. subst n.
    apply (trim_left_digit _ space_runes c _ eq_refl Hc). }
  unfold TrimSpace. rewrite Hleft. unfold TrimRightSpace. rewrite Hrev.
  rewrite (trim_left_digit _ (List.map GoStrings.rev space_runes) c' r eq_refl Hc').
  rewrite <- Hrev. apply rev_rev.
Qed.

End Trimming.

(** ** CPU limits *)

Section CPULimits.

(** The decimal numbers of the specification: an optional sign, digits,
    and an optional fraction, with at least one digit; the value is the
    numerator over the power of ten. *)
Fixpoint digits_value (s : string) (acc : Z) : Z :=
  match s with
  | EmptyString => acc
  | String c s' => digits_value s' (acc * 10 + digit_val c)
  end.

Definition decimal_value (s : string) : option (Z * Z) :=
  let '(neg, body) :=
    match s with
    | String c r =>
        if Ascii.eqb c "-" then (true, r)
        else if Ascii.eqb c "+" then (false, r)
        else (false, s)
    | EmptyString => (false, s)
    end in
  let '(ip, rest) := span is_digit body in
  let '(fp, rest') :=
    match rest with
    | String c r => if Ascii.eqb c "." then span is_digit r else ("", rest)
    | EmptyString => ("", rest)
    end in
  if (negb (String.eqb rest' "") || (String.eqb ip "" && String.eqb fp ""))%bool
  then None
  else Some ((if neg then -1 else 1) * digits_value (ip ++ fp) 0,
             10 ^ Z.of_nat (String.length fp)).

(** When the specification has [ParseCPU] fail: the trimmed input is
    empty, is not a decimal number, or has a value that is not positive. *)
Definition stated_ParseCPU_rejects (s : string) : bool :=
  let t := TrimSpace s in
  (String.eqb t ""
   || match decimal_value t with
      | None => true
      | Some (n, d) => n <=? 0
      end)%bool.

(** The quota of the specification: [c * 100000] rounded to the nearest
    integer. *)
Definition stated_quota (s : string) : option Z :=
  match decimal_value (TrimSpace s) with
  | Some (n, d) => Some ((2 * (n * 100000) + d) / (2 * d))
  | None => None
  end.

(** A decimal number with [n] zeros between the point and a final 1. *)
Fixpoint zeros (n : nat) (s : string) : string :=
  match n with
  | O => s
  | S n' => String "0" (zeros n' s)
  end.

Definition tiny_decimal : string := "0." ++ zeros 400 "1".

Lemma positive_not_le (f : float64) :
  Float64.ltb (of_Z 0) f = true -> Float64.leb f (of_Z 0) = false.
Proof.
  change (of_Z 0) with (S754_zero false).
  destruct f as [s|s| |s m e]; cbn; try discriminate.
  - destruct s; [discriminate | reflexivity].
  - destruct s; [discriminate | reflexivity].
Qed.

(** [ParseCPU] by cases on what [ParseFloat] returns. *)
Lemma ParseCPU_cases (s : string) :
  ParseCPU s =
    let t := TrimSpace s in
    if String.eqb t "" then Err (Errorf "empty CPU value")
    else match snd (ParseFloat t) with
         | Some e => Err (ErrorfW ("invalid CPU value '" ++ t ++ "'") (NumErr e))
         | None =>
             if Float64.leb (fst (ParseFloat t)) (of_Z 0)
             then Err (Errorf ("CPU value must be positive: " ++ t))
             else Ok (to_int64 (Float64.mul (fst (ParseFloat t)) (of_Z 100000)))
         end.
Proof.
  unfold ParseCPU. cbv zeta.
  destruct (String.eqb (TrimSpace s) ""); [reflexivity|].
  destruct (ParseFloat (TrimSpace s)) as [f [e|]]; reflexivity.
Qed.

(** The integer part of a finite float that is not negative. *)
Lemma trunc_floor (m : positive) (e z : Z) :
  trunc (S754_finite false m e) = Some z ->
  (0 <= e -> z = Z.pos m * 2 ^ e)
  /\ (e < 0 -> z * 2 ^ (- e) <= Z.pos m < (z + 1) * 2 ^ (- e)).
Proof.
  cbn. intros H. inversion H; subst; clear H. split.
  - intros He. apply Z.leb_le in He. rewrite He. reflexivity.
  - intros He. destruct (Z.leb_spec 0 e) as [|_]; [lia|].
    assert (Hp : 0 < 2 ^ (- e)) by (apply Z.pow_pos_nonneg; lia).
    pose proof (Z.mul_div_le (Z.pos m) (2 ^ (- e)) Hp).
    pose proof (Z.mul_succ_div_gt (Z.pos m) (2 ^ (- e)) Hp).
    nia.
Qed.

(** The percentage without wrap-around. *)
Lemma cpuPercent_small (q : Z) :
  0 <= q <= 92233720368547758 -> cpuPercent q = q * 100 / 100000.
Proof.
  intros Hq. unfold cpuPercent, wrap64, DefaultCPUPeriod.
  assert (Hw : (q * 100 + 2 ^ 63) mod 2 ^ 64 - 2 ^ 63 = q * 100).
  { rewrite Z.mod_small; [lia|]. change (2 ^ 63) with 9223372036854775808.
    change (2 ^ 64) with 18446744073709551616. lia. }
  rewrite Hw. apply Z.quot_div_nonneg; lia.
Qed.

Definition is_zero (f : float64) : bool :=
  match f with
  | S754_zero _ => true
  | _ => false
  end.

Lemma not_negative_le (f : float64) :
  Float64.ltb f (of_Z 0) = false -> is_inf f = false ->
  Float64.leb f (of_Z 0) = is_zero f.
Proof.
  change (of_Z 0) with (S754_zero false).
  destruct f as [s|s| |s m e]; cbn; try reflexivity; try discriminate.
  destruct s; [discriminate | reflexivity].
Qed.

(** On a decimal literal without sign [ParseCPU] fails exactly when the
    nearest [float64] is zero or out of range. *)
Lemma ParseCPU_number (n : string) :
  Matches number_re n ->
  is_err (ParseCPU n)
  = (is_inf (fst (ParseFloat n)) || is_zero (fst (ParseFloat n)))%bool.
Proof.
  intros H. rewrite ParseCPU_cases, (TrimSpace_number n H). cbv zeta.
  destruct (ParseFloat_number n H) as (f & Hf & Hpos).
  assert (Hne : String.eqb n "" = false).
  { apply Matches_number_re_inv in H as (ip & fo & -> & Hne & _).
    destruct ip; [contradiction | reflexivity]. }
  rewrite Hne, Hf. cbn [fst snd].
  destruct (is_inf f) eqn:Hinf; [reflexivity|].
  rewrite (not_negative_le f Hpos Hinf). cbn [orb].
  destruct (is_zero f); reflexivity.
Qed.

(** The command [setCPULimitViaSystemd] runs. *)
Lemma setCPULimitViaSystemd_command (m : CgroupManager) (namespace : string)
    (q : Z) (w : World) :
  commands (snd (setCPULimitViaSystemd m namespace q w))
  = (commands w ++
     systemctl_set_property (getSliceName m namespace)
       ("CPUQuota=" ++ itoa (cpuPercent q) ++ "%") :: nil)%list.
Proof.
  unfold setCPULimitViaSystemd, exec_CombinedOutput, bind, ret, get, log, modify.
  cbn [env commands set_logs set_commands].
  match goal with
  | |- context [command_fails ?e ?a] => destruct (command_fails e a)
  end; reflexivity.
Qed.

(** Core counts with two decimals, as text: [hundredths 250] is "2.50". *)
Definition two_digits (k : Z) : string :=
  (if k <? 10 then "0" else "") ++ itoa k.

Definition hundredths (k : Z) : string :=
  itoa (k / 100) ++ "." ++ two_digits (k mod 100).

(** The quota of [k] hundredths of a core is [k * 1000] microseconds, or
    one less. *)
Definition within_one (k : Z) : bool :=
  match ParseCPU (hundredths k) with
  | Ok q => (k * 1000 - 1 <=? q) && (q <=? k * 1000)
  | Err _ => false
  end.

Lemma hundredths_grid :
  forallb within_one (List.map Z.of_nat (seq 1 (Z.to_nat 6400))) = true.
Proof. vm_compute. reflexivity. Qed.

Lemma hundredths_within_one (k : Z) :
  1 <= k <= 6400 ->
  exists q, ParseCPU (hundredths k) = Ok q /\ k * 1000 - 1 <= q <= k * 1000.
Proof.
  intros Hk.
  assert (Hin : In k (List.map Z.of_nat (seq 1 (Z.to_nat 6400)))).
  { apply in_map_iff. exists (Z.to_nat k). split; [lia|]. apply in_seq. lia. }
  pose proof (proj1 (forallb_forall _ _) hundredths_grid k Hin) as H.
  unfold within_one in H. destruct (ParseCPU (hundredths k)) as [q|]; [|discriminate].
  exists q. split; [reflexivity|]. apply andb_true_iff in H as [A B]. lia.
Qed.

End CPULimits.

(** C5 (as stated) fails in both directions: [Inf] is not a decimal number
    and [ParseCPU] returns no error for it; a positive decimal number below
    the smallest [float64] is an error. *)
Lemma C5_counterexample :
  stated_ParseCPU_rejects "Inf" = true
  /\ is_err (ParseCPU "Inf") = false
  /\ stated_ParseCPU_rejects tiny_decimal = false
  /\ is_err (ParseCPU tiny_decimal) = true.
Proof. repeat split; vm_compute; reflexivity. Qed.

(** C5 (amended). [ParseCPU] returns 400000 for "4" and 50000 for "0.5";
    it returns an error when the trimmed input is empty, when
    [strconv.ParseFloat] refuses it (not a floating-point literal, or out
    of the range of [float64]) and when the parsed value is at most 0 (so
    for "" and for "-1", and for positive decimals that round to 0); it
    returns the quota, without error, when the parsed value is finite and
    positive.  On a decimal literal without sign (digits, with or without
    a fraction) there is no syntax error, and [ParseCPU] fails exactly when
    the nearest [float64] is zero or out of range. *)
Theorem C5_ParseCPU_errors :
  ParseCPU "4" = Ok 400000
  /\ ParseCPU "0.5" = Ok 50000
  /\ is_err (ParseCPU "") = true
  /\ is_err (ParseCPU "-1") = true
  /\ (forall s, TrimSpace s = "" -> is_err (ParseCPU s) = true)
  /\ (forall s, snd (ParseFloat (TrimSpace s)) <> None -> is_err (ParseCPU s) = true)
  /\ (forall s,
         Float64.leb (fst (ParseFloat (TrimSpace s))) (of_Z 0) = true ->
         is_err (ParseCPU s) = true)
  /\ (forall s,
         TrimSpace s <> "" ->
         snd (ParseFloat (TrimSpace s)) = None ->
         is_finite (fst (ParseFloat (TrimSpace s))) = true ->
         Float64.ltb (of_Z 0) (fst (ParseFloat (TrimSpace s))) = true ->
         ParseCPU s
         = Ok (to_int64 (Float64.mul (fst (ParseFloat (TrimSpace s))) (of_Z 100000))))
  /\ (forall n, Matches number_re n -> snd (ParseFloat n) <> Some ErrSyntax)
  /\ (forall n,
         Matches number_re n ->
         is_err (ParseCPU n)
         = (is_inf (fst (ParseFloat n)) || is_zero (fst (ParseFloat n)))%bool).
Proof.
  split; [reflexivity|]. split; [reflexivity|].
  split; [reflexivity|]. split; [reflexivity|].
  split; [|split; [|split; [|split; [|split; [|exact ParseCPU_number]]]]].
  - intros s H. rewrite ParseCPU_cases. cbv zeta. rewrite H. reflexivity.
  - intros s H. rewrite ParseCPU_cases. cbv zeta.
    destruct (String.eqb (TrimSpace s) ""); [reflexivity|].
    destruct (snd (ParseFloat (TrimSpace s))); [reflexivity | contradiction].
  - intros s H. rewrite ParseCPU_cases. cbv zeta.
    destruct (String.eqb (TrimSpace s) ""); [reflexivity|].
    destruct (snd (ParseFloat (TrimSpace s))); [reflexivity|].
    rewrite H. reflexivity.
  - intros s Hne Herr _ Hpos. rewrite ParseCPU_cases. cbv zeta.
    destruct (String.eqb_spec (TrimSpace s) ""); [contradiction|].
    rewrite Herr, (positive_not_le _ Hpos). reflexivity.
  - intros n Hn. destruct (ParseFloat_number n Hn) as (f & Hf & _).
    rewrite Hf. cbn. destruct (is_inf f); discriminate.
Qed.

(** A fractional value between white space. *)
Lemma C5_witness :
  ParseCPU " 2.5 "
  = Ok (to_int64 (Float64.mul (fst (ParseFloat (TrimSpace " 2.5 "))) (of_Z 100000))).
Proof.
  apply (proj1 (proj2 (proj2 (proj2 (proj2 (proj2 (proj2 (proj2 C5_ParseCPU_errors))))))));
    [discriminate | reflexivity | reflexivity | reflexivity].
Defined.

(** C6 (as stated) fails: 0.000017 cores are 1.7 microseconds, which round
    to 2, and the quota is 1; 0.29 cores are exactly 29000 microseconds, and
    the quota is 28999. *)
Lemma C6_counterexample :
  stated_quota "0.000017" = Some 2
  /\ ParseCPU "0.000017" = Ok 1
  /\ stated_quota "0.29" = Some 29000
  /\ ParseCPU "0.29" = Ok 28999.
Proof. repeat split; vm_compute; reflexivity. Qed.

(** C6 (amended). For every CPU string that parses to a finite positive
    [float64] [c], the quota is the [float64] product of [c] and 100000 with
    its fraction discarded (truncation, not rounding: 1 for 0.000017 and
    28999 for 0.29); for core counts with two decimals up to 64 cores it is
    the exact number of microseconds or one less.  The property passed to
    the service manager is [CPUQuota=<pct>%] with
    [pct = quota_us * 100 / 100000] in [int64] arithmetic (without
    wrap-around up to 92233720368547758 microseconds). *)
Theorem C6_quota_truncated_and_percentage :
  (forall (s : string) (c : float64),
      TrimSpace s <> "" ->
      ParseFloat (TrimSpace s) = (c, None) ->
      is_finite c = true ->
      Float64.ltb (of_Z 0) c = true ->
      let product := Float64.mul c (of_Z 100000) in
      ParseCPU s = Ok (to_int64 product)
      /\ (forall m e z,
             product = S754_finite false m e -> trunc product = Some z ->
             (0 <= e -> z = Z.pos m * 2 ^ e)
             /\ (e < 0 -> z * 2 ^ (- e) <= Z.pos m < (z + 1) * 2 ^ (- e))))
  /\ (forall k : Z,
         1 <= k <= 6400 ->
         exists q, ParseCPU (hundredths k) = Ok q /\ k * 1000 - 1 <= q <= k * 1000)
  /\ (forall (m : CgroupManager) (namespace : string) (q : Z) (w : World),
         commands (snd (setCPULimitViaSystemd m namespace q w))
         = (commands w ++
            systemctl_set_property (getSliceName m namespace)
              ("CPUQuota=" ++ itoa (cpuPercent q) ++ "%") :: nil)%list
         /\ cpuPercent q = Z.quot (wrap64 (q * 100)) DefaultCPUPeriod
         /\ (0 <= q <= 92233720368547758 -> cpuPercent q = q * 100 / 100000)).
Proof.
  split; [|split].
  - intros s c Hne Hparse Hfin Hpos product. split.
    + rewrite ParseCPU_cases. cbv zeta.
      destruct (String.eqb_spec (TrimSpace s) ""); [contradiction|].
      rewrite Hparse. cbn [fst snd]. rewrite (positive_not_le c Hpos). reflexivity.
    + intros m e z Hp Hz. rewrite Hp in Hz. apply trunc_floor. exact Hz.
  - exact hundredths_within_one.
  - intros m namespace q w. split; [apply setCPULimitViaSystemd_command|].
    split; [reflexivity | apply cpuPercent_small].
Qed.

(** Four cores: 400000 microseconds, [CPUQuota=400%]. *)
Lemma C6_witness :
  ParseCPU "4" = Ok 400000
  /\ cpuPercent 400000 = 400
  /\ "CPUQuota=" ++ itoa (cpuPercent 400000) ++ "%" = "CPUQuota=400%".
Proof.
  destruct (proj1 C6_quota_truncated_and_percentage "4" (fst (ParseFloat "4")))
    as (H1 & _); [discriminate | reflexivity | reflexivity | reflexivity |].
  split; [exact H1|]. split; reflexivity.
Defined.

(** ** The end-to-end scenarios of the specification *)

(** Scenario 1: the declaration of [tenant-a] with 4 cores and 8Gi, on a
    quiet node: the slice directory is created under the parent slice, the
    two properties are set through the service manager, the status is
    ready and the event is [CgroupConfigured]. *)
Example scenario_configure :
  let u := quota_declaration "tenant-a-quota" "tenant-a" (Present true) in
  let e := {| store := fun _ => Found (ItemUnstructured u);
              inaccessible := inaccessible Samples.quiet;
              busy := busy Samples.quiet;
              mkdir_fails := mkdir_fails Samples.quiet;
              write_fails := write_fails Samples.quiet;
              command_fails := command_fails Samples.quiet;
              api_get_fails := api_get_fails Samples.quiet;
              api_update_fails := api_update_fails Samples.quiet;
              now := now Samples.quiet;
              counters := counters Samples.quiet |} in
  let r := reconcile Samples.controller "tenant-a-quota"
             (Samples.world_of e ∅ Workqueue.empty) in
  fst r = None
  /\ GetSlicePath Samples.manager "tenant-a" = Samples.tenant_a_slice
  /\ (Samples.tenant_a_slice ∈ dirs (snd r))
  /\ commands (snd r)
     = (systemctl_set_property "brasa-tenant-a.slice" "CPUQuota=400%"
        :: systemctl_set_property "brasa-tenant-a.slice" "MemoryMax=8G" :: nil)%list
  /\ statuses (snd r) !! "tenant-a-quota"
     = Some {| st_ready := true; st_message := "Cgroup configured successfully";
               st_lastUpdated := now Samples.quiet |}
  /\ List.map ev_reason (events (snd r)) = ("CgroupConfigured" :: nil)%list.
Proof.
  intros u e r.
  split; [reflexivity|]. split; [reflexivity|].
  split; [vm_compute; reflexivity|].
  split; [reflexivity|]. split; reflexivity.
Qed.

(** Scenarios 2 and 3: a pod of [tenant-a] is routed, a pod of [tenant-z]
    is not. *)
Example scenario_route :
  let qc := Plugin.observe
              (Plugin.Added (Plugin.IsUnstructured
                               (quota_declaration "tenant-a-quota" "tenant-a" Absent))
               :: nil) Plugin.NewQuotaCache in
  let p := {| Plugin.cache := qc; Plugin.name := Plugin.DefaultPluginName;
              Plugin.idx := Plugin.DefaultPluginIdx |} in
  let container := Some {| Plugin.container_Id := "abc"; Plugin.container_Name := "web" |} in
  Plugin.CreateContainer p
    (Some {| Plugin.pod_Name := "web"; Plugin.pod_Namespace := "tenant-a" |}) container
  = (Some {| Plugin.Linux_CgroupsPath := Some "brasa-tenant-a.slice:cri-containerd:abc" |},
     nil, None)
  /\ Plugin.CreateContainer p
       (Some {| Plugin.pod_Name := "web"; Plugin.pod_Namespace := "tenant-z" |}) container
     = (None, nil, None).
Proof. intros qc p container. split; reflexivity. Qed.

(* ===================================================================== *)
(** * Further properties of the plugin's cache                            *)
(* ===================================================================== *)

Section CacheEntries.

Import Plugin.

(** Every entry of the map is [true] and none is keyed by the empty
    namespace. *)
Definition entries_true (qc : QuotaCache) : Prop :=
  forall namespace v,
    quotas qc !! namespace = Some v -> v = true /\ namespace <> "".

Lemma entries_true_insert (qc : QuotaCache) (namespace : string) :
  entries_true qc -> String.eqb namespace "" = false ->
  entries_true {| quotas := <[namespace := true]> (quotas qc) |}.
Proof.
  intros H Hne k v. cbn.
  destruct (decide (namespace = k)) as [<-|Hk].
  - rewrite lookup_insert_eq. intros [= <-]. split; [reflexivity|].
    intros ->. discriminate Hne.
  - rewrite lookup_insert_ne by exact Hk. apply H.
Qed.

Lemma entries_true_delete (qc : QuotaCache) (namespace : string) :
  entries_true qc -> entries_true {| quotas := delete namespace (quotas qc) |}.
Proof.
  intros H k v. cbn.
  destruct (decide (namespace = k)) as [<-|Hk].
  - rewrite lookup_delete_eq. discriminate.
  - rewrite lookup_delete_ne by exact Hk. apply H.
Qed.

Lemma entries_true_notify (qc : QuotaCache) (n : Notification) :
  entries_true qc -> entries_true (notify qc n).
Proof.
  intros H. destruct n as [obj|oldObj obj|obj]; cbn.
  - destruct obj as [u| |]; cbn; try exact H.
    destruct (String.eqb (extractNamespace u) "") eqn:He; cbn; [exact H|].
    destruct (isEnabled u); cbn; [|exact H].
    apply entries_true_insert; assumption.
  - destruct obj as [u| |]; cbn; try exact H.
    destruct (String.eqb (extractNamespace u) "") eqn:He; cbn; [exact H|].
    destruct (isEnabled u).
    + apply entries_true_insert; assumption.
    + apply entries_true_delete; assumption.
  - destruct obj as [u|[u|]|]; cbn; try exact H.
    + destruct (String.eqb (extractNamespace u) ""); [exact H|].
      apply entries_true_delete; assumption.
    + destruct (String.eqb (extractNamespace u) ""); [exact H|].
      apply entries_true_delete; assumption.
Qed.

Lemma entries_true_observe (l : list Notification) (qc : QuotaCache) :
  entries_true qc -> entries_true (observe l qc).
Proof.
  revert qc. induction l as [|n l IH]; intros qc H; [exact H|].
  cbn. apply IH. apply entries_true_notify. exact H.
Qed.

(** The initial synchronisation treats every listed declaration as its
    add. *)
Lemma initialSync_observe (items : list Unstructured) (qc : QuotaCache) :
  initialSync items qc
  = observe (List.map (fun u => Added (IsUnstructured u)) items) qc.
Proof.
  unfold initialSync, observe. revert qc.
  induction items as [|u items IH]; intros qc; [reflexivity|].
  cbn [fold_left List.map]. rewrite IH. f_equal.
  cbn. destruct (String.eqb (extractNamespace u) ""); cbn; [reflexivity|].
  destruct (isEnabled u); reflexivity.
Qed.

Lemma entries_true_started (items : list Unstructured) (l : list Notification) :
  entries_true (observe l (initialSync items NewQuotaCache)).
Proof.
  apply entries_true_observe. rewrite initialSync_observe.
  apply entries_true_observe. intros k v. cbn. rewrite lookup_empty. discriminate.
Qed.

Lemma HasQuota_entry (qc : QuotaCache) (namespace : string) :
  entries_true qc ->
  (HasQuota qc namespace = true <-> exists v, quotas qc !! namespace = Some v).
Proof.
  intros H. unfold HasQuota. split.
  - destruct (quotas qc !! namespace) as [v|]; cbn; [|discriminate].
    intros _. exists v. reflexivity.
  - intros [v Hv]. rewrite Hv. cbn. apply (H _ _ Hv).
Qed.

Lemma HasQuota_empty_namespace (qc : QuotaCache) :
  entries_true qc -> HasQuota qc "" = false.
Proof.
  intros H. unfold HasQuota.
  destruct (quotas qc !! "") as [v|] eqn:Hv; [|reflexivity].
  destruct (H _ _ Hv) as [_ Hne]. contradiction.
Qed.

End CacheEntries.

(** Whatever the initial list and the notifications that followed, the
    namespaces [GetNamespaces] lists are those for which [HasQuota]
    answers true: the handlers store no other value than [true]. *)
Theorem GetNamespaces_lists_the_namespaces_with_quota :
  forall (items : list Unstructured) (l : list Plugin.Notification)
         (namespace : string),
    let qc := Plugin.observe l (Plugin.initialSync items Plugin.NewQuotaCache) in
    In namespace (Listing.GetNamespaces qc) <-> Plugin.HasQuota qc namespace = true.
Proof.
  intros items l namespace qc.
  rewrite (HasQuota_entry qc namespace (entries_true_started items l)).
  unfold Listing.GetNamespaces. rewrite <- list_elem_of_In, list_elem_of_fmap.
  split.
  - intros [[k v] [-> Hin]]. exists v. apply elem_of_map_to_list in Hin. exact Hin.
  - intros [v Hv]. exists (namespace, v). split; [reflexivity|].
    apply elem_of_map_to_list. exact Hv.
Qed.

(** The empty namespace is never cached, so a container whose pod is nil
    or carries no namespace is left where the runtime puts it. *)
Theorem CreateContainer_skips_pods_without_namespace :
  forall (items : list Unstructured) (l : list Plugin.Notification)
         (name idx : string) (pod : option Plugin.PodSandbox)
         (container : option Plugin.Container),
    Plugin.PodSandbox_GetNamespace pod = "" ->
    Plugin.CreateContainer
      {| Plugin.cache := Plugin.observe l (Plugin.initialSync items Plugin.NewQuotaCache);
         Plugin.name := name; Plugin.idx := idx |}
      pod container
    = (None, nil, None).
Proof.
  intros items l name idx pod container Hns.
  unfold Plugin.CreateContainer. rewrite Hns. cbn [Plugin.cache].
  rewrite (HasQuota_empty_namespace _ (entries_true_started items l)).
  reflexivity.
Qed.

Lemma CreateContainer_skips_pods_without_namespace_witness :
  let tenant := quota_declaration "tenant-a-quota" "tenant-a" Absent in
  let blank := quota_declaration "blank" "" Absent in
  Plugin.CreateContainer
    {| Plugin.cache :=
         Plugin.observe (Plugin.Added (Plugin.IsUnstructured blank) :: nil)
           (Plugin.initialSync (tenant :: nil) Plugin.NewQuotaCache);
       Plugin.name := "namespace-isolator"; Plugin.idx := "10" |}
    None (Some {| Plugin.container_Id := "abc"; Plugin.container_Name := "web" |})
  = (None, nil, None).
Proof.
  intros tenant blank.
  apply (CreateContainer_skips_pods_without_namespace (tenant :: nil)
           (Plugin.Added (Plugin.IsUnstructured blank) :: nil)).
  reflexivity.
Defined.

(** The initial synchronisation is the add of every listed declaration, in
    the order of the list: it caches the namespaces of the enabled
    declarations and removes nothing. *)
Theorem initialSync_adds_every_listed_declaration :
  forall (items : list Unstructured) (qc : Plugin.QuotaCache) (namespace : string),
    Plugin.initialSync items qc
    = Plugin.observe
        (List.map (fun u => Plugin.Added (Plugin.IsUnstructured u)) items) qc
    /\ (Plugin.HasQuota (Plugin.initialSync items qc) namespace = true
        <-> Plugin.HasQuota qc namespace = true
            \/ exists u, In u items
                         /\ Plugin.extractNamespace u = namespace
                         /\ namespace <> ""
                         /\ Plugin.isEnabled u = true).
Proof.
  intros items qc namespace. split; [apply initialSync_observe|].
  revert qc. induction items as [|u items IH]; intros qc.
  - cbn. split; [intros H; left; exact H|].
    intros [H|(u & [] & _)]. exact H.
  - change (Plugin.initialSync (u :: items) qc)
      with (Plugin.initialSync items
              (Plugin.initialSync (u :: nil) qc)).
    rewrite IH. rewrite (initialSync_observe (u :: nil)).
    change (Plugin.observe _ qc)
      with (Plugin.notify qc (Plugin.Added (Plugin.IsUnstructured u))).
    rewrite HasQuota_notify. unfold targets. cbn.
    destruct (String.eqb_spec (Plugin.extractNamespace u) "") as [He|Hne]; cbn.
    + split.
      * intros [H|(u' & Hin & H)]; [left; exact H|].
        right. exists u'. split; [right; exact Hin | exact H].
      * intros [H|(u' & [<-|Hin] & Hns & Hnz & Hen)]; [left; exact H| |].
        { congruence. }
        right. exists u'. repeat split; assumption.
    + destruct (String.eqb_spec (Plugin.extractNamespace u) namespace) as [Heq|Hneq]; cbn.
      * destruct (Plugin.isEnabled u) eqn:Hen; cbn.
        { split; [|intros _; left; reflexivity].
          intros _. right. exists u. split; [left; reflexivity|].
          split; [exact Heq|]. split; [congruence | exact Hen]. }
        split.
        { intros [H|(u' & Hin & H)]; [left; exact H|].
          right. exists u'. split; [right; exact Hin | exact H]. }
        intros [H|(u' & [<-|Hin] & Hns & Hnz & Hen')]; [left; exact H| |].
        { congruence. }
        right. exists u'. repeat split; assumption.
      * split.
        { intros [H|(u' & Hin & H)]; [left; exact H|].
          right. exists u'. split; [right; exact Hin | exact H]. }
        intros [H|(u' & [<-|Hin] & Hns & Hnz & Hen')]; [left; exact H| |].
        { contradiction. }
        right. exists u'. repeat split; assumption.
Qed.

(** The plugin and the controller read a declaration alike: the
    controller parses it exactly when the plugin finds a namespace in it,
    and then both see the same namespace and the same [enabled] (true
    when the field is missing or is no boolean).  Hence an add makes the
    plugin route a namespace exactly when the controller enforces the
    declaration for that namespace. *)
Theorem plugin_and_controller_read_declarations_alike :
  forall (u : Unstructured) (qc : Plugin.QuotaCache) (namespace : string),
    match ParseNamespaceQuota u with
    | Ok spec =>
        Plugin.extractNamespace u = Namespace spec
        /\ Namespace spec <> ""
        /\ Plugin.isEnabled u = Enabled spec
    | Err _ => Plugin.extractNamespace u = ""
    end
    /\ (Plugin.HasQuota (Plugin.onAdd (Plugin.IsUnstructured u) qc) namespace = true
        <-> Plugin.HasQuota qc namespace = true
            \/ exists spec, ParseNamespaceQuota u = Ok spec
                            /\ Enabled spec = true /\ Namespace spec = namespace).
Proof.
  intros u qc namespace.
  assert (Hread :
    match ParseNamespaceQuota u with
    | Ok spec =>
        Plugin.extractNamespace u = Namespace spec
        /\ Namespace spec <> ""
        /\ Plugin.isEnabled u = Enabled spec
    | Err _ => Plugin.extractNamespace u = ""
    end).
  { unfold ParseNamespaceQuota, Plugin.extractNamespace, Plugin.isEnabled.
    destruct (Object_spec u) as [| |s]; cbn -[String.eqb]; try reflexivity.
    destruct (spec_namespace s) as [| |ns]; cbn -[String.eqb]; try reflexivity.
    destruct (String.eqb_spec ns "") as [->|Hne]; [reflexivity|].
    destruct (spec_cpu s), (spec_memory s), (spec_enabled s); cbn;
      (split; [reflexivity|]; split; [exact Hne | reflexivity]). }
  split; [exact Hread|].
  change (Plugin.onAdd (Plugin.IsUnstructured u) qc)
    with (Plugin.notify qc (Plugin.Added (Plugin.IsUnstructured u))).
  rewrite HasQuota_notify. unfold targets. cbn.
  destruct (ParseNamespaceQuota u) as [spec|e] eqn:Hp.
  - destruct Hread as (Hns & Hne & Hen). rewrite Hns, Hen.
    destruct (String.eqb_spec (Namespace spec) "") as [He|_]; [contradiction|].
    cbn. destruct (String.eqb_spec (Namespace spec) namespace) as [Heq|Hneq]; cbn.
    + destruct (Enabled spec) eqn:E; cbn.
      * split; [|reflexivity]. intros _. right. exists spec. repeat split; assumption.
      * split; [intros H; left; exact H|].
        intros [H|(spec' & [= <-] & E' & _)]; [exact H|congruence].
    + split; [intros H; left; exact H|].
      intros [H|(spec' & [= <-] & _ & N)]; [exact H|contradiction].
  - rewrite Hread. cbn.
    split; [intros H; left; exact H|].
    intros [H|(spec' & [=] & _)]. exact H.
Qed.

(* ===================================================================== *)
(** * Further properties of the slice manager                             *)
(* ===================================================================== *)

(** ** Cleaned paths *)

Section CleanedPaths.

Lemma length_append (a b : string) :
  String.length (a ++ b) = (String.length a + String.length b)%nat.
Proof.
  induction a as [|c a IH]; [reflexivity|].
  rewrite append_cons. cbn [String.length]. rewrite IH. reflexivity.
Qed.

Lemma append_inv_head (p a b : string) : p ++ a = p ++ b -> a = b.
Proof.
  induction p as [|c p IH]; [exact (fun H => H)|].
  rewrite !append_cons. intros [= H]. exact (IH H).
Qed.

Lemma append_inv_tail (a b s : string) : a ++ s = b ++ s -> a = b.
Proof.
  revert b. induction a as [|c a IH]; intros [|d b] H.
  - reflexivity.
  - apply (f_equal String.length) in H.
    rewrite append_nil_l, append_cons in H. cbn [String.length] in H.
    rewrite length_append in H. lia.
  - apply (f_equal String.length) in H.
    rewrite append_nil_l, append_cons in H. cbn [String.length] in H.
    rewrite length_append in H. lia.
  - rewrite !append_cons in H. injection H as -> H. rewrite (IH b H). reflexivity.
Qed.

Lemma append_not_self (a b : string) : b <> "" -> a ++ b <> a.
Proof.
  intros Hb H. apply (f_equal String.length) in H. rewrite length_append in H.
  destruct b as [|c b]; [contradiction|]. cbn [String.length] in H. lia.
Qed.

(** A name: a text without separator, as the name of a namespace or of
    a unit is. *)
Definition no_separator (s : string) : bool :=
  all_bytes (fun c => negb (Ascii.eqb c "/")) s.

(** An element that [filepath.Clean] keeps where it stands. *)
Definition real (e : string) : Prop :=
  no_separator e = true /\ e <> "" /\ e <> "." /\ e <> "..".

Lemma no_separator_app (a b : string) :
  no_separator (a ++ b) = (no_separator a && no_separator b)%bool.
Proof. apply all_bytes_app. Qed.

Lemma long_name_real (e : string) :
  no_separator e = true -> (3 <= String.length e)%nat -> real e.
Proof.
  intros Hs Hl. split; [exact Hs|].
  repeat split; intros ->; cbn in Hl; lia.
Qed.

(** *** The elements of a path *)

Lemma path_elements_cons (s : string) : exists e l, path_elements s = (e :: l)%list.
Proof.
  induction s as [|c s (e & l & IH)]; cbn [path_elements].
  - eexists; eexists; reflexivity.
  - destruct (Ascii.eqb c "/"); [eexists; eexists; reflexivity|].
    rewrite IH. eexists; eexists; reflexivity.
Qed.

Lemma path_elements_name (e : string) :
  no_separator e = true -> path_elements e = (e :: nil)%list.
Proof.
  induction e as [|c e IH]; intros H; [reflexivity|].
  cbn in H. apply andb_true_iff in H as [Hc He].
  cbn [path_elements]. apply negb_true_iff in Hc. rewrite Hc, (IH He). reflexivity.
Qed.

Lemma path_elements_app (a b : string) :
  path_elements (a ++ "/" ++ b) = (path_elements a ++ path_elements b)%list.
Proof.
  induction a as [|c a IH].
  - reflexivity.
  - rewrite append_cons. cbn [path_elements]. rewrite IH.
    destruct (Ascii.eqb c "/"); [reflexivity|].
    destruct (path_elements_cons a) as (e & l & ->). reflexivity.
Qed.

Lemma path_elements_no_separator (s : string) :
  Forall (fun e => no_separator e = true) (path_elements s).
Proof.
  induction s as [|c s IH]; cbn [path_elements].
  - repeat constructor.
  - destruct (Ascii.eqb c "/") eqn:Hc; [constructor; [reflexivity | exact IH]|].
    destruct (path_elements s) as [|e l]; [repeat constructor; cbn; rewrite Hc; reflexivity|].
    inversion IH; subst. constructor; [|assumption].
    cbn. rewrite Hc. assumption.
Qed.

Lemma strings_Join_snoc (l : list string) (e : string) :
  strings_Join (l ++ e :: nil) "/"
  = match l with
    | nil => e
    | _ => strings_Join l "/" ++ "/" ++ e
    end.
Proof.
  induction l as [|a l IH]; [reflexivity|].
  destruct l as [|b l]; [reflexivity|].
  change (strings_Join ((a :: b :: l) ++ e :: nil) "/")
    with (a ++ "/" ++ strings_Join ((b :: l) ++ e :: nil) "/").
  rewrite IH.
  change (strings_Join (a :: b :: l) "/") with (a ++ "/" ++ strings_Join (b :: l) "/").
  rewrite !append_assoc. reflexivity.
Qed.

Lemma path_elements_Join (l : list string) :
  l <> nil -> Forall (fun e => no_separator e = true) l ->
  path_elements (strings_Join l "/") = l.
Proof.
  induction l as [|a l IH]; intros Hne Hall; [contradiction|].
  inversion Hall as [|? ? Ha Hl]; subst.
  destruct l as [|b l].
  - apply path_elements_name. exact Ha.
  - change (strings_Join (a :: b :: l) "/") with (a ++ "/" ++ strings_Join (b :: l) "/").
    rewrite path_elements_app, (path_elements_name a Ha), IH by (congruence || assumption).
    reflexivity.
Qed.

(** *** What [filepath.Clean] keeps *)

(** The elements kept, the last one first: real elements, and below them,
    in a path that does not start at the root, the [..] elements at its
    head. *)
Inductive clean_stack (rooted : bool) : list string -> Prop :=
| stack_ups (k : nat) :
    (rooted = true -> k = O) -> clean_stack rooted (repeat ".." k)
| stack_real (e : string) (out : list string) :
    real e -> clean_stack rooted out -> clean_stack rooted (e :: out).

Lemma clean_element_real (rooted : bool) (out : list string) (e : string) :
  real e -> clean_element rooted out e = (e :: out)%list.
Proof.
  intros (_ & H1 & H2 & H3). unfold clean_element.
  destruct (String.eqb_spec e ""); [contradiction|].
  destruct (String.eqb_spec e "."); [contradiction|].
  destruct (String.eqb_spec e ".."); [contradiction|]. reflexivity.
Qed.

Lemma clean_element_stack (rooted : bool) (out : list string) (e : string) :
  no_separator e = true -> clean_stack rooted out ->
  clean_stack rooted (clean_element rooted out e).
Proof.
  intros He Hout. unfold clean_element.
  destruct (String.eqb_spec e "") as [->|H1]; [exact Hout|].
  destruct (String.eqb_spec e ".") as [->|H2]; [exact Hout|].
  destruct (String.eqb_spec e "..") as [->|H3]; cbn [orb].
  - destruct Hout as [k Hk|e0 out0 Hr Hout0].
    + destruct k as [|k]; cbn [repeat].
      * destruct rooted eqn:Hroot.
        { apply (stack_ups true O). reflexivity. }
        { apply (stack_ups false 1). discriminate. }
      * change (String.eqb ".." "..") with true. cbv iota.
        apply (stack_ups rooted (S (S k))).
        intros Hroot. specialize (Hk Hroot). discriminate.
    + destruct Hr as (_ & _ & _ & Hup).
      destruct (String.eqb_spec e0 ".."); [contradiction | exact Hout0].
  - apply stack_real; [|exact Hout]. repeat split; assumption.
Qed.

Lemma fold_clean_stack (rooted : bool) (l out : list string) :
  Forall (fun e => no_separator e = true) l -> clean_stack rooted out ->
  clean_stack rooted (fold_left (clean_element rooted) l out).
Proof.
  revert out. induction l as [|e l IH]; intros out Hl Hout; [exact Hout|].
  inversion Hl; subst. cbn [fold_left]. apply IH; [assumption|].
  apply clean_element_stack; assumption.
Qed.

Lemma clean_stack_elements (rooted : bool) (out : list string) :
  clean_stack rooted out ->
  Forall (fun e => no_separator e = true /\ e <> "" /\ e <> ".") out.
Proof.
  induction 1 as [k Hk|e out (Hs & H1 & H2 & _) Hout IH].
  - clear Hk. induction k as [|k IH]; cbn [repeat]; constructor; [|exact IH].
    repeat split; discriminate.
  - constructor; [|exact IH]. repeat split; assumption.
Qed.

(** The path written from the elements kept. *)
Definition render (rooted : bool) (out : list string) : string :=
  if rooted then "/" ++ strings_Join (List.rev out) "/"
  else
    match out with
    | nil => "."
    | _ => strings_Join (List.rev out) "/"
    end.

(** What stands before the last element of a rendered path. *)
Definition lead (rooted : bool) (out : list string) : string :=
  (if rooted then "/" else "")
  ++ match out with
     | nil => ""
     | _ => strings_Join (List.rev out) "/" ++ "/"
     end.

Lemma render_cons (rooted : bool) (out : list string) (e : string) :
  render rooted (e :: out) = lead rooted out ++ e.
Proof.
  unfold render, lead. cbn [List.rev]. rewrite strings_Join_snoc.
  destruct out as [|a out].
  - cbn [List.rev]. destruct rooted; reflexivity.
  - assert (Hne : List.rev (a :: out) <> nil).
    { cbn [List.rev]. intros H. apply app_eq_nil in H as [_ H]. discriminate. }
    destruct (List.rev (a :: out)) as [|b l]; [contradiction|].
    destruct rooted; rewrite ?append_assoc; reflexivity.
Qed.

Lemma render_length (rooted : bool) (out : list string) :
  (String.length (render rooted out) <= S (String.length (lead rooted out)))%nat.
Proof.
  unfold render, lead. destruct out as [|a out].
  - destruct rooted; cbn; lia.
  - destruct rooted; rewrite ?length_append; cbn [String.length]; lia.
Qed.

Lemma lead_render (rooted : bool) (out : list string) :
  lead rooted out
  = match out with
    | nil => if rooted then "/" else ""
    | _ => render rooted out ++ "/"
    end.
Proof.
  unfold render, lead. destruct out as [|a out].
  - destruct rooted; reflexivity.
  - destruct rooted; rewrite ?append_assoc; reflexivity.
Qed.

Definition cleaned (path : string) : list string :=
  fold_left (clean_element (is_rooted path)) (path_elements path) nil.

Lemma Clean_render (path : string) :
  path <> "" -> Clean path = render (is_rooted path) (cleaned path).
Proof.
  intros Hne. unfold Clean, render, cleaned.
  destruct (String.eqb_spec path ""); [contradiction | reflexivity].
Qed.

Lemma cleaned_stack (path : string) : clean_stack (is_rooted path) (cleaned path).
Proof.
  apply fold_clean_stack; [apply path_elements_no_separator|].
  apply (stack_ups _ O). reflexivity.
Qed.

(** A path that ends with a real element is cleaned to the cleaned path
    before it, followed by the element. *)
Lemma Clean_snoc (path e : string) :
  path <> "" -> real e ->
  Clean (path ++ "/" ++ e) = lead (is_rooted path) (cleaned path) ++ e.
Proof.
  intros Hne He.
  assert (Hr : is_rooted (path ++ "/" ++ e) = is_rooted path).
  { destruct path; [contradiction | reflexivity]. }
  rewrite Clean_render by (destruct path; [contradiction | discriminate]).
  unfold cleaned at 1. rewrite Hr, path_elements_app.
  rewrite (path_elements_name e) by apply He.
  rewrite fold_left_app. cbn [fold_left].
  rewrite clean_element_real by exact He.
  apply render_cons.
Qed.

Lemma Clean_real (e : string) : real e -> Clean e = e.
Proof.
  intros He. pose proof He as (Hs & H1 & H2 & H3).
  unfold Clean. destruct (String.eqb_spec e ""); [contradiction|].
  rewrite (path_elements_name e Hs). cbn [fold_left].
  rewrite clean_element_real by exact He.
  assert (Hroot : is_rooted e = false).
  { destruct e as [|c e]; [reflexivity|]. cbn in Hs. cbn.
    apply andb_true_iff in Hs as [Hc _]. apply negb_true_iff in Hc. exact Hc. }
  rewrite Hroot. reflexivity.
Qed.

(** *** A cleaned path is left as it is *)

Lemma rev_repeat (x : string) (k : nat) : List.rev (repeat x k) = repeat x k.
Proof.
  induction k as [|k IH]; [reflexivity|].
  cbn [repeat List.rev]. rewrite IH. symmetry. apply repeat_cons.
Qed.

Lemma fold_ups (k : nat) (out : list string) :
  (forall e, In e out -> e = "..") ->
  fold_left (clean_element false) (repeat ".." k) out = (repeat ".." k ++ out)%list.
Proof.
  revert out. induction k as [|k IH]; intros out Hout; [reflexivity|].
  cbn [repeat fold_left].
  assert (Hstep : clean_element false out ".." = (".." :: out)%list).
  { unfold clean_element. cbn [String.eqb]. 
    change (String.eqb ".." "") with false. change (String.eqb ".." ".") with false.
    change (String.eqb ".." "..") with true. cbn [orb].
    destruct out as [|top below]; [reflexivity|].
    rewrite (Hout top) by (left; reflexivity). reflexivity. }
  rewrite Hstep, IH.
  - rewrite (repeat_cons k), <- app_assoc. reflexivity.
  - intros e [<-|He]; [reflexivity | apply Hout; exact He].
Qed.

Lemma fold_rev_stack (rooted : bool) (out : list string) :
  clean_stack rooted out ->
  fold_left (clean_element rooted) (List.rev out) nil = out.
Proof.
  induction 1 as [k Hk|e out He Hout IH].
  - rewrite rev_repeat. destruct rooted.
    + rewrite (Hk eq_refl). reflexivity.
    + rewrite fold_ups by (intros e []). apply app_nil_r.
  - cbn [List.rev]. rewrite fold_left_app, IH. cbn [fold_left].
    apply clean_element_real. exact He.
Qed.

Lemma Join_head (e : string) (l : list string) :
  exists rest, strings_Join (e :: l) "/" = e ++ rest.
Proof.
  destruct l as [|b l].
  - exists "". rewrite append_nil_r. reflexivity.
  - eexists. reflexivity.
Qed.

(** Cleaning what [filepath.Clean] has written changes nothing. *)
Lemma Clean_rendered (rooted : bool) (out : list string) :
  clean_stack rooted out ->
  render rooted out <> ""
  /\ is_rooted (render rooted out) = rooted
  /\ cleaned (render rooted out) = out.
Proof.
  intros Hout.
  pose proof (clean_stack_elements _ _ Hout) as Hel.
  assert (Hrev : Forall (fun e => no_separator e = true /\ e <> "" /\ e <> ".")
                   (List.rev out)).
  { apply List.Forall_forall. intros e He. apply in_rev in He.
    rewrite List.Forall_forall in Hel. apply Hel. exact He. }
  assert (Hsep : Forall (fun e => no_separator e = true) (List.rev out)).
  { eapply List.Forall_impl; [|exact Hrev]. intros e He. apply He. }
  destruct out as [|a out].
  - destruct rooted; (split; [discriminate|]); (split; reflexivity).
  - assert (Hne : List.rev (a :: out) <> nil).
    { cbn [List.rev]. intros H. apply app_eq_nil in H as [_ H]. discriminate. }
    pose proof (fold_rev_stack _ _ Hout) as Hfold.
    pose proof (path_elements_Join _ Hne Hsep) as Hpe.
    destruct (List.rev (a :: out)) as [|b l] eqn:Hl; [contradiction|].
    inversion Hrev as [|? ? (Hb & Hb1 & _) _]; subst.
    destruct (Join_head b l) as (rest & Hj).
    destruct b as [|c b]; [contradiction|].
    assert (Hc : Ascii.eqb c "/" = false).
    { cbn in Hb. apply andb_true_iff in Hb as [Hc _].
      apply negb_true_iff in Hc. exact Hc. }
    destruct rooted; unfold render, cleaned; rewrite ?Hl.
    + split; [discriminate|]. split; [reflexivity|].
      change (is_rooted ("/" ++ strings_Join (String c b :: l) "/")) with true.
      change (path_elements ("/" ++ strings_Join (String c b :: l) "/"))
        with ("" :: path_elements (strings_Join (String c b :: l) "/"))%list.
      rewrite Hpe. cbn [fold_left].
      change (clean_element true nil "") with (@nil string). exact Hfold.
    + rewrite Hj, append_cons. split; [discriminate|].
      split; [cbn [is_rooted]; exact Hc|].
      cbn [is_rooted]. rewrite Hc, <- append_cons, <- Hj, Hpe. exact Hfold.
Qed.

Lemma Clean_idempotent (path : string) : Clean (Clean path) = Clean path.
Proof.
  destruct (String.eqb_spec path "") as [->|Hne]; [reflexivity|].
  rewrite (Clean_render path Hne).
  destruct (Clean_rendered _ _ (cleaned_stack path)) as (H1 & H2 & H3).
  rewrite Clean_render by exact H1. rewrite H2, H3. reflexivity.
Qed.

(** A real element joined to a cleaned path. *)
Lemma Clean_under (path e : string) :
  path <> "" -> real e ->
  Clean (Clean path ++ "/" ++ e) = Clean (path ++ "/" ++ e).
Proof.
  intros Hne He.
  rewrite (Clean_snoc path e Hne He).
  rewrite (Clean_render path Hne).
  destruct (Clean_rendered _ _ (cleaned_stack path)) as (H1 & H2 & H3).
  rewrite Clean_snoc by assumption. rewrite H2, H3. reflexivity.
Qed.

(** *** The directories on the way to a path *)

Lemma ancestors_from_name (before e : string) :
  no_separator e = true -> ancestors_from before e = nil.
Proof.
  revert before. induction e as [|c e IH]; intros before H; [reflexivity|].
  cbn in H. apply andb_true_iff in H as [Hc He]. apply negb_true_iff in Hc.
  cbn [ancestors_from]. rewrite Hc. apply IH. exact He.
Qed.

Lemma ancestors_from_app (before a e : string) :
  no_separator e = true ->
  ancestors_from before (a ++ "/" ++ e)
  = (ancestors_from before a
     ++ (if String.eqb (before ++ a)%string "" then "/" else (before ++ a)%string) :: nil)%list.
Proof.
  intros He. revert before. induction a as [|c a IH]; intros before.
  - rewrite append_nil_r.
    change ("" ++ "/" ++ e) with (String "/" e).
    cbn [ancestors_from]. change (Ascii.eqb "/" "/") with true. cbv iota.
    rewrite ancestors_from_name by exact He. reflexivity.
  - rewrite append_cons. cbn [ancestors_from]. rewrite IH.
    replace ((before ++ String c "") ++ a) with (before ++ String c a)
      by (rewrite append_assoc; reflexivity).
    destruct (Ascii.eqb c "/"); reflexivity.
Qed.

Lemma ancestors_from_length (before rest x : string) :
  In x (ancestors_from before rest) ->
  (String.length x <= String.length before + String.length rest)%nat.
Proof.
  revert before. induction rest as [|c rest IH]; intros before Hin; [destruct Hin|].
  cbn [ancestors_from] in Hin. cbn [String.length].
  assert (Hrest : In x (ancestors_from (before ++ String c "") rest) ->
                  (String.length x <= String.length before + S (String.length rest))%nat).
  { intros H. apply IH in H. rewrite length_append in H. cbn [String.length] in H. lia. }
  destruct (Ascii.eqb c "/"); [|exact (Hrest Hin)].
  destruct Hin as [<-|Hin]; [|exact (Hrest Hin)].
  destruct (String.eqb before ""); cbn [String.length]; lia.
Qed.

Lemma ancestors_length (path x : string) :
  In x (ancestors path) -> (String.length x <= String.length path)%nat.
Proof. intros H. apply ancestors_from_length in H. exact H. Qed.

End CleanedPaths.

(** ** The names of the slices *)

Section SliceNames.

Lemma all_bytes_rev_append (f : ascii -> bool) (s acc : string) :
  all_bytes f (GoStrings.rev_append s acc) = (all_bytes f s && all_bytes f acc)%bool.
Proof.
  revert acc. induction s as [|c s IH]; intros acc; [reflexivity|].
  cbn [GoStrings.rev_append]. rewrite IH. cbn [all_bytes].
  destruct (f c), (all_bytes f s), (all_bytes f acc); reflexivity.
Qed.

Lemma strip_prefix_all_bytes (f : ascii -> bool) (p s r : string) :
  strip_prefix p s = Some r -> all_bytes f s = true -> all_bytes f r = true.
Proof.
  revert s. induction p as [|a p IH]; intros s H Hs; cbn [strip_prefix] in H.
  - inversion H; subst. exact Hs.
  - destruct s as [|b s]; [discriminate|].
    destruct (Ascii.eqb a b); [|discriminate].
    cbn in Hs. apply andb_true_iff in Hs as [_ Hs]. exact (IH s H Hs).
Qed.

Lemma no_separator_TrimSuffix (s suffix : string) :
  no_separator s = true -> no_separator (TrimSuffix s suffix) = true.
Proof.
  intros Hs. unfold TrimSuffix.
  destruct (strip_prefix (GoStrings.rev suffix) (GoStrings.rev s)) as [r|] eqn:Hr;
    [|exact Hs].
  unfold no_separator, GoStrings.rev in *.
  rewrite all_bytes_rev_append, andb_true_r.
  apply (strip_prefix_all_bytes _ _ _ _ Hr).
  rewrite all_bytes_rev_append, andb_true_r. exact Hs.
Qed.

Variable m : CgroupManager.

Lemma getSliceName_inj (n1 n2 : string) :
  getSliceName m n1 = getSliceName m n2 -> n1 = n2.
Proof.
  unfold getSliceName. cbv zeta. intros H.
  apply append_inv_head in H. apply append_inv_head in H.
  apply append_inv_tail in H. exact H.
Qed.

Lemma getSliceName_length (namespace : string) :
  (7 <= String.length (getSliceName m namespace))%nat.
Proof.
  unfold getSliceName. cbv zeta. rewrite !length_append. cbn. lia.
Qed.

Lemma getSliceName_not_empty (namespace : string) : getSliceName m namespace <> "".
Proof.
  intros H. pose proof (getSliceName_length namespace) as Hl.
  rewrite H in Hl. cbn in Hl. lia.
Qed.

(** The unit of a namespace is a real element of the path of its slice
    when neither the prefix nor the namespace has a separator. *)
Lemma getSliceName_real (namespace : string) :
  no_separator (slicePrefix m) = true -> no_separator namespace = true ->
  real (getSliceName m namespace).
Proof.
  intros Hp Hn. apply long_name_real.
  - unfold getSliceName. cbv zeta. rewrite !no_separator_app.
    rewrite (no_separator_TrimSuffix _ _ Hp), Hn. reflexivity.
  - pose proof (getSliceName_length namespace). lia.
Qed.

(** What [filepath.Join] cleans for the parent slice: empty when the root
    and the prefix both are. *)
Definition parent_text : string :=
  if String.eqb (cgroupRoot m) "" then slicePrefix m
  else cgroupRoot m ++ "/" ++ slicePrefix m.

Lemma GetParentSlicePath_text :
  GetParentSlicePath m = if String.eqb parent_text "" then "" else Clean parent_text.
Proof.
  unfold GetParentSlicePath, parent_text. cbn [filepath_Join strings_Join].
  destruct (String.eqb_spec (cgroupRoot m) "") as [Hr|Hr].
  - destruct (String.eqb_spec (slicePrefix m) ""); reflexivity.
  - destruct (String.eqb_spec (cgroupRoot m ++ "/" ++ slicePrefix m) "") as [H|_];
      [|reflexivity].
    destruct (cgroupRoot m); [contradiction | discriminate].
Qed.

Lemma GetSlicePath_text (namespace : string) :
  GetSlicePath m namespace
  = if String.eqb parent_text ""
    then Clean (getSliceName m namespace)
    else Clean (parent_text ++ "/" ++ getSliceName m namespace).
Proof.
  unfold GetSlicePath, parent_text. cbv zeta.
  fold (getSliceName m namespace).
  pose proof (getSliceName_not_empty namespace) as Hne.
  cbn [filepath_Join strings_Join].
  destruct (String.eqb_spec (getSliceName m namespace) ""); [contradiction|].
  destruct (String.eqb_spec (cgroupRoot m) "") as [Hr|Hr].
  - destruct (String.eqb_spec (slicePrefix m) ""); reflexivity.
  - destruct (String.eqb_spec (cgroupRoot m ++ "/" ++ slicePrefix m) "") as [H|_].
    + destruct (cgroupRoot m); [contradiction | discriminate].
    + rewrite !append_assoc. reflexivity.
Qed.

(** What stands before the unit in the path of every slice. *)
Definition slice_lead : string :=
  if String.eqb parent_text "" then ""
  else lead (is_rooted parent_text) (cleaned parent_text).

Lemma GetSlicePath_lead (namespace : string) :
  real (getSliceName m namespace) ->
  GetSlicePath m namespace = slice_lead ++ getSliceName m namespace.
Proof.
  intros Hreal. rewrite GetSlicePath_text. unfold slice_lead.
  destruct (String.eqb_spec parent_text "") as [_|Hne].
  - apply Clean_real. exact Hreal.
  - apply Clean_snoc; assumption.
Qed.

Lemma Clean_not_empty (path : string) : Clean path <> "".
Proof.
  destruct (String.eqb_spec path "") as [->|Hne]; [discriminate|].
  rewrite (Clean_render path Hne).
  apply (Clean_rendered _ _ (cleaned_stack path)).
Qed.

(** The slice of a namespace is the directory named after its unit inside
    the parent slice. *)
Lemma GetSlicePath_in_parent (namespace : string) :
  real (getSliceName m namespace) ->
  GetSlicePath m namespace
  = filepath_Join (GetParentSlicePath m :: getSliceName m namespace :: nil).
Proof.
  intros Hreal. rewrite GetSlicePath_text, GetParentSlicePath_text.
  pose proof (getSliceName_not_empty namespace) as Hname.
  destruct (String.eqb_spec parent_text "") as [_|Hne].
  - cbn [filepath_Join strings_Join]. change (String.eqb "" "") with true. cbv iota.
    destruct (String.eqb_spec (getSliceName m namespace) ""); [contradiction|].
    reflexivity.
  - cbn [filepath_Join strings_Join].
    destruct (String.eqb_spec (Clean parent_text) "") as [H|_];
      [exfalso; exact (Clean_not_empty _ H)|].
    symmetry. apply Clean_under; assumption.
Qed.

Lemma GetParentSlicePath_length :
  (String.length (GetParentSlicePath m) <= S (String.length slice_lead))%nat.
Proof.
  rewrite GetParentSlicePath_text. unfold slice_lead.
  destruct (String.eqb_spec parent_text "") as [_|Hne]; [cbn; lia|].
  rewrite (Clean_render _ Hne). apply render_length.
Qed.

(** The directories on the way to a slice are the parent slice and the
    directories on the way to it. *)
Lemma ancestors_slice (name x : string) :
  no_separator name = true ->
  In x (ancestors (slice_lead ++ name)) ->
  x = GetParentSlicePath m \/ In x (ancestors (GetParentSlicePath m)).
Proof.
  intros Hname. rewrite GetParentSlicePath_text. unfold slice_lead.
  destruct (String.eqb_spec parent_text "") as [_|Hne].
  - unfold ancestors. rewrite append_nil_l, ancestors_from_name by exact Hname.
    intros [].
  - rewrite (Clean_render _ Hne), lead_render.
    destruct (cleaned parent_text) as [|a out] eqn:Hout.
    + destruct (is_rooted parent_text).
      * unfold ancestors.
        change ("/" ++ name) with ("" ++ "/" ++ name).
        rewrite ancestors_from_app by exact Hname.
        intros [<-|[]]. left. reflexivity.
      * unfold ancestors. rewrite append_nil_l, ancestors_from_name by exact Hname.
        intros [].
    + rewrite <- Hout. set (parent := render (is_rooted parent_text) (cleaned parent_text)).
      assert (Hp : parent <> "").
      { apply (Clean_rendered _ _ (cleaned_stack parent_text)). }
      unfold ancestors. rewrite append_assoc, ancestors_from_app by exact Hname.
      rewrite append_nil_l.
      destruct (String.eqb_spec parent ""); [contradiction|].
      intros Hin. apply in_app_or in Hin as [Hin|[<-|[]]].
      * right. exact Hin.
      * left. reflexivity.
Qed.

Section Names.

Hypothesis prefix_is_a_name : no_separator (slicePrefix m) = true.

Lemma GetSlicePath_inj (n1 n2 : string) :
  no_separator n1 = true -> no_separator n2 = true ->
  GetSlicePath m n1 = GetSlicePath m n2 -> n1 = n2.
Proof.
  intros H1 H2.
  rewrite !GetSlicePath_lead by (apply getSliceName_real; assumption).
  intros H. apply append_inv_head in H. apply getSliceName_inj. exact H.
Qed.

Lemma GetSlicePath_longer (namespace : string) :
  no_separator namespace = true ->
  (String.length (GetParentSlicePath m) < String.length (GetSlicePath m namespace))%nat.
Proof.
  intros Hn. rewrite GetSlicePath_lead by (apply getSliceName_real; assumption).
  rewrite length_append.
  pose proof GetParentSlicePath_length. pose proof (getSliceName_length namespace). lia.
Qed.

Lemma GetSlicePath_not_parent (namespace : string) :
  no_separator namespace = true ->
  GetSlicePath m namespace <> GetParentSlicePath m.
Proof.
  intros Hn H. pose proof (GetSlicePath_longer namespace Hn) as Hl.
  rewrite H in Hl. lia.
Qed.

(** No slice is on the way to the parent slice or to another slice. *)
Lemma GetSlicePath_not_above (namespace other : string) :
  no_separator namespace = true -> no_separator other = true ->
  ~ In (GetSlicePath m other) (ancestors (GetParentSlicePath m))
  /\ ~ In (GetSlicePath m other) (ancestors (GetSlicePath m namespace)).
Proof.
  intros Hn Ho.
  pose proof (GetSlicePath_longer other Ho) as Hl.
  assert (Hparent : ~ In (GetSlicePath m other) (ancestors (GetParentSlicePath m))).
  { intros Hin. apply ancestors_length in Hin. lia. }
  split; [exact Hparent|].
  rewrite (GetSlicePath_lead namespace) by (apply getSliceName_real; assumption).
  intros Hin. apply ancestors_slice in Hin as [Heq|Hin].
  - rewrite Heq in Hl. lia.
  - exact (Hparent Hin).
  - apply getSliceName_real; assumption.
Qed.

End Names.

End SliceNames.

(** ** What a run may change *)

(** [w'] comes after [w]: the environment and the work queue are the
    same, the events, the log and the commands have only grown, no
    directory is gone. *)
Record after (w w' : World) : Prop := {
  after_env : env w' = env w;
  after_workqueue : workqueue w' = workqueue w;
  after_events : exists l, events w' = (events w ++ l)%list;
  after_logs : exists l, logs w' = (logs w ++ l)%list;
  after_commands : exists l, commands w' = (commands w ++ l)%list
}.

Lemma after_refl (w : World) : after w w.
Proof.
  split; try reflexivity; exists nil; rewrite app_nil_r; reflexivity.
Qed.

Lemma after_trans (w1 w2 w3 : World) : after w1 w2 -> after w2 w3 -> after w1 w3.
Proof.
  intros [E1 Q1 [v1 V1] [l1 L1] [c1 C1]] [E2 Q2 [v2 V2] [l2 L2] [c2 C2]].
  split; try congruence.
  - exists (v1 ++ v2)%list. rewrite V2, V1, app_assoc. reflexivity.
  - exists (l1 ++ l2)%list. rewrite L2, L1, app_assoc. reflexivity.
  - exists (c1 ++ c2)%list. rewrite C2, C1, app_assoc. reflexivity.
Qed.

Definition grows {A : Type} (m : M A) : Prop := forall w, after w (snd (m w)).

Lemma grows_ret {A : Type} (a : A) : grows (ret a).
Proof. intros w. apply after_refl. Qed.

Lemma grows_bind {A B : Type} (m : M A) (k : A -> M B) :
  grows m -> (forall a, grows (k a)) -> grows (bind m k).
Proof.
  intros Hm Hk w. unfold bind. specialize (Hm w).
  destruct (m w) as [a w1]. cbn [snd] in Hm.
  apply (after_trans _ _ _ Hm). apply Hk.
Qed.

Lemma grows_get : grows get.
Proof. intros w. apply after_refl. Qed.

Lemma grows_log (l : Level) (msg : string) : grows (log l msg).
Proof.
  intros w. split; try reflexivity; try (exists nil; rewrite app_nil_r; reflexivity).
  eexists. reflexivity.
Qed.

Ltac after_explicit :=
  split; cbn;
  first [ reflexivity
        | exists nil; rewrite app_nil_r; reflexivity
        | eexists; reflexivity ].

Ltac grows_primitive :=
  let w := fresh "w" in
  intros w;
  repeat (unfold bind, ret, get, modify; cbn [fst snd]);
  repeat match goal with
         | |- context [if ?b then _ else _] => destruct b
         | |- context [match ?x with _ => _ end] => destruct x
         end;
  cbn [fst snd]; first [apply after_refl | after_explicit].

Lemma grows_os_Stat path : grows (os_Stat path).
Proof. unfold os_Stat. grows_primitive. Qed.

Lemma grows_os_Remove path : grows (os_Remove path).
Proof. unfold os_Remove. grows_primitive. Qed.

Lemma grows_os_MkdirAll path : grows (os_MkdirAll path).
Proof. unfold os_MkdirAll. grows_primitive. Qed.

Lemma grows_os_WriteFile path data : grows (os_WriteFile path data).
Proof. unfold os_WriteFile. grows_primitive. Qed.

Lemma grows_exec_CombinedOutput argv : grows (exec_CombinedOutput argv).
Proof. unfold exec_CombinedOutput. grows_primitive. Qed.

Lemma grows_recorder_Event ref eventType reason message :
  grows (recorder_Event ref eventType reason message).
Proof. unfold recorder_Event. grows_primitive. Qed.

Lemma grows_UpdateStatus name ready message : grows (UpdateStatus name ready message).
Proof. unfold UpdateStatus. grows_primitive. Qed.

Lemma grows_UpdateMetrics namespace stats cpu memory :
  grows (UpdateMetrics namespace stats cpu memory).
Proof. unfold UpdateMetrics. grows_primitive. Qed.

Lemma grows_ReadCgroupStats ms namespace : grows (ReadCgroupStats ms namespace).
Proof. unfold ReadCgroupStats. grows_primitive. Qed.

Create HintDb grows.
#[export] Hint Resolve grows_os_Stat grows_os_Remove grows_os_MkdirAll
  grows_os_WriteFile grows_exec_CombinedOutput grows_recorder_Event
  grows_UpdateStatus grows_UpdateMetrics grows_ReadCgroupStats : grows.

Ltac grows_step :=
  lazymatch goal with
  | |- grows (bind _ _) => apply grows_bind; [|intros ?]
  | |- grows (ret _) => apply grows_ret
  | |- grows (log _ _) => apply grows_log
  | |- grows get => apply grows_get
  | |- grows (match ?x with _ => _ end) => destruct x
  | |- grows ?t =>
      first [ solve [auto with grows nocore]
            | let h := frame_head t in unfold h ]
  end.

Lemma grows_EnsureSlice m namespace cpu memory :
  grows (EnsureSlice m namespace cpu memory).
Proof.
  repeat grows_step.
Qed.

Lemma grows_RemoveSlice m namespace : grows (RemoveSlice m namespace).
Proof.
  repeat grows_step.
Qed.

Lemma grows_reconcile c key : grows (reconcile c key).
Proof.
  unfold reconcile. repeat grows_step.
Qed.

(** ** [EnsureSlice] in three phases *)

Section EnsureSlicePhases.

Variable m : CgroupManager.
Variable namespace : string.

Definition parent_control : string :=
  filepath_Join (GetParentSlicePath m :: "cgroup.subtree_control" :: nil).

Definition slice_control : string :=
  filepath_Join (GetSlicePath m namespace :: "cgroup.subtree_control" :: nil).

Definition cpu_command (q : Z) : list string :=
  systemctl_set_property (getSliceName m namespace)
    ("CPUQuota=" ++ itoa (cpuPercent q) ++ "%").

Definition memory_command (b : Z) : list string :=
  systemctl_set_property (getSliceName m namespace)
    ("MemoryMax=" ++ formatMemoryForSystemd b).

(** The directories: the parent slice with its controllers, then the
    slice of the namespace, whose controllers may fail to be enabled. *)
Definition ensure_directories : M (option error) :=
  let slicePath := GetSlicePath m namespace in
  let parentPath := GetParentSlicePath m in
  let* err := ensureParentSlice parentPath in
  match err with
  | Some e => ret (Some (ErrorfW ("failed to ensure parent slice for " ++ namespace) e))
  | None =>
  let* err := os_MkdirAll slicePath in
  match err with
  | Some e => ret (Some (ErrorfW ("failed to create slice directory for " ++ namespace) (PathError e)))
  | None =>
  let* err := enableControllers slicePath in
  let* _ := match err with
            | Some _ => log WarnLevel "Failed to enable controllers in namespace slice (may not have children)"
            | None => ret tt
            end in
  ret None
  end end.

Definition apply_cpu (cpuLimit : string) : M (option error) :=
  if String.eqb cpuLimit "" then ret None
  else
    match ParseCPU cpuLimit with
    | Err e => ret (Some (ErrorfW ("failed to parse CPU limit for " ++ namespace) e))
    | Ok cpuQuota =>
        let* err := setCPULimitViaSystemd m namespace cpuQuota in
        match err with
        | Some e => ret (Some (ErrorfW ("failed to set CPU limit for " ++ namespace) e))
        | None => ret None
        end
    end.

Definition apply_memory (memoryLimit : string) : M (option error) :=
  if String.eqb memoryLimit "" then ret None
  else
    match ParseMemory memoryLimit with
    | Err e => ret (Some (ErrorfW ("failed to parse memory limit for " ++ namespace) e))
    | Ok memoryBytes =>
        let* err := setMemoryLimitViaSystemd m namespace memoryBytes in
        match err with
        | Some e => ret (Some (ErrorfW ("failed to set memory limit for " ++ namespace) e))
        | None => ret None
        end
    end.

Lemma EnsureSlice_phases (cpu memory : string) (w : World) :
  EnsureSlice m namespace cpu memory w =
  (let* _ := log DebugLevel "Ensuring cgroup slice" in
   let* err := ensure_directories in
   match err with
   | Some e => ret (Some e)
   | None =>
       let* err := apply_cpu cpu in
       match err with
       | Some e => ret (Some e)
       | None =>
           let* err := apply_memory memory in
           match err with
           | Some e => ret (Some e)
           | None =>
               let* _ := log InfoLevel "Cgroup slice configured successfully" in
               ret None
           end
       end
   end) w.
Proof.
  unfold EnsureSlice, ensure_directories, apply_cpu, apply_memory, bind, ret.
  destruct (log DebugLevel "Ensuring cgroup slice" w) as [[] w0].
  destruct (ensureParentSlice (GetParentSlicePath m) w0) as [[e|] w1]; [reflexivity|].
  destruct (os_MkdirAll (GetSlicePath m namespace) w1) as [[e|] w2]; [reflexivity|].
  destruct (enableControllers (GetSlicePath m namespace) w2) as [err w3].
  destruct (match err with
            | Some _ => log WarnLevel _
            | None => fun w => (tt, w)
            end w3) as [[] w4].
  reflexivity.
Qed.

Definition controllers_warned : LogEntry :=
  {| log_level := WarnLevel;
     log_message := "Failed to enable controllers in namespace slice (may not have children)" |}.

(** The directories after [os.MkdirAll] has made [path]: the path, the
    directories on the way to it, and those that were there. *)
Definition with_directory (path : string) (d : gset string) : gset string :=
  {[path]} ∪ (list_to_set (ancestors path) ∪ d).

(** Whether the host refuses to create a directory, or to write a file. *)
Definition no_mkdir (e : Environment) (path : string) : bool :=
  (inaccessible e path || mkdir_fails e path)%bool.

Definition no_write (e : Environment) (path : string) : bool :=
  (inaccessible e path || write_fails e path)%bool.

Lemma ensure_directories_run (w : World) :
  let parent := GetParentSlicePath m in
  let slice := GetSlicePath m namespace in
  let e := env w in
  ensure_directories w =
    if no_mkdir e parent then
      (Some (ErrorfW ("failed to ensure parent slice for " ++ namespace)
               (ErrorfW ("failed to create parent slice " ++ parent) (PathError EOTHER))),
       w)
    else if no_write e parent_control then
      (Some (ErrorfW ("failed to ensure parent slice for " ++ namespace)
               (ErrorfW ("failed to enable controllers in " ++ parent) (PathError EOTHER))),
       set_dirs (with_directory parent (dirs w)) w)
    else if no_mkdir e slice then
      (Some (ErrorfW ("failed to create slice directory for " ++ namespace)
               (PathError EOTHER)),
       set_files (<[parent_control := RequiredControllers]> (files w))
         (set_dirs (with_directory parent (dirs w)) w))
    else if no_write e slice_control then
      (None,
       set_logs (logs w ++ controllers_warned :: nil)
         (set_files (<[parent_control := RequiredControllers]> (files w))
            (set_dirs (with_directory slice (with_directory parent (dirs w))) w)))
    else
      (None,
       set_files (<[slice_control := RequiredControllers]>
                    (<[parent_control := RequiredControllers]> (files w)))
         (set_dirs (with_directory slice (with_directory parent (dirs w))) w)).
Proof.
  intros parent slice e. subst e.
  unfold ensure_directories, ensureParentSlice, enableControllers,
    os_MkdirAll, os_WriteFile, no_mkdir, no_write, parent_control, slice_control,
    with_directory.
  fold parent slice. clearbody parent slice.
  unfold bind, ret, get, log, modify.
  cbn [env dirs files logs set_logs set_dirs set_files].
  destruct (inaccessible (env w) parent || mkdir_fails (env w) parent)%bool;
    cbn [env dirs files logs set_logs set_dirs set_files]; [reflexivity|].
  destruct (inaccessible (env w) (filepath_Join [parent; "cgroup.subtree_control"])
            || write_fails (env w) (filepath_Join [parent; "cgroup.subtree_control"]))%bool;
    cbn [env dirs files logs set_logs set_dirs set_files]; [reflexivity|].
  destruct (inaccessible (env w) slice || mkdir_fails (env w) slice)%bool;
    cbn [env dirs files logs set_logs set_dirs set_files]; [reflexivity|].
  destruct (inaccessible (env w) (filepath_Join [slice; "cgroup.subtree_control"])
            || write_fails (env w) (filepath_Join [slice; "cgroup.subtree_control"]))%bool;
    cbn [env dirs files logs set_logs set_dirs set_files]; reflexivity.
Qed.

Definition setting_cpu : LogEntry :=
  {| log_level := DebugLevel; log_message := "Setting CPU limit via systemd" |}.
Definition cpu_set : LogEntry :=
  {| log_level := InfoLevel; log_message := "CPU limit set via systemd" |}.
Definition setting_memory : LogEntry :=
  {| log_level := DebugLevel; log_message := "Setting memory limit via systemd" |}.
Definition memory_set : LogEntry :=
  {| log_level := InfoLevel; log_message := "Memory limit set via systemd" |}.

Lemma apply_cpu_run (cpu : string) (w : World) :
  apply_cpu cpu w =
    if String.eqb cpu "" then (None, w)
    else
      match ParseCPU cpu with
      | Err e => (Some (ErrorfW ("failed to parse CPU limit for " ++ namespace) e), w)
      | Ok q =>
          if command_fails (env w) (cpu_command q) then
            (Some (ErrorfW ("failed to set CPU limit for " ++ namespace)
                     (ErrorfW ("failed to set CPU via systemd for " ++ namespace) ExitError)),
             set_commands (commands w ++ cpu_command q :: nil)
               (set_logs (logs w ++ setting_cpu :: nil) w))
          else
            (None,
             set_logs (logs w ++ setting_cpu :: cpu_set :: nil)
               (set_commands (commands w ++ cpu_command q :: nil) w))
      end.
Proof.
  unfold apply_cpu. destruct (String.eqb cpu ""); [reflexivity|].
  destruct (ParseCPU cpu) as [q|e]; [|reflexivity].
  unfold setCPULimitViaSystemd, exec_CombinedOutput, cpu_command,
    bind, ret, get, log, modify.
  cbn [env commands logs set_logs set_commands].
  match goal with
  | |- context [command_fails ?e ?a] => destruct (command_fails e a)
  end; cbn [env commands logs set_logs set_commands]; [reflexivity|].
  unfold set_logs, set_commands; cbn. rewrite <- app_assoc. reflexivity.
Qed.

Lemma apply_memory_run (memory : string) (w : World) :
  apply_memory memory w =
    if String.eqb memory "" then (None, w)
    else
      match ParseMemory memory with
      | Err e => (Some (ErrorfW ("failed to parse memory limit for " ++ namespace) e), w)
      | Ok b =>
          if command_fails (env w) (memory_command b) then
            (Some (ErrorfW ("failed to set memory limit for " ++ namespace)
                     (ErrorfW ("failed to set memory via systemd for " ++ namespace) ExitError)),
             set_commands (commands w ++ memory_command b :: nil)
               (set_logs (logs w ++ setting_memory :: nil) w))
          else
            (None,
             set_logs (logs w ++ setting_memory :: memory_set :: nil)
               (set_commands (commands w ++ memory_command b :: nil) w))
      end.
Proof.
  unfold apply_memory. destruct (String.eqb memory ""); [reflexivity|].
  destruct (ParseMemory memory) as [b|e]; [|reflexivity].
  unfold setMemoryLimitViaSystemd, exec_CombinedOutput, memory_command,
    bind, ret, get, log, modify.
  cbn [env commands logs set_logs set_commands].
  match goal with
  | |- context [command_fails ?e ?a] => destruct (command_fails e a)
  end; cbn [env commands logs set_logs set_commands]; [reflexivity|].
  unfold set_logs, set_commands; cbn. rewrite <- app_assoc. reflexivity.
Qed.

End EnsureSlicePhases.

Lemma in_with_directory (path : string) (d : gset string) :
  path ∈ with_directory path d.
Proof. unfold with_directory. rewrite elem_of_union, elem_of_singleton. tauto. Qed.

Lemma in_with_directory_later (x path : string) (d : gset string) :
  x ∈ d -> x ∈ with_directory path d.
Proof. intros H. unfold with_directory. rewrite !elem_of_union. tauto. Qed.

Lemma lookup_written_twice (p q v : string) (f : gmap string string) :
  <[q := v]> (<[p := v]> f) !! p = Some v.
Proof.
  destruct (decide (q = p)) as [->|Hne].
  - apply lookup_insert_eq.
  - rewrite lookup_insert_ne by exact Hne. apply lookup_insert_eq.
Qed.

(** The commands [EnsureSlice] runs for the limits it is given. *)
Definition limit_commands (m : CgroupManager) (namespace cpu memory : string)
  : list (list string) :=
  ((if String.eqb cpu "" then nil
    else match ParseCPU cpu with
         | Ok q => cpu_command m namespace q :: nil
         | Err _ => nil
         end)
   ++
   (if String.eqb memory "" then nil
    else match ParseMemory memory with
         | Ok b => memory_command m namespace b :: nil
         | Err _ => nil
         end))%list.

(** Inclusions between sets of paths built with unions and singletons. *)
Ltac sets :=
  let x := fresh "x" in
  let H := fresh "H" in
  unfold with_directory;
  intros x H;
  repeat rewrite elem_of_union in *;
  repeat rewrite elem_of_singleton in *;
  tauto.

Ltac world_simpl :=
  cbn [fst snd env dirs files commands statuses events logs gauges workqueue
       set_logs set_dirs set_files set_commands set_statuses set_events
       set_gauges set_workqueue].

(** Runs every [EnsureSlice] of the goal (for [m], [namespace], [cpu] and
    [memory], from worlds whose environment is that of [w]) by cases on
    what the host refuses; the cases already decided are not split again. *)
Ltac decide_case c :=
  lazymatch goal with
  | H : c = _ |- _ => rewrite ?H
  | _ => destruct c eqn:?
  end; world_simpl.

Ltac ensure_cases m namespace cpu memory w :=
  rewrite ?EnsureSlice_phases;
  unfold bind, ret, log, modify;
  rewrite ?ensure_directories_run; world_simpl;
  decide_case (no_mkdir (env w) (GetParentSlicePath m));
  [|decide_case (no_write (env w) (parent_control m));
    [|decide_case (no_mkdir (env w) (GetSlicePath m namespace));
      [|decide_case (no_write (env w) (slice_control m namespace));
        rewrite ?apply_cpu_run; world_simpl;
        (decide_case (String.eqb cpu "");
         [|destruct (ParseCPU cpu) as [?q|?e] eqn:?; world_simpl;
           [decide_case (command_fails (env w) (cpu_command m namespace q))|]]);
        rewrite ?apply_memory_run; world_simpl;
        try (decide_case (String.eqb memory "");
             [|destruct (ParseMemory memory) as [?b|?e] eqn:?; world_simpl;
               [decide_case (command_fails (env w) (memory_command m namespace b))|]])]]].

(** Goes on with the runs whose cases are decided by the hypotheses. *)
Ltac ensure_known :=
  rewrite ?EnsureSlice_phases;
  unfold bind, ret, log, modify;
  repeat (world_simpl;
          rewrite ?ensure_directories_run, ?apply_cpu_run, ?apply_memory_run;
          world_simpl;
          repeat match goal with
                 | H : ?c = _ |- context [?c] => rewrite H
                 end).


(** When [EnsureSlice] returns nil the parent slice and the slice of the
    namespace exist, the controllers are enabled in the parent, and the
    commands run were exactly the [set-property] of each limit given, the
    CPU limit first. *)
Theorem EnsureSlice_success_sets_up_the_slice :
  forall (m : CgroupManager) (namespace cpu memory : string) (w : World),
    fst (EnsureSlice m namespace cpu memory w) = None ->
    let w' := snd (EnsureSlice m namespace cpu memory w) in
    (GetParentSlicePath m ∈ dirs w')
    /\ (GetSlicePath m namespace ∈ dirs w')
    /\ files w' !! parent_control m = Some RequiredControllers
    /\ commands w' = (commands w ++ limit_commands m namespace cpu memory)%list
    /\ (cpu = "" \/ is_ok (ParseCPU cpu) = true)
    /\ (memory = "" \/ is_ok (ParseMemory memory) = true).
Proof.
  intros m namespace cpu memory w. unfold limit_commands.
  ensure_cases m namespace cpu memory w.
  all: try discriminate.
  all: intros _;
    (split; [apply in_with_directory_later, in_with_directory|]);
    (split; [apply in_with_directory|]);
    (split; [first [apply lookup_insert_eq | apply lookup_written_twice]|]);
    (split; [cbn [app]; rewrite ?app_nil_r, <- ?app_assoc; reflexivity|]);
    (split;
     [first [left; apply String.eqb_eq; assumption | right; reflexivity]
     |first [left; apply String.eqb_eq; assumption | right; reflexivity]]).
Qed.

Lemma EnsureSlice_success_sets_up_the_slice_witness :
  let w := Samples.world_of Samples.quiet ∅ Workqueue.empty in
  let w' := snd (EnsureSlice Samples.manager "tenant-a" "4" "8Gi" w) in
  (GetParentSlicePath Samples.manager ∈ dirs w')
  /\ (GetSlicePath Samples.manager "tenant-a" ∈ dirs w')
  /\ files w' !! parent_control Samples.manager = Some RequiredControllers
  /\ commands w'
     = (commands w ++ limit_commands Samples.manager "tenant-a" "4" "8Gi")%list
  /\ ("4" = "" \/ is_ok (ParseCPU "4") = true)
  /\ ("8Gi" = "" \/ is_ok (ParseMemory "8Gi") = true).
Proof.
  intros w.
  apply (EnsureSlice_success_sets_up_the_slice Samples.manager "tenant-a" "4" "8Gi" w).
  vm_compute. reflexivity.
Defined.

(** What [EnsureSlice] may change. *)
Lemma EnsureSlice_footprint (m : CgroupManager) (namespace cpu memory : string)
    (w : World) :
  let w' := snd (EnsureSlice m namespace cpu memory w) in
  statuses w' = statuses w
  /\ events w' = events w
  /\ gauges w' = gauges w
  /\ dirs w ⊆ dirs w'
  /\ dirs w' ⊆ with_directory (GetSlicePath m namespace)
                 (with_directory (GetParentSlicePath m) (dirs w))
  /\ (forall path, path <> parent_control m -> path <> slice_control m namespace ->
      files w' !! path = files w !! path)
  /\ (exists run,
        commands w' = (commands w ++ run)%list
        /\ forall argv, In argv run ->
             exists property,
               argv = systemctl_set_property (getSliceName m namespace) property).
Proof.
  cbv zeta.
  ensure_cases m namespace cpu memory w.
  all: split; [reflexivity|]; split; [reflexivity|]; split; [reflexivity|].
  all: split; [sets|]; split; [sets|].
  all: split;
    [intros path H1 H2; rewrite ?lookup_insert_ne by congruence; reflexivity|].
  all: first
    [ exists nil; split; [rewrite app_nil_r; reflexivity | intros argv []]
    | eexists; split; [rewrite <- ?app_assoc; reflexivity|];
      intros argv Hin; cbn in Hin;
      repeat (destruct Hin as [<-|Hin]; [eexists; reflexivity|]);
      destruct Hin ].
Qed.

(** [EnsureSlice] for a namespace touches nothing but the parent slice,
    the slice of that namespace, the directories on the way to them and
    the unit of the namespace: no status, event or gauge changes, no
    directory goes and only those may come, only the two
    [cgroup.subtree_control] files are written, and every command run is a
    [set-property] on the unit of the namespace, none on the unit of
    another.  When the prefix and the namespaces are names (they have no
    separator), the slice of another namespace is there afterwards exactly
    when it was there before. *)
Theorem EnsureSlice_touches_only_its_slice :
  forall (m : CgroupManager) (namespace cpu memory : string) (w : World),
    let w' := snd (EnsureSlice m namespace cpu memory w) in
    statuses w' = statuses w
    /\ events w' = events w
    /\ gauges w' = gauges w
    /\ dirs w ⊆ dirs w'
    /\ dirs w' ⊆ with_directory (GetSlicePath m namespace)
                   (with_directory (GetParentSlicePath m) (dirs w))
    /\ (forall path, path <> parent_control m -> path <> slice_control m namespace ->
        files w' !! path = files w !! path)
    /\ (exists run,
          commands w' = (commands w ++ run)%list
          /\ forall argv, In argv run ->
               exists property,
                 argv = systemctl_set_property (getSliceName m namespace) property)
    /\ (forall other, other <> namespace ->
        forall run property,
          commands w' = (commands w ++ run)%list ->
          ~ In (systemctl_set_property (getSliceName m other) property) run)
    /\ (forall other,
          no_separator (slicePrefix m) = true ->
          no_separator namespace = true ->
          no_separator other = true ->
          other <> namespace ->
          (GetSlicePath m other ∈ dirs w' <-> GetSlicePath m other ∈ dirs w)).
Proof.
  intros m namespace cpu memory w w'.
  pose proof (EnsureSlice_footprint m namespace cpu memory w) as H.
  cbv zeta in H. fold w' in H.
  destruct H as (H1 & H2 & H3 & H4 & H5 & H6 & H7).
  repeat (split; [assumption|]).
  split.
  - intros other Hother run property Hrun Hin.
    destruct H7 as (run' & Hrun' & Hall).
    rewrite Hrun' in Hrun. apply app_inv_head in Hrun. subst run'.
    destruct (Hall _ Hin) as (property' & Heq).
    unfold systemctl_set_property in Heq.
    apply Hother. apply (getSliceName_inj m). congruence.
  - intros other Hp Hn Ho Hother. split; [|apply H4].
    intros Hin. apply H5 in Hin. unfold with_directory in Hin.
    rewrite !elem_of_union, !elem_of_singleton, !elem_of_list_to_set,
      !list_elem_of_In in Hin.
    destruct (GetSlicePath_not_above m Hp namespace other Hn Ho) as [Hparent Hslice].
    destruct Hin as [Heq|[Hin|[Heq|[Hin|Hin]]]].
    + exfalso. apply Hother. exact (GetSlicePath_inj m Hp _ _ Ho Hn Heq).
    + exfalso. exact (Hslice Hin).
    + exfalso. exact (GetSlicePath_not_parent m Hp other Ho Heq).
    + exfalso. exact (Hparent Hin).
    + exact Hin.
Qed.

Lemma EnsureSlice_touches_only_its_slice_witness :
  let m := Samples.manager in
  let w := Samples.world_of Samples.quiet ∅ Workqueue.empty in
  let w' := snd (EnsureSlice m "tenant-a" "4" "8Gi" w) in
  GetSlicePath m "tenant-b" ∈ dirs w' <-> GetSlicePath m "tenant-b" ∈ dirs w.
Proof.
  intros m w w'.
  apply (proj2 (proj2 (proj2 (proj2 (proj2 (proj2 (proj2 (proj2
           (EnsureSlice_touches_only_its_slice m "tenant-a" "4" "8Gi" w)))))))));
    [reflexivity | reflexivity | reflexivity | discriminate].
Defined.

(** When the prefix and the namespaces are names (texts without
    separator), distinct namespaces have distinct units and distinct slice
    directories, none of which is the parent slice; the slice of a
    namespace is the directory named after its unit inside the parent
    slice. *)
Theorem namespaces_have_slices_of_their_own :
  forall (m : CgroupManager) (n1 n2 : string),
    no_separator (slicePrefix m) = true ->
    no_separator n1 = true ->
    no_separator n2 = true ->
    (getSliceName m n1 = getSliceName m n2 -> n1 = n2)
    /\ (GetSlicePath m n1 = GetSlicePath m n2 -> n1 = n2)
    /\ GetSlicePath m n1 <> GetParentSlicePath m
    /\ GetSlicePath m n1
       = filepath_Join (GetParentSlicePath m :: getSliceName m n1 :: nil).
Proof.
  intros m n1 n2 Hp H1 H2.
  split; [apply getSliceName_inj|].
  split; [apply GetSlicePath_inj; assumption|].
  split; [apply GetSlicePath_not_parent; assumption|].
  apply GetSlicePath_in_parent. apply getSliceName_real; assumption.
Qed.

Lemma namespaces_have_slices_of_their_own_witness :
  let m := Samples.manager in
  (getSliceName m "tenant-a" = getSliceName m "tenant-b" -> "tenant-a" = "tenant-b")
  /\ (GetSlicePath m "tenant-a" = GetSlicePath m "tenant-b" -> "tenant-a" = "tenant-b")
  /\ GetSlicePath m "tenant-a" <> GetParentSlicePath m
  /\ GetSlicePath m "tenant-a"
     = filepath_Join (GetParentSlicePath m :: getSliceName m "tenant-a" :: nil).
Proof.
  intros m.
  apply (namespaces_have_slices_of_their_own m "tenant-a" "tenant-b"); reflexivity.
Defined.

(** The condition is needed: [filepath.Join] cleans the path, so that a
    namespace with separators and [..] elements can have the slice of
    another namespace, or the parent slice itself. *)
Lemma GetSlicePath_of_a_path :
  GetSlicePath Samples.manager "y/../brasa-x" = GetSlicePath Samples.manager "x"
  /\ GetSlicePath Samples.manager "x/../../brasa"
     = GetParentSlicePath Samples.manager.
Proof. split; reflexivity. Qed.

(** ** What [EnsureSlice] does is decided by the host *)

(** Two environments in which the host refuses the same operations. *)
Definition same_host (e e' : Environment) : Prop :=
  inaccessible e = inaccessible e'
  /\ mkdir_fails e = mkdir_fails e'
  /\ write_fails e = write_fails e'
  /\ command_fails e = command_fails e'.

Lemma same_host_refl (e : Environment) : same_host e e.
Proof. repeat split. Qed.

Lemma same_host_no (e e' : Environment) :
  same_host e e' -> no_mkdir e = no_mkdir e' /\ no_write e = no_write e'.
Proof.
  intros (Hi & Hm & Hw & _). unfold no_mkdir, no_write.
  rewrite Hi, Hm, Hw. split; reflexivity.
Qed.

Ltac sets_eq :=
  let x := fresh "x" in
  unfold with_directory;
  apply set_eq; intros x;
  repeat rewrite elem_of_union;
  repeat rewrite elem_of_singleton;
  rewrite ?elem_of_empty; tauto.

Lemma insert_twice_idem (p q v : string) (f : gmap string string) :
  <[q := v]> (<[p := v]> (<[q := v]> (<[p := v]> f))) = <[q := v]> (<[p := v]> f).
Proof.
  apply map_eq. intros k.
  destruct (decide (q = k)) as [->|Hq]; [rewrite !lookup_insert_eq; reflexivity|].
  rewrite !(lookup_insert_ne _ q) by exact Hq.
  destruct (decide (p = k)) as [->|Hp]; [rewrite !lookup_insert_eq; reflexivity|].
  rewrite !(lookup_insert_ne _ p) by exact Hp.
  rewrite !(lookup_insert_ne _ q) by exact Hq.
  rewrite !(lookup_insert_ne _ p) by exact Hp. reflexivity.
Qed.

(** What a run does to the directories, the files and the commands: it
    adds the directories [A], rewrites the files by [F] and runs [run];
    nothing else of the world changes but the log. *)
Definition does {A : Type} (m : M A) (w : World) (r : A)
    (D : gset string) (F : gmap string string -> gmap string string)
    (run : list (list string)) : Prop :=
  fst (m w) = r
  /\ dirs (snd (m w)) = D ∪ dirs w
  /\ files (snd (m w)) = F (files w)
  /\ commands (snd (m w)) = (commands w ++ run)%list
  /\ env (snd (m w)) = env w.

Section Uniform.

Variable m : CgroupManager.
Variable namespace : string.
Variable e : Environment.

Lemma ensure_directories_uniform :
  exists r D F,
    (forall f, F (F f) = F f)
    /\ forall w, same_host (env w) e ->
         does (ensure_directories m namespace) w r D F nil.
Proof.
  destruct (no_mkdir e (GetParentSlicePath m)) eqn:H1;
    [|destruct (no_write e (parent_control m)) eqn:H2;
      [|destruct (no_mkdir e (GetSlicePath m namespace)) eqn:H3;
        [|destruct (no_write e (slice_control m namespace)) eqn:H4]]].
  all: eexists; eexists.
  1, 2: exists (fun f => f).
  3, 4: exists (fun f => <[parent_control m := RequiredControllers]> f).
  5: exists (fun f => <[slice_control m namespace := RequiredControllers]>
                        (<[parent_control m := RequiredControllers]> f)).
  all: split;
    [intros f; first [reflexivity | apply insert_insert_eq | apply insert_twice_idem]|].
  all: intros w Hs; destruct (same_host_no _ _ Hs) as [Hmk Hwr];
    unfold does; rewrite ensure_directories_run; cbv zeta;
    rewrite Hmk, Hwr, ?H1, ?H2, ?H3, ?H4; world_simpl;
    (split; [reflexivity|]);
    (split; [|split; [reflexivity|]; split; [rewrite app_nil_r; reflexivity | reflexivity]]).
  - instantiate (1 := ∅). sets_eq.
  - instantiate (1 := with_directory (GetParentSlicePath m) ∅). sets_eq.
  - instantiate (1 := with_directory (GetParentSlicePath m) ∅). sets_eq.
  - instantiate (1 := with_directory (GetSlicePath m namespace)
                        (with_directory (GetParentSlicePath m) ∅)). sets_eq.
  - instantiate (1 := with_directory (GetSlicePath m namespace)
                        (with_directory (GetParentSlicePath m) ∅)). sets_eq.
Qed.

Lemma apply_cpu_uniform (cpu : string) :
  exists r run,
    forall w, same_host (env w) e ->
      does (apply_cpu m namespace cpu) w r ∅ (fun f => f) run.
Proof.
  destruct (String.eqb cpu "") eqn:H1;
    [|destruct (ParseCPU cpu) as [q|err] eqn:H2;
      [destruct (command_fails e (cpu_command m namespace q)) eqn:H3|]].
  all: eexists; eexists; intros w (_ & _ & _ & Hc);
    unfold does; rewrite apply_cpu_run, ?H1, ?H2, ?Hc, ?H3; world_simpl;
    (split; [reflexivity|]);
    (split; [sets_eq|]); (split; [reflexivity|]); (split; [|reflexivity]).
  - instantiate (1 := nil). rewrite app_nil_r. reflexivity.
  - reflexivity.
  - reflexivity.
  - instantiate (1 := nil). rewrite app_nil_r. reflexivity.
Qed.

Lemma apply_memory_uniform (memory : string) :
  exists r run,
    forall w, same_host (env w) e ->
      does (apply_memory m namespace memory) w r ∅ (fun f => f) run.
Proof.
  destruct (String.eqb memory "") eqn:H1;
    [|destruct (ParseMemory memory) as [b|err] eqn:H2;
      [destruct (command_fails e (memory_command m namespace b)) eqn:H3|]].
  all: eexists; eexists; intros w (_ & _ & _ & Hc);
    unfold does; rewrite apply_memory_run, ?H1, ?H2, ?Hc, ?H3; world_simpl;
    (split; [reflexivity|]);
    (split; [sets_eq|]); (split; [reflexivity|]); (split; [|reflexivity]).
  - instantiate (1 := nil). rewrite app_nil_r. reflexivity.
  - reflexivity.
  - reflexivity.
  - instantiate (1 := nil). rewrite app_nil_r. reflexivity.
Qed.

End Uniform.

Lemma does_bind {A B : Type} (m : M A) (k : A -> M B) (w : World)
    (r1 : A) (D1 : gset string) (F1 : gmap string string -> gmap string string)
    (c1 : list (list string))
    (r2 : B) (D2 : gset string) (F2 : gmap string string -> gmap string string)
    (c2 : list (list string)) :
  does m w r1 D1 F1 c1 ->
  does (k r1) (snd (m w)) r2 D2 F2 c2 ->
  does (bind m k) w r2 (D2 ∪ D1) (fun f => F2 (F1 f)) (c1 ++ c2)%list.
Proof.
  unfold does, bind. destruct (m w) as [a w1]. cbn [fst snd].
  intros (-> & Hd1 & Hf1 & Hc1 & He1) (Hr & Hd2 & Hf2 & Hc2 & He2).
  split; [exact Hr|]. split; [rewrite Hd2, Hd1; sets_eq|].
  split; [rewrite Hf2, Hf1; reflexivity|].
  split; [rewrite Hc2, Hc1, app_assoc; reflexivity|].
  rewrite He2. exact He1.
Qed.

Lemma does_log (l : Level) (msg : string) (w : World) :
  does (log l msg) w tt ∅ (fun f => f) nil.
Proof.
  unfold does, log, modify. world_simpl.
  split; [reflexivity|]. split; [sets_eq|]. split; [reflexivity|].
  split; [rewrite app_nil_r; reflexivity | reflexivity].
Qed.

Lemma does_ret {A : Type} (a : A) (w : World) :
  does (ret a) w a ∅ (fun f => f) nil.
Proof.
  unfold does, ret. world_simpl.
  split; [reflexivity|]. split; [sets_eq|]. split; [reflexivity|].
  split; [rewrite app_nil_r; reflexivity | reflexivity].
Qed.

Lemma does_env {A : Type} (m : M A) (w : World) (r : A) D F run (e : Environment) :
  does m w r D F run -> same_host (env w) e -> same_host (env (snd (m w))) e.
Proof. intros (_ & _ & _ & _ & He) Hs. rewrite He. exact Hs. Qed.

Lemma does_ext {A : Type} (m m' : M A) (w : World) (r : A) D F run :
  m w = m' w -> does m' w r D F run -> does m w r D F run.
Proof. unfold does. intros ->. exact (fun H => H). Qed.

Lemma does_weaken {A : Type} (m : M A) (w : World) (r : A) D F run D' F' run' :
  does m w r D' F' run' ->
  D' ∪ dirs w = D ∪ dirs w -> F' (files w) = F (files w) -> run' = run ->
  does m w r D F run.
Proof.
  unfold does. intros (Hr & Hd & Hf & Hc & He) HD HF <-.
  rewrite Hd, Hf, HD, HF. repeat split; assumption.
Qed.

(** [EnsureSlice], whatever the world it starts from, returns the same
    error, adds the same directories, writes the same files and runs the
    same commands as long as the host refuses the same operations. *)
Lemma EnsureSlice_uniform (m : CgroupManager) (namespace cpu memory : string)
    (e : Environment) :
  exists r D F run,
    (forall f, F (F f) = F f)
    /\ forall w, same_host (env w) e ->
         does (EnsureSlice m namespace cpu memory) w r D F run.
Proof.
  destruct (ensure_directories_uniform m namespace e) as (r1 & D1 & F1 & HF & H1).
  destruct (apply_cpu_uniform m namespace e cpu) as (r2 & c2 & H2).
  destruct (apply_memory_uniform m namespace e memory) as (r3 & c3 & H3).
  exists (match r1 with
          | Some e1 => Some e1
          | None => match r2 with
                    | Some e2 => Some e2
                    | None => r3
                    end
          end), D1, F1,
         (match r1 with
          | Some _ => nil
          | None => match r2 with
                    | Some _ => c2
                    | None => c2 ++ c3
                    end
          end)%list.
  split; [exact HF|].
  intros w Hs.
  assert (Hphases := EnsureSlice_phases m namespace cpu memory w).
  pose proof (does_log DebugLevel "Ensuring cgroup slice" w) as L0.
  pose proof (does_env _ _ _ _ _ _ e L0 Hs) as S0.
  pose proof (H1 _ S0) as L1.
  destruct r1 as [e1|].
  - eapply does_weaken.
    + eapply does_ext; [exact Hphases|].
      eapply does_bind; [exact L0|].
      eapply does_bind; [exact L1|].
      apply does_ret.
    + sets_eq.
    + reflexivity.
    + reflexivity.
  - pose proof (does_env _ _ _ _ _ _ e L1 S0) as S1.
    pose proof (H2 _ S1) as L2.
    destruct r2 as [e2|].
    + eapply does_weaken.
      * eapply does_ext; [exact Hphases|].
        eapply does_bind; [exact L0|].
        eapply does_bind; [exact L1|].
        eapply does_bind; [exact L2|].
        apply does_ret.
      * sets_eq.
      * reflexivity.
      * cbn. rewrite app_nil_r. reflexivity.
    + pose proof (does_env _ _ _ _ _ _ e L2 S1) as S2.
      pose proof (H3 _ S2) as L3.
      destruct r3 as [e3|].
      * eapply does_weaken.
        { eapply does_ext; [exact Hphases|].
          eapply does_bind; [exact L0|].
          eapply does_bind; [exact L1|].
          eapply does_bind; [exact L2|].
          eapply does_bind; [exact L3|].
          apply does_ret. }
        { sets_eq. }
        { reflexivity. }
        { cbn. rewrite app_nil_r. reflexivity. }
      * eapply does_weaken.
        { eapply does_ext; [exact Hphases|].
          eapply does_bind; [exact L0|].
          eapply does_bind; [exact L1|].
          eapply does_bind; [exact L2|].
          eapply does_bind; [exact L3|].
          eapply does_bind; [apply does_log|].
          apply does_ret. }
        { sets_eq. }
        { reflexivity. }
        { cbn. rewrite !app_nil_r. reflexivity. }
Qed.

(** The periodic resynchronisation runs [EnsureSlice] again: the second
    run returns what the first returned, leaves the directories and the
    files as the first left them, and runs the commands of the first once
    more. *)
Theorem EnsureSlice_again :
  forall (m : CgroupManager) (namespace cpu memory : string) (w : World),
    let first := EnsureSlice m namespace cpu memory w in
    let second := EnsureSlice m namespace cpu memory (snd first) in
    fst second = fst first
    /\ dirs (snd second) = dirs (snd first)
    /\ files (snd second) = files (snd first)
    /\ exists run,
         commands (snd first) = (commands w ++ run)%list
         /\ commands (snd second) = (commands (snd first) ++ run)%list.
Proof.
  intros m namespace cpu memory w first second.
  destruct (EnsureSlice_uniform m namespace cpu memory (env w))
    as (r & D & F & run & HF & H).
  destruct (H w (same_host_refl _)) as (R1 & D1 & F1 & C1 & E1).
  fold first in R1, D1, F1, C1, E1.
  assert (Hs : same_host (env (snd first)) (env w)).
  { rewrite E1. apply same_host_refl. }
  destruct (H (snd first) Hs) as (R2 & D2 & F2 & C2 & _).
  fold second in R2, D2, F2, C2.
  split; [congruence|].
  split; [rewrite D2, D1; sets_eq|].
  split; [rewrite F2, F1; apply HF|].
  exists run. split; assumption.
Qed.


(** The limits are applied in order and nothing is undone: with a memory
    limit that does not parse, [EnsureSlice] fails, yet it has created the
    directories and run the command of the CPU limit exactly as it does
    when no memory limit is given. *)
Theorem EnsureSlice_bad_memory_limit_keeps_the_cpu_limit :
  forall (m : CgroupManager) (namespace cpu memory : string) (w : World)
         (e : error),
    memory <> "" ->
    ParseMemory memory = Err e ->
    fst (EnsureSlice m namespace cpu "" w) = None ->
    let bad := EnsureSlice m namespace cpu memory w in
    let good := EnsureSlice m namespace cpu "" w in
    fst bad = Some (ErrorfW ("failed to parse memory limit for " ++ namespace) e)
    /\ dirs (snd bad) = dirs (snd good)
    /\ files (snd bad) = files (snd good)
    /\ commands (snd bad) = commands (snd good).
Proof.
  intros m namespace cpu memory w e Hne Hparse Hgood bad good.
  subst bad good. revert Hgood.
  rewrite !EnsureSlice_phases. unfold bind.
  destruct (log DebugLevel "Ensuring cgroup slice" w) as [[] w0].
  destruct (ensure_directories m namespace w0) as [[e1|] w1]; [discriminate|].
  destruct (apply_cpu m namespace cpu w1) as [[e2|] w2]; [discriminate|].
  rewrite !apply_memory_run, Hparse.
  destruct (String.eqb_spec memory "") as [->|_]; [contradiction|].
  intros _. cbn. repeat split.
Qed.

Lemma EnsureSlice_bad_memory_limit_keeps_the_cpu_limit_witness :
  let w := Samples.world_of Samples.quiet ∅ Workqueue.empty in
  let bad := EnsureSlice Samples.manager "tenant-a" "4" "8gi" w in
  let good := EnsureSlice Samples.manager "tenant-a" "4" "" w in
  fst bad = Some (ErrorfW ("failed to parse memory limit for " ++ "tenant-a")
                    (Errorf "invalid memory format: 8gi"))
  /\ dirs (snd bad) = dirs (snd good)
  /\ files (snd bad) = files (snd good)
  /\ commands (snd bad) = commands (snd good).
Proof.
  intros w.
  apply (EnsureSlice_bad_memory_limit_keeps_the_cpu_limit
           Samples.manager "tenant-a" "4" "8gi" w).
  - discriminate.
  - vm_compute. reflexivity.
  - vm_compute. reflexivity.
Defined.

(** ** [SliceExists] *)

Lemma SliceExists_run (m : CgroupManager) (namespace : string) (w : World) :
  fst (Readers.SliceExists m namespace w)
  = (negb (inaccessible (env w) (GetSlicePath m namespace))
     && bool_decide (GetSlicePath m namespace ∈ dirs w))%bool.
Proof.
  unfold Readers.SliceExists, os_Stat, bind, ret, get.
  set (path := GetSlicePath m namespace). clearbody path.
  destruct (inaccessible (env w) path); cbn; [reflexivity|].
  destruct (decide (path ∈ dirs w)) as [Hin|Hout]; cbn.
  - rewrite bool_decide_eq_true_2 by exact Hin. reflexivity.
  - rewrite bool_decide_eq_false_2 by exact Hout. reflexivity.
Qed.

(** After [EnsureSlice] has returned nil for a namespace, [SliceExists]
    answers true for it; after [RemoveSlice] has returned nil, it answers
    false. *)
Theorem SliceExists_follows_EnsureSlice_and_RemoveSlice :
  forall (m : CgroupManager) (namespace cpu memory : string) (w : World),
    (fst (EnsureSlice m namespace cpu memory w) = None ->
     fst (Readers.SliceExists m namespace (snd (EnsureSlice m namespace cpu memory w)))
     = true)
    /\ (fst (RemoveSlice m namespace w) = None ->
        fst (Readers.SliceExists m namespace (snd (RemoveSlice m namespace w)))
        = false).
Proof.
  intros m namespace cpu memory w. split.
  - rewrite SliceExists_run.
    ensure_cases m namespace cpu memory w.
    all: try discriminate.
    all: intros _;
      match goal with
      | H : no_mkdir _ (GetSlicePath _ _) = false |- _ =>
          apply orb_false_elim in H as [-> _]
      end;
      rewrite bool_decide_eq_true_2 by apply in_with_directory; reflexivity.
  - rewrite SliceExists_run, RemoveSlice_run. cbv zeta.
    destruct (inaccessible (env w) (GetSlicePath m namespace)) eqn:Hacc;
      [discriminate|].
    destruct (decide (GetSlicePath m namespace ∈ dirs w)) as [Hin|Hout].
    + destruct (busy (env w) (GetSlicePath m namespace)); [discriminate|].
      intros _. world_simpl. rewrite Hacc.
      rewrite bool_decide_eq_false_2 by apply not_in_without. reflexivity.
    + intros _. world_simpl. rewrite Hacc.
      rewrite bool_decide_eq_false_2 by exact Hout. reflexivity.
Qed.

Lemma SliceExists_follows_EnsureSlice_and_RemoveSlice_witness :
  let w := Samples.world_of Samples.quiet ∅ Workqueue.empty in
  let made := snd (EnsureSlice Samples.manager "tenant-a" "4" "8Gi" w) in
  fst (Readers.SliceExists Samples.manager "tenant-a" made) = true
  /\ fst (Readers.SliceExists Samples.manager "tenant-a"
            (snd (RemoveSlice Samples.manager "tenant-a" made))) = false.
Proof.
  intros w made. split.
  - apply (proj1 (SliceExists_follows_EnsureSlice_and_RemoveSlice
                    Samples.manager "tenant-a" "4" "8Gi" w)).
    vm_compute. reflexivity.
  - apply (proj2 (SliceExists_follows_EnsureSlice_and_RemoveSlice
                    Samples.manager "tenant-a" "4" "8Gi" made)).
    vm_compute. reflexivity.
Defined.

(* ===================================================================== *)
(** * Further properties of the controller                                *)
(* ===================================================================== *)

(** ** One reconciliation, by cases *)

Definition reconciling : LogEntry :=
  {| log_level := DebugLevel; log_message := "Reconciling NamespaceQuota" |}.

Definition reference_of (u : Unstructured) : ObjectReference :=
  {| ref_APIVersion := GetAPIVersion u; ref_Kind := GetKind u;
     ref_Name := GetName u; ref_Namespace := GetNamespace u;
     ref_UID := GetUID u |}.

Lemma reconcile_run (c : Controller) (key : string) (w : World) :
  let w0 := set_logs (logs w ++ reconciling :: nil) w in
  reconcile c key w =
    match store (env w) key with
    | LookupError => (Some (ErrorfW "failed to get object from cache" StoreError), w0)
    | NotFound =>
        handleDelete c key
          (set_logs (logs w0 ++ {| log_level := InfoLevel;
                                   log_message := "NamespaceQuota deleted, removing cgroup" |}
                       :: nil) w0)
    | Found ItemOther => (Some (Errorf "unexpected object type"), w0)
    | Found (ItemUnstructured u) =>
        match ParseNamespaceQuota u with
        | Err err =>
            (Some err,
             set_events
               (events w ++
                {| ev_object := reference_of u; ev_type := "Warning";
                   ev_reason := "CgroupFailed";
                   ev_message := "Failed to parse NamespaceQuota: " ++ error_text err |}
                :: nil)
               (snd (updateStatus (GetName u) false ("Parse error: " ++ error_text err)
                       (set_logs (logs w0 ++ {| log_level := ErrorLevel;
                                                log_message := "Failed to parse NamespaceQuota" |}
                                    :: nil) w0))))
        | Ok spec => handleQuota c u spec w0
        end
    end.
Proof.
  intros w0. subst w0.
  unfold reconcile, bind, ret, get, log, modify. world_simpl.
  destruct (store (env w) key) as [| |[u|]]; try reflexivity.
  destruct (ParseNamespaceQuota u) as [spec|err]; [reflexivity|].
  world_simpl. rewrite !updateStatus_run. world_simpl.
  destruct (api_get_fails (env w) (GetName u) || api_update_fails (env w) (GetName u))%bool;
    reflexivity.
Qed.

(** [updateMetrics] sets the gauges of the namespace when there is a
    metrics server, and does nothing else. *)
Definition gauges_of (stats : CgroupStats) (spec : NamespaceQuotaSpec) : Gauges :=
  {| g_cpuUsage := of_Z (CPUUsageUsec stats);
     g_cpuLimit :=
       of_Z (if String.eqb (CPU spec) "" then 0
             else match ParseCPU (CPU spec) with Ok q => q | Err _ => 0 end);
     g_cpuThrottledPeriods := of_Z (CPUThrottled stats);
     g_memoryUsage := of_Z (MemoryUsageBytes stats);
     g_memoryLimit :=
       of_Z (if String.eqb (Memory spec) "" then 0
             else match ParseMemory (Memory spec) with Ok b => b | Err _ => 0 end);
     g_oomKills := of_Z (OOMKills stats) |}.

Lemma updateMetrics_run (c : Controller) (spec : NamespaceQuotaSpec) (w : World) :
  updateMetrics c spec w =
    (tt,
     match metricsServer c with
     | None => w
     | Some ms =>
         set_gauges
           (<[Namespace spec :=
                gauges_of (counters (env w)
                             (GetSlicePath (ms_cgroupManager ms) (Namespace spec)))
                  spec]> (gauges w)) w
     end).
Proof.
  unfold updateMetrics. destruct (metricsServer c) as [ms|]; [|reflexivity].
  unfold ReadCgroupStats, UpdateMetrics, bind, ret, get, modify. reflexivity.
Qed.

Definition ensuring : LogEntry :=
  {| log_level := InfoLevel; log_message := "Ensuring cgroup slice" |}.

(** The event of the enabled branch of [handleQuota], by the error
    [EnsureSlice] returned. *)
Definition configured_event (obj : Unstructured) (spec : NamespaceQuotaSpec)
    (err : option error) : Event :=
  match err with
  | Some e =>
      {| ev_object := reference_of obj; ev_type := "Warning";
         ev_reason := "CgroupFailed";
         ev_message := "Failed to configure cgroup: " ++ error_text e |}
  | None =>
      {| ev_object := reference_of obj; ev_type := "Normal";
         ev_reason := "CgroupConfigured";
         ev_message := "Cgroup configured with CPU=" ++ CPU spec
                       ++ ", Memory=" ++ Memory spec |}
  end.

Definition configured_status (e : Environment) (err : option error) : Status :=
  match err with
  | Some e' =>
      {| st_ready := false; st_message := "Cgroup error: " ++ error_text e';
         st_lastUpdated := now e |}
  | None =>
      {| st_ready := true; st_message := "Cgroup configured successfully";
         st_lastUpdated := now e |}
  end.

Lemma handleQuota_enabled (c : Controller) (obj : Unstructured)
    (spec : NamespaceQuotaSpec) (w : World) :
  Enabled spec = true ->
  let r := handleQuota c obj spec w in
  let ens := EnsureSlice (cgroupManager c) (Namespace spec) (CPU spec) (Memory spec)
               (set_logs (logs w ++ ensuring :: nil) w) in
  fst r = fst ens
  /\ dirs (snd r) = dirs (snd ens)
  /\ files (snd r) = files (snd ens)
  /\ commands (snd r) = commands (snd ens)
  /\ events (snd r) = (events w ++ configured_event obj spec (fst ens) :: nil)%list
  /\ statuses (snd r)
     = (if (api_get_fails (env w) (GetName obj) || api_update_fails (env w) (GetName obj))%bool
        then statuses w
        else <[GetName obj := configured_status (env w) (fst ens)]> (statuses w))
  /\ gauges (snd r)
     = match fst ens, metricsServer c with
       | None, Some ms =>
           <[Namespace spec :=
               gauges_of (counters (env w)
                            (GetSlicePath (ms_cgroupManager ms) (Namespace spec)))
                 spec]> (gauges w)
       | _, _ => gauges w
       end
  /\ env (snd r) = env w
  /\ workqueue (snd r) = workqueue w.
Proof.
  intros Hen r ens. subst r ens.
  destruct (handleQuota c obj spec w) as [res wf] eqn:Hrun.
  unfold handleQuota in Hrun. rewrite Hen in Hrun. cbn [negb] in Hrun.
  unfold bind in Hrun. unfold log at 1 in Hrun. unfold modify at 1 in Hrun.
  unfold ensuring.
  set (w0 := set_logs _ w) in *.
  pose proof (EnsureSlice_footprint (cgroupManager c) (Namespace spec) (CPU spec)
                (Memory spec) w0) as (Hst & Hev & Hga & _).
  pose proof (frame_EnsureSlice (cgroupManager c) (Namespace spec) (CPU spec)
                (Memory spec) w0) as (Henv & Hwq).
  destruct (EnsureSlice (cgroupManager c) (Namespace spec) (CPU spec) (Memory spec) w0)
    as [err w1].
  subst w0. cbn [fst snd] in *. world_simpl. cbn [statuses events gauges env workqueue set_logs] in *.
  destruct err as [e|].
  - unfold log, modify in Hrun. rewrite updateStatus_run in Hrun.
    unfold EmitEventForObject, recorder_Event, modify, ret in Hrun.
    world_simpl. cbn [env set_logs logs] in Hrun. rewrite Henv in Hrun.
    destruct (api_get_fails (env w) (GetName obj) || api_update_fails (env w) (GetName obj))%bool;
      inversion Hrun; subst res wf; clear Hrun;
      world_simpl; rewrite ?Hst, ?Hev, ?Hga, ?Henv, ?Hwq; repeat split.
  - rewrite updateStatus_run in Hrun.
    unfold EmitEventForObject, recorder_Event, modify, ret in Hrun.
    rewrite updateMetrics_run in Hrun. rewrite Henv in Hrun.
    destruct (api_get_fails (env w) (GetName obj) || api_update_fails (env w) (GetName obj))%bool;
      destruct (metricsServer c) as [ms|];
      inversion Hrun; subst res wf; clear Hrun;
      world_simpl; rewrite ?Hst, ?Hev, ?Hga, ?Henv, ?Hwq; repeat split.
Qed.

(** What [RemoveSlice] may change: the directory of the slice, and the
    log. *)
Lemma RemoveSlice_footprint (m : CgroupManager) (namespace : string) (w : World) :
  let w' := snd (RemoveSlice m namespace w) in
  files w' = files w
  /\ commands w' = commands w
  /\ statuses w' = statuses w
  /\ events w' = events w
  /\ gauges w' = gauges w
  /\ (dirs w' = dirs w \/ dirs w' = dirs w ∖ {[GetSlicePath m namespace]}).
Proof.
  cbv zeta. rewrite RemoveSlice_run. cbv zeta.
  destruct (inaccessible (env w) (GetSlicePath m namespace));
    [repeat split; left; reflexivity|].
  destruct (decide (GetSlicePath m namespace ∈ dirs w));
    [destruct (busy (env w) (GetSlicePath m namespace))|];
    world_simpl; repeat split; first [left; reflexivity | right; reflexivity].
Qed.

Definition disabling : LogEntry :=
  {| log_level := InfoLevel;
     log_message := "Quota disabled, removing cgroup if exists" |}.

Lemma handleQuota_disabled_footprint (c : Controller) (obj : Unstructured)
    (spec : NamespaceQuotaSpec) (w : World) :
  Enabled spec = false ->
  let r := handleQuota c obj spec w in
  files (snd r) = files w
  /\ commands (snd r) = commands w
  /\ gauges (snd r) = gauges w
  /\ statuses (snd r)
     = (if (api_get_fails (env w) (GetName obj) || api_update_fails (env w) (GetName obj))%bool
        then statuses w
        else <[GetName obj := disabled_status w]> (statuses w)).
Proof.
  intros Hen r. subst r.
  destruct (handleQuota c obj spec w) as [res wf] eqn:Hrun.
  unfold handleQuota in Hrun. rewrite Hen in Hrun. cbn [negb] in Hrun.
  unfold bind in Hrun. unfold log at 1 in Hrun. unfold modify at 1 in Hrun.
  set (w0 := set_logs _ w) in *.
  pose proof (RemoveSlice_footprint (cgroupManager c) (Namespace spec) w0)
    as (Hf & Hc & Hst & Hev & Hga & _).
  pose proof (RemoveSlice_env (cgroupManager c) (Namespace spec) w0) as Henv.
  destruct (RemoveSlice (cgroupManager c) (Namespace spec) w0) as [err w1].
  subst w0. cbn [fst snd files commands statuses events gauges env set_logs] in *.
  assert (Hlog : exists w2,
            (match err with
             | Some _ => log WarnLevel "Failed to remove cgroup slice"
             | None => ret tt
             end) w1 = (tt, w2)
            /\ files w2 = files w1 /\ commands w2 = commands w1
            /\ statuses w2 = statuses w1 /\ gauges w2 = gauges w1
            /\ env w2 = env w1).
  { destruct err; eexists; (split; [reflexivity|]); repeat split. }
  destruct Hlog as (w2 & Hw2 & Hf2 & Hc2 & Hst2 & Hga2 & Henv2).
  rewrite Hw2 in Hrun. rewrite updateStatus_run in Hrun.
  unfold EmitEventForObject, recorder_Event, modify, ret in Hrun.
  rewrite Henv2, Henv in Hrun. unfold disabled_status.
  destruct (api_get_fails (env w) (GetName obj) || api_update_fails (env w) (GetName obj))%bool;
    inversion Hrun; subst res wf; clear Hrun; world_simpl;
    rewrite ?Hf2, ?Hc2, ?Hst2, ?Hga2, ?Hf, ?Hc, ?Hst, ?Hga; repeat split.
Qed.

(** ** What decides the result of a reconciliation *)



(** ** What a reconciliation reports *)

(** For a declaration of the store, [reconcile] records exactly one event,
    about that declaration, of type Warning (reason [CgroupFailed]) when
    it returns an error and of type Normal when it returns nil; and the
    status it writes, when the API server takes it, is that of the
    declaration alone, with [ready] true exactly when nil is returned. *)
Theorem reconcile_reports_what_it_returns :
  forall (c : Controller) (key : string) (u : Unstructured) (w : World),
    store (env w) key = Found (ItemUnstructured u) ->
    let r := reconcile c key w in
    (exists ev,
       events (snd r) = (events w ++ ev :: nil)%list
       /\ ev_object ev = reference_of u
       /\ ev_type ev = match fst r with Some _ => "Warning" | None => "Normal" end
       /\ (fst r <> None -> ev_reason ev = "CgroupFailed"))
    /\ (exists message,
          statuses (snd r)
          = if (api_get_fails (env w) (GetName u) || api_update_fails (env w) (GetName u))%bool
            then statuses w
            else <[GetName u :=
                     {| st_ready := match fst r with Some _ => false | None => true end;
                        st_message := message;
                        st_lastUpdated := now (env w) |}]> (statuses w)).
Proof.
  intros c key u w Hstore r. subst r.
  rewrite reconcile_run. cbv zeta. rewrite Hstore.
  destruct (ParseNamespaceQuota u) as [spec|err].
  - destruct (Enabled spec) eqn:Hen.
    + match goal with |- context [handleQuota c u spec ?x] => set (w0 := x) end.
      pose proof (handleQuota_enabled c u spec w0 Hen) as H1. cbv zeta in H1.
      destruct H1 as (Hr & _ & _ & _ & Hev & Hst & _).
      rewrite Hr, Hev, Hst. subst w0. world_simpl.
      match goal with
      | |- context [fst (EnsureSlice ?a ?b ?x ?y ?z)] =>
          destruct (fst (EnsureSlice a b x y z)) as [e|]
      end.
      * split.
        { eexists. split; [reflexivity|]. repeat split. }
        eexists. reflexivity.
      * split.
        { eexists. split; [reflexivity|]. repeat split. intros H. contradiction. }
        eexists. reflexivity.
    + match goal with |- context [handleQuota c u spec ?x] => set (w0 := x) end.
      pose proof (handleQuota_disabled c u spec w0 Hen) as H1.
      pose proof (handleQuota_disabled_footprint c u spec w0 Hen) as H2.
      cbv zeta in H1, H2.
      destruct H1 as (Hr & Hev & _). destruct H2 as (_ & _ & _ & Hst).
      rewrite Hr, Hev, Hst. subst w0. world_simpl.
      split.
      { eexists. split; [reflexivity|]. repeat split. intros H. contradiction. }
      eexists. reflexivity.
  - world_simpl. rewrite updateStatus_run. world_simpl.
    split.
    { eexists. split; [reflexivity|]. repeat split. }
    exists ("Parse error: " ++ error_text err).
    destruct (api_get_fails (env w) (GetName u) || api_update_fails (env w) (GetName u))%bool;
      reflexivity.
Qed.

Lemma reconcile_reports_what_it_returns_witness :
  let u := quota_declaration "tenant-a-quota" "tenant-a" (Present true) in
  let e := {| store := fun _ => Found (ItemUnstructured u);
              inaccessible := inaccessible Samples.quiet;
              busy := busy Samples.quiet;
              mkdir_fails := mkdir_fails Samples.quiet;
              write_fails := write_fails Samples.quiet;
              command_fails := fun _ => true;
              api_get_fails := api_get_fails Samples.quiet;
              api_update_fails := api_update_fails Samples.quiet;
              now := now Samples.quiet;
              counters := counters Samples.quiet |} in
  let w := Samples.world_of e ∅ Workqueue.empty in
  let r := reconcile Samples.controller "tenant-a-quota" w in
  (exists ev,
     events (snd r) = (events w ++ ev :: nil)%list
     /\ ev_object ev = reference_of u
     /\ ev_type ev = match fst r with Some _ => "Warning" | None => "Normal" end
     /\ (fst r <> None -> ev_reason ev = "CgroupFailed"))
  /\ (exists message,
        statuses (snd r)
        = if (api_get_fails (env w) (GetName u) || api_update_fails (env w) (GetName u))%bool
          then statuses w
          else <[GetName u :=
                   {| st_ready := match fst r with Some _ => false | None => true end;
                      st_message := message;
                      st_lastUpdated := now (env w) |}]> (statuses w)).
Proof.
  intros u e w.
  apply (reconcile_reports_what_it_returns Samples.controller "tenant-a-quota" u w).
  reflexivity.
Defined.

(** ** The gauges *)



Lemma grows_handleDelete c key : grows (handleDelete c key).
Proof.
  unfold handleDelete. repeat grows_step.
Qed.

Lemma grows_handleQuota c obj spec : grows (handleQuota c obj spec).
Proof.
  unfold handleQuota. repeat grows_step.
Qed.

(** ** What a reconciliation leaves alone *)

(** [reconcile] only adds to what has been recorded: the events, the log
    and the commands run so far are kept as they are, at most one event
    is added, the log gets at least its first line, and neither the
    environment nor the work queue changes. *)
Theorem reconcile_only_appends :
  forall (c : Controller) (key : string) (w : World),
    let w' := snd (reconcile c key w) in
    env w' = env w
    /\ workqueue w' = workqueue w
    /\ (exists added, events w' = (events w ++ added)%list /\ (length added <= 1)%nat)
    /\ (exists lines, logs w' = (logs w ++ reconciling :: lines)%list)
    /\ (exists run, commands w' = (commands w ++ run)%list).
Proof.
  intros c key w w'.
  destruct (grows_reconcile c key w) as [He Hq _ _ Hc]. fold w' in He, Hq, Hc.
  split; [exact He|]. split; [exact Hq|].
  assert (Hlogs : exists lines, logs w' = (logs w ++ reconciling :: lines)%list).
  { subst w'. rewrite reconcile_run. cbv zeta.
    destruct (store (env w) key) as [| |[u|]].
    - exists nil. reflexivity.
    - match goal with |- context [handleDelete c key ?x] => set (w0 := x) end.
      destruct (after_logs _ _ (grows_handleDelete c key w0)) as (l & Hl).
      rewrite Hl. subst w0. world_simpl. eexists.
      rewrite <- !app_assoc. reflexivity.
    - destruct (ParseNamespaceQuota u) as [spec|err].
      + match goal with |- context [handleQuota c u spec ?x] => set (w0 := x) end.
        destruct (after_logs _ _ (grows_handleQuota c u spec w0)) as (l & Hl).
        rewrite Hl. subst w0. world_simpl. eexists.
        rewrite <- !app_assoc. reflexivity.
      + world_simpl. rewrite updateStatus_run. world_simpl.
        destruct (api_get_fails (env w) (GetName u)
                  || api_update_fails (env w) (GetName u))%bool;
          world_simpl; eexists; rewrite <- !app_assoc; reflexivity.
    - exists nil. reflexivity. }
  split; [|split; [exact Hlogs | exact Hc]].
  subst w'. rewrite reconcile_run. cbv zeta.
  destruct (store (env w) key) as [| |[u|]] eqn:Hstore.
  - exists nil. rewrite app_nil_r. split; [reflexivity | cbn; lia].
  - match goal with |- context [handleDelete c key ?x] => set (w0 := x) end.
    destruct (handleDelete_spec c key w0) as (_ & Hev & _).
    rewrite Hev. subst w0. world_simpl. eexists. split; [reflexivity|].
    destruct (fst (RemoveSlice _ _ _)); cbn; lia.
  - destruct (ParseNamespaceQuota u) as [spec|err].
    + destruct (Enabled spec) eqn:Hen.
      * match goal with |- context [handleQuota c u spec ?x] => set (w0 := x) end.
        pose proof (handleQuota_enabled c u spec w0 Hen) as H. cbv zeta in H.
        destruct H as (_ & _ & _ & _ & Hev & _).
        rewrite Hev. eexists. split; [reflexivity | cbn; lia].
      * match goal with |- context [handleQuota c u spec ?x] => set (w0 := x) end.
        pose proof (handleQuota_disabled c u spec w0 Hen) as H. cbv zeta in H.
        destruct H as (_ & Hev & _).
        rewrite Hev. eexists. split; [reflexivity | cbn; lia].
    + world_simpl. eexists. split; [reflexivity | cbn; lia].
  - exists nil. rewrite app_nil_r. split; [reflexivity | cbn; lia].
Qed.

(** Reconciling a key that is gone from the store removes at most the
    slice named after the key itself: no file, command, status or gauge
    changes, and no other directory goes.  When the prefix, the key and
    another name are names (texts without separator), the slice of the
    other name is there afterwards exactly when it was there before. *)
Theorem reconcile_of_a_deleted_key_touches_only_the_slice_of_that_name :
  forall (c : Controller) (key : string) (w : World),
    store (env w) key = NotFound ->
    let w' := snd (reconcile c key w) in
    files w' = files w
    /\ commands w' = commands w
    /\ statuses w' = statuses w
    /\ gauges w' = gauges w
    /\ (dirs w' = dirs w
        \/ dirs w' = dirs w ∖ {[GetSlicePath (cgroupManager c) key]})
    /\ forall namespace,
         no_separator (slicePrefix (cgroupManager c)) = true ->
         no_separator key = true ->
         no_separator namespace = true ->
         namespace <> key ->
         (GetSlicePath (cgroupManager c) namespace ∈ dirs w'
          <-> GetSlicePath (cgroupManager c) namespace ∈ dirs w).
Proof.
  intros c key w Hstore w'. subst w'.
  rewrite reconcile_run. cbv zeta. rewrite Hstore.
  match goal with |- context [handleDelete c key ?x] => set (w0 := x) end.
  assert (H : files (snd (handleDelete c key w0)) = files w
              /\ commands (snd (handleDelete c key w0)) = commands w
              /\ statuses (snd (handleDelete c key w0)) = statuses w
              /\ gauges (snd (handleDelete c key w0)) = gauges w
              /\ (dirs (snd (handleDelete c key w0)) = dirs w
                  \/ dirs (snd (handleDelete c key w0))
                     = dirs w ∖ {[GetSlicePath (cgroupManager c) key]})).
  { destruct (handleDelete c key w0) as [res wf] eqn:Hrun.
    unfold handleDelete, bind in Hrun. unfold log at 1, modify at 1 in Hrun.
    match type of Hrun with context [RemoveSlice ?a ?b ?x] => set (w1 := x) in Hrun end.
    pose proof (RemoveSlice_footprint (cgroupManager c) key w1) as F.
    cbv zeta in F. destruct F as (Hf & Hc & Hst & Hev & Hga & Hd).
    destruct (RemoveSlice (cgroupManager c) key w1) as [err w2].
    subst w1 w0. cbn [fst snd files commands statuses events gauges dirs set_logs] in *.
    destruct err as [e|]; unfold log, EmitEvent, recorder_Event, modify, ret in Hrun;
      inversion Hrun; subst res wf; clear Hrun;
      world_simpl; repeat split; assumption. }
  destruct H as (Hf & Hc & Hst & Hga & Hd).
  repeat (split; [assumption|]).
  intros namespace Hp Hk Hn Hne. destruct Hd as [->| ->]; [reflexivity|].
  rewrite elem_of_difference, elem_of_singleton. split.
  - intros [H _]. exact H.
  - intros H. split; [exact H|]. intros Heq. apply Hne.
    exact (GetSlicePath_inj _ Hp _ _ Hn Hk Heq).
Qed.

(** The declaration [tenant-a-quota] of the namespace [tenant-a] is
    deleted: the slice of [tenant-a] stays. *)
Lemma reconcile_of_a_deleted_key_touches_only_the_slice_of_that_name_witness :
  let w := Samples.world_of Samples.quiet {[ Samples.tenant_a_slice ]} Workqueue.empty in
  let w' := snd (reconcile Samples.controller "tenant-a-quota" w) in
  GetSlicePath Samples.manager "tenant-a" ∈ dirs w'
  <-> GetSlicePath Samples.manager "tenant-a" ∈ dirs w.
Proof.
  intros w w'.
  apply (reconcile_of_a_deleted_key_touches_only_the_slice_of_that_name
           Samples.controller "tenant-a-quota" w eq_refl);
    [reflexivity | reflexivity | reflexivity | discriminate].
Defined.

(** ** The worker *)

(** [processNextItem] returns false, and the worker stops, only when the
    queue is empty and shut down, and then nothing has changed; no error
    of [reconcile] stops the worker.  After a reconciliation that
    returned nil the key has no requeue on record, is no longer being
    processed, and no retry has been scheduled. *)
Theorem processNextItem_stops_only_at_shutdown :
  forall (c : Controller) (w : World),
    (fst (processNextItem c w) = Some false
     <-> Workqueue.queue (workqueue w) = nil
         /\ Workqueue.shuttingDown (workqueue w) = true)
    /\ (fst (processNextItem c w) = Some false -> snd (processNextItem c w) = w)
    /\ (forall key q,
          Workqueue.Get (workqueue w) = Workqueue.GetItem key q ->
          fst (processNextItem c w) = Some true
          /\ (fst (reconcile c key (set_workqueue q w)) = None ->
              let q' := workqueue (snd (processNextItem c w)) in
              Workqueue.NumRequeues key q' = O
              /\ (key ∉ Workqueue.processing q')
              /\ Workqueue.waiting q' = Workqueue.waiting (workqueue w))).
Proof.
  intros c w.
  assert (Hitem : forall key q,
            Workqueue.Get (workqueue w) = Workqueue.GetItem key q ->
            fst (processNextItem c w) = Some true
            /\ (fst (reconcile c key (set_workqueue q w)) = None ->
                let q' := workqueue (snd (processNextItem c w)) in
                Workqueue.NumRequeues key q' = O
                /\ (key ∉ Workqueue.processing q')
                /\ Workqueue.waiting q' = Workqueue.waiting (workqueue w))).
  { intros key q Hget.
    unfold processNextItem, bind, ret, get, modify, on_workqueue, log.
    rewrite Hget.
    destruct (frame_reconcile c key (set_workqueue q w)) as [_ Hq].
    destruct (reconcile c key (set_workqueue q w)) as [err w1].
    cbn [fst snd] in *. cbn [workqueue set_workqueue] in Hq.
    destruct err as [e|].
    - split; [|discriminate].
      cbn [fst snd workqueue set_workqueue].
      match goal with
      | |- context [Nat.ltb ?n maxRetries] => destruct (Nat.ltb n maxRetries)
      end; reflexivity.
    - split; [reflexivity|]. intros _. cbn. rewrite Hq. cbn.
      unfold Workqueue.Get in Hget.
      destruct (Workqueue.queue (workqueue w)) as [|k rest];
        [destruct (Workqueue.shuttingDown (workqueue w)); discriminate|].
      inversion Hget; subst. cbn.
      split; [unfold Workqueue.NumRequeues; cbn; rewrite lookup_delete_eq; reflexivity|].
      split; [|reflexivity].
      intros H. apply elem_of_difference in H as [_ H]. apply H.
      apply elem_of_singleton. reflexivity. }
  split; [|split; [|exact Hitem]].
  - destruct (Workqueue.Get (workqueue w)) as [| |key q] eqn:Hget.
    + unfold processNextItem, bind, ret, get. rewrite Hget. cbn.
      unfold Workqueue.Get in Hget.
      destruct (Workqueue.queue (workqueue w));
        [destruct (Workqueue.shuttingDown (workqueue w)); [discriminate|]|discriminate].
      split; [discriminate|]. intros [_ H]. discriminate H.
    + unfold processNextItem, bind, ret, get. rewrite Hget. cbn.
      unfold Workqueue.Get in Hget.
      destruct (Workqueue.queue (workqueue w));
        [destruct (Workqueue.shuttingDown (workqueue w)); [|discriminate]|discriminate].
      split; [intros _; split; reflexivity | reflexivity].
    + destruct (Hitem key q eq_refl) as [-> _].
      unfold Workqueue.Get in Hget.
      destruct (Workqueue.queue (workqueue w));
        [destruct (Workqueue.shuttingDown (workqueue w)); discriminate|].
      split; [discriminate|]. intros [H _]. discriminate H.
  - unfold processNextItem, bind, ret, get.
    destruct (Workqueue.Get (workqueue w)) as [| |key q] eqn:Hget; cbn.
    + discriminate.
    + reflexivity.
    + intros H. exfalso. destruct (Hitem key q eq_refl) as [Ht _].
      unfold processNextItem, bind, ret, get in Ht. rewrite Hget in Ht.
      cbn in Ht. rewrite Ht in H. discriminate H.
Qed.

Lemma processNextItem_stops_only_at_shutdown_witness :
  let q := {| Workqueue.queue := ("gone" :: nil)%list; Workqueue.dirty := {[ "gone" ]};
              Workqueue.processing := ∅; Workqueue.failures := {[ "gone" := 3%nat ]};
              Workqueue.waiting := nil; Workqueue.shuttingDown := true |} in
  let w := Samples.world_of Samples.quiet ∅ q in
  fst (processNextItem Samples.controller w) = Some true
  /\ Workqueue.NumRequeues "gone" (workqueue (snd (processNextItem Samples.controller w))) = O.
Proof.
  intros q w.
  destruct (processNextItem_stops_only_at_shutdown Samples.controller w)
    as (_ & _ & H).
  destruct (H "gone" _ eq_refl) as (Ht & Hn).
  split; [exact Ht|].
  apply Hn. vm_compute. reflexivity.
Defined.

(** ** The event handlers of the controller *)

Section Notifications.

Import Handlers.

(** The key a notification is queued under, as its handler computes it. *)
Definition key_of (n : Notification) : result string :=
  match n with
  | Added obj => MetaNamespaceKeyFunc obj
  | Updated _ newObj => MetaNamespaceKeyFunc newObj
  | Deleted obj => DeletionHandlingMetaNamespaceKeyFunc obj
  end.

Lemma Add_again (key : string) (q : Workqueue.WorkQueue) :
  Workqueue.Add key (Workqueue.Add key q) = Workqueue.Add key q.
Proof.
  unfold Workqueue.Add at 2.
  destruct (Workqueue.shuttingDown q) eqn:Hs.
  - unfold Workqueue.Add. rewrite Hs. reflexivity.
  - destruct (decide (key ∈ Workqueue.dirty q)) as [Hin|Hout].
    + unfold Workqueue.Add. rewrite Hs.
      destruct (decide (key ∈ Workqueue.dirty q)); [reflexivity|contradiction].
    + unfold Workqueue.Add. cbn. rewrite Hs.
      destruct (decide (key ∈ Workqueue.dirty q)); [contradiction|].
      cbn.
      destruct (decide (key ∈ {[key]} ∪ Workqueue.dirty q)) as [_|H]; [reflexivity|].
      exfalso. apply H. apply in_with.
Qed.

(** All of a world but its log and its work queue. *)
Definition same_node (w w' : World) : Prop :=
  env w' = env w /\ dirs w' = dirs w /\ files w' = files w
  /\ commands w' = commands w /\ statuses w' = statuses w
  /\ events w' = events w /\ gauges w' = gauges w.

Lemma notify_run (n : Notification) (w : World) :
  same_node w (snd (notify n w))
  /\ workqueue (snd (notify n w))
     = match key_of n with
       | Ok key => Workqueue.Add key (workqueue w)
       | Err _ => workqueue w
       end.
Proof.
  destruct n as [obj|oldObj obj|obj]; cbn [notify key_of];
    unfold onAdd, onUpdate, onDelete.
  - destruct (MetaNamespaceKeyFunc obj); split; repeat split.
  - destruct (MetaNamespaceKeyFunc obj); split; repeat split.
  - destruct (DeletionHandlingMetaNamespaceKeyFunc obj); split; repeat split.
Qed.

Lemma deliver_run (key : string) (l : list Notification) (w : World) :
  (forall n, In n l -> key_of n = Ok key) ->
  same_node w (snd (deliver l w))
  /\ workqueue (snd (deliver l w))
     = match l with
       | nil => workqueue w
       | _ => Workqueue.Add key (workqueue w)
       end.
Proof.
  revert w. induction l as [|n l IH]; intros w Hall.
  - split; repeat split.
  - cbn [deliver]. unfold bind.
    destruct (notify_run n w) as (Hn & Hq).
    rewrite (Hall n (or_introl eq_refl)) in Hq.
    destruct (notify n w) as [[] w1]. cbn [snd] in *.
    destruct (IH w1 (fun n' H => Hall n' (or_intror H))) as (Hn' & Hq').
    split.
    + unfold same_node in *. intuition congruence.
    + rewrite Hq'. destruct l; [exact Hq|]. rewrite Hq. apply Add_again.
Qed.

End Notifications.

(** However many notifications the informer delivers for one key (adds,
    updates and deletes of the declaration, the tombstone of a missed
    delete), the queue ends as after a single [Add] of the key: when the
    queue was idle the worker is handed the key once.  A notification
    whose object has no metadata queues nothing, and in no case does a
    handler touch anything but the log and the queue.  The key of a
    declaration outside any namespace is its name. *)
Theorem notifications_for_a_key_queue_it_once :
  forall (key : string) (l : list Handlers.Notification) (w : World),
    (forall n, In n l -> key_of n = Ok key) ->
    l <> nil ->
    let w' := snd (Handlers.deliver l w) in
    workqueue w' = Workqueue.Add key (workqueue w)
    /\ same_node w w'
    /\ (workqueue w = Workqueue.empty ->
        exists q, Workqueue.Get (workqueue w') = Workqueue.GetItem key q
                  /\ Workqueue.queue q = nil)
    /\ (forall n, key_of n = Err (Errorf "object has no meta") ->
                  workqueue (snd (Handlers.notify n w)) = workqueue w)
    /\ (forall u, GetNamespace u = "" ->
          key_of (Handlers.Added (Handlers.Declaration u)) = Ok (GetName u)
          /\ key_of (Handlers.Updated Handlers.Foreign (Handlers.Declaration u))
             = Ok (GetName u)
          /\ key_of (Handlers.Deleted (Handlers.Declaration u)) = Ok (GetName u)).
Proof.
  intros key l w Hall Hne w'.
  destruct (deliver_run key l w Hall) as (Hn & Hq). fold w' in Hn, Hq.
  destruct l as [|n l]; [contradiction|].
  split; [exact Hq|]. split; [exact Hn|]. split; [|split].
  - intros He. rewrite Hq, He.
    unfold Workqueue.Get, Workqueue.Add, Workqueue.empty. cbn.
    repeat (destruct (decide (key ∈ ∅)) as [H|_];
            [exfalso; exact (not_elem_of_empty key H)|]; cbn).
    eexists. split; reflexivity.
  - intros n' Hk. rewrite (proj2 (notify_run n' w)), Hk. reflexivity.
  - intros u Hu. cbn. rewrite Hu. repeat split.
Qed.

Lemma notifications_for_a_key_queue_it_once_witness :
  let u := quota_declaration "tenant-a-quota" "tenant-a" (Present true) in
  let v := quota_declaration "tenant-a-quota" "tenant-a" (Present false) in
  let l := (Handlers.Added (Handlers.Declaration u)
            :: Handlers.Updated (Handlers.Declaration u) (Handlers.Declaration v)
            :: Handlers.Deleted (Handlers.Tombstone "tenant-a-quota" None) :: nil)%list in
  let w := Samples.world_of Samples.quiet ∅ Workqueue.empty in
  Workqueue.queue (workqueue (snd (Handlers.deliver l w)))
  = ("tenant-a-quota" :: nil)%list.
Proof.
  intros u v l w.
  destruct (notifications_for_a_key_queue_it_once "tenant-a-quota" l w) as (Hq & _).
  - intros n [<-|[<-|[<-|[]]]]; reflexivity.
  - discriminate.
  - rewrite Hq. reflexivity.
Defined.
